(** * Vectorized string functions of the Doris execution engine

    A shallow embedding of [be/src/vec/functions/function_string.h]
    (namespace [doris::vectorized]) and the properties of its string
    functions: [substring], [left], [right], [null_or_empty], [concat],
    [concat_ws] and [repeat].

    Conventions of the embedding.
    - A byte is a [Z] in [0, 256); an [Int32] is a [Z] in [-2^31, 2^31); the
      conversions the C++ code performs implicitly ([int] to [size_t],
      [size_t] to [int], ...) are written out with [to_int32] and
      [to_size_t].  Signed 32-bit arithmetic wraps around (two's
      complement), which is what the compiled code does; the one exception
      is the negation of [INT32_MIN] in [FunctionRight], whose value
      depends on the build ([neg_int32]).
    - A [PaddedPODArray] is a [list]; an access outside of it is undefined
      behaviour and is reported as [Undefined].  The two exceptions are
      [offsets[-1]], which the array's left padding defines to be [0], and
      the byte [raw_str[i]] that the inner loop of [substring] decodes,
      which may lie behind the last byte of [chars] ([Padding]).
    - A function that can fail returns a [result]. *)

From stdpp Require Import base numbers list strings.

Local Open Scope Z_scope.

(** ** Machine integers *)

Definition to_int32 (z : Z) : Z := (z + 2 ^ 31) `mod` 2 ^ 32 - 2 ^ 31.
Definition to_size_t (z : Z) : Z := z `mod` 2 ^ 64.
Definition INT32_MAX : Z := 2 ^ 31 - 1.

Definition lengthZ {A} (l : list A) : Z := Z.of_nat (length l).

(** ** Results

    [Ok] is a normal return; [RuntimeError] is a returned
    [Status::RuntimeError]; [CheckFailed] is a [DCHECK] that fired (the
    process aborts); [Undefined] is undefined behaviour (an access outside
    of an array). *)

Inductive result (A : Type) : Type :=
| Ok (a : A)
| RuntimeError (msg : string)
| CheckFailed
| Undefined.

Arguments Ok {A} a.
Arguments RuntimeError {A} msg.
Arguments CheckFailed {A}.
Arguments Undefined {A}.

#[global] Instance result_ret : MRet result := fun A a => Ok a.
#[global] Instance result_bind : MBind result := fun A B f m =>
  match m with
  | Ok a => f a
  | RuntimeError msg => RuntimeError msg
  | CheckFailed => CheckFailed
  | Undefined => Undefined
  end.

(** [for (i = start; i < start + count; ++i) body] over a state. *)
Fixpoint for_range {S : Type} (start : nat) (count : nat)
    (body : nat -> S -> result S) (s : S) : result S :=
  match count with
  | O => Ok s
  | Datatypes.S count' => s' ← body start s; for_range (Datatypes.S start) count' body s'
  end.

(** ** Arrays *)

(** [l[i]] for a row index. *)
Definition get {A} (l : list A) (i : nat) : result A :=
  match l !! i with
  | Some x => Ok x
  | None => Undefined
  end.

(** [l[i]] for an index computed as a [size_t]. *)
Definition getZ {A} (l : list A) (i : Z) : result A :=
  if bool_decide (0 <= i < lengthZ l) then get l (Z.to_nat i) else Undefined.

(** [l[i] = x]. *)
Definition set_at {A} (l : list A) (i : nat) (x : A) : result (list A) :=
  if bool_decide (i < length l)%nat then Ok (<[i := x]> l) else Undefined.

(** The bytes [ptr[0 .. size)] of the arena [chars], [ptr] being an offset
    into it. *)
Definition slice (chars : list Z) (ptr : Z) (size : Z) : result (list Z) :=
  if bool_decide (0 <= ptr /\ 0 <= size /\ ptr + size <= lengthZ chars)
  then Ok (take (Z.to_nat size) (drop (Z.to_nat ptr) chars))
  else Undefined.

(** Modelled from the spec: [PaddedPODArray::resize] of ClickHouse's
    [PODArray] family, which is not part of the sources.  New elements are
    unspecified in C++; they are [0] here. *)
Definition resize (l : list Z) (n : nat) : list Z :=
  take n l ++ replicate (n - length l) 0.

(** Modelled from the spec: [offsets[i - 1]].  "[offsets[-1] == 0] by
    convention": the left padding of [PaddedPODArray] makes the element
    before the first one read as zero. *)
Definition prev_offset (offsets : list Z) (i : nat) : result Z :=
  match i with
  | O => Ok 0
  | Datatypes.S k => get offsets k
  end.

(** [chars] is a [PaddedPODArray]: memory follows its last element (the
    right padding of the array and what lies behind it), and the inner
    loop of [FunctionSubstring::vector] reads [raw_str[i]], [i] being the
    row, without looking at the size of the array, so that the read can
    land behind the last byte of the column.  The read returns a byte;
    the byte found there is no part of the column: it is a parameter of
    the model, [padding pos] for the position [pos] counted from the
    start of [chars], and every property holds whatever these bytes
    are. *)
Class Padding := padding : Z → Z.

(** Memory that holds zeros behind every array. *)
Definition zero_padding : Padding := fun _ => 0.

(** [chars[pos]] for a read that may go behind the last element. *)
Definition read_padded `{!Padding} (chars : list Z) (pos : Z) : result Z :=
  if bool_decide (lengthZ chars <= pos) then Ok (padding pos) else getZ chars pos.

(** ** Columns and blocks

    The column classes ([IColumn] and its subclasses), [Block] and the
    helpers [VectorizedUtils::update_null_map], [makeNullable],
    [checkAndGetColumn] and [assert_cast] are declared in headers that
    [function_string.h] includes and that are not part of the sources;
    they are modelled from the specification's data model and column
    capabilities, as far as the string functions use them. *)

(** Modelled from the spec: the columns.  A string column is the
    "columnar string buffer" (a byte arena and the cumulative end offsets
    of the rows, each row followed by one terminator byte), a nullable
    column wraps a column with a null map, a constant column holds one
    value for [s] rows. *)
Inductive IColumn : Type :=
| ColumnString (chars offsets : list Z)
| ColumnInt32 (data : list Z)
| ColumnUInt8 (data : list Z)
| ColumnNullable (nested : IColumn) (null_map : list Z)
| ColumnConst (data : IColumn) (s : nat).

Inductive IDataType : Type :=
| DataTypeString
| DataTypeInt32
| DataTypeUInt8
| DataTypeNullable (nested : IDataType).

Record ColumnWithTypeAndName : Type := mkColumn {
  column : IColumn;
  type : IDataType;
  name : string;
}.

Abbreviation Block := (list ColumnWithTypeAndName).

Module BlockOps.

Definition columns (block : Block) : nat := length block.

Definition getByPosition (block : Block) (position : nat)
    : result ColumnWithTypeAndName :=
  get block position.

Definition insert (block : Block) (elem : ColumnWithTypeAndName) : Block :=
  block ++ [elem].

(** [block.getByPosition(position).column = col]. *)
Definition set_column (block : Block) (position : nat) (col : IColumn)
    : result Block :=
  e ← getByPosition block position;
  set_at block position (mkColumn col (type e) (name e)).

End BlockOps.

(** Modelled from the spec: [IColumn::size()], the row count. *)
Fixpoint column_size (c : IColumn) : nat :=
  match c with
  | ColumnString _ offsets => length offsets
  | ColumnInt32 data => length data
  | ColumnUInt8 data => length data
  | ColumnNullable nested _ => column_size nested
  | ColumnConst _ s => s
  end.

(** Modelled from the spec: the full column a constant column stands for,
    "expandable to a full column on demand": the one row of [data]
    replicated [s] times. *)
Fixpoint replicate_first_row (data : IColumn) (s : nat) : result IColumn :=
  match data with
  | ColumnString chars offsets =>
      end_0 ← get offsets 0;
      row ← slice chars 0 end_0;
      Ok (ColumnString (mjoin (replicate s row))
            ((fun k : nat => Z.of_nat (Datatypes.S k) * end_0) <$> seq 0 s))
  | ColumnInt32 data => v ← get data 0; Ok (ColumnInt32 (replicate s v))
  | ColumnUInt8 data => v ← get data 0; Ok (ColumnUInt8 (replicate s v))
  | ColumnNullable nested null_map =>
      nested ← replicate_first_row nested s;
      v ← get null_map 0;
      Ok (ColumnNullable nested (replicate s v))
  | ColumnConst _ _ => Undefined
  end.

(** Modelled from the spec: [IColumn::convertToFullColumnIfConst], the
    column itself unless it is a constant column. *)
Definition convertToFullColumnIfConst (c : IColumn) : result IColumn :=
  match c with
  | ColumnConst data s => replicate_first_row data s
  | _ => Ok c
  end.

(** Modelled from the spec: [IColumn::isNullable()], the "is_nullable()"
    of the column capability. *)
Definition isNullable (c : IColumn) : bool :=
  match c with
  | ColumnNullable _ _ => true
  | _ => false
  end.

(** Modelled from the spec: [makeNullable(column)], "ensuring nullable": a
    nullable column is returned as it is, a constant column has its value
    wrapped, any other column is wrapped with a null map of zeros. *)
Fixpoint makeNullable (c : IColumn) : IColumn :=
  match c with
  | ColumnNullable _ _ => c
  | ColumnConst data s => ColumnConst (makeNullable data) s
  | _ => ColumnNullable c (replicate (column_size c) 0)
  end.

(** Modelled from the spec: [VectorizedUtils::update_null_map(dst, src)],
    "merges null bitmaps via bitwise-OR": [dst[i] |= src[i]] for every row
    of [dst]. *)
Definition update_null_map (dst src : list Z) : result (list Z) :=
  if bool_decide (length dst <= length src)%nat
  then Ok (zip_with Z.lor dst src)
  else Undefined.

(** [assert_cast<const ColumnString*>]: a [static_cast] in a release build;
    a column of another class is undefined behaviour. *)
Definition assert_cast_ColumnString (c : IColumn) : result (list Z * list Z) :=
  match c with
  | ColumnString chars offsets => Ok (chars, offsets)
  | _ => Undefined
  end.

(** [assert_cast<const ColumnVector<Int32>*>]. *)
Definition assert_cast_ColumnInt32 (c : IColumn) : result (list Z) :=
  match c with
  | ColumnInt32 data => Ok data
  | _ => Undefined
  end.

(** [DCHECK] is a macro of glog, which is not part of the sources; whether
    the build has assertions enabled is the parameter [dcheck_is_on] of
    every function that has a [DCHECK].  With assertions the macro aborts
    the process when the condition is false; with [NDEBUG] it compiles to
    nothing. *)
Definition DCHECK (dcheck_is_on : bool) (cond : bool) : result unit :=
  if dcheck_is_on && negb cond then CheckFailed else Ok ().

(** Modelled from the spec: [DataTypeInt32::createColumnConst(size, 1)], a
    constant column of the 32-bit integer [value]. *)
Definition createColumnConst (size : nat) (value : Z) : IColumn :=
  ColumnConst (ColumnInt32 [value]) size.

(** [memcpy(dst + dpos, src + spos, n)]. *)
Definition memcpy (dst : list Z) (dpos : Z) (src : list Z) (spos : Z) (n : Z)
    : result (list Z) :=
  bytes ← slice src spos n;
  if bool_decide (0 <= dpos /\ dpos + n <= lengthZ dst)
  then Ok (take (Z.to_nat dpos) dst ++ bytes ++ drop (Z.to_nat (dpos + n)) dst)
  else Undefined.

(** [dst[pos] = x] for a position computed as a [size_t]. *)
Definition set_atZ {A} (l : list A) (pos : Z) (x : A) : result (list A) :=
  if bool_decide (0 <= pos < lengthZ l) then set_at l (Z.to_nat pos) x else Undefined.

(** Modelled from the spec: [fmt::join(views, sep)] formatted with ["{}"],
    the views in order with [sep] between two consecutive ones. *)
Fixpoint join (views : list (list Z)) (sep : list Z) : list Z :=
  match views with
  | [] => []
  | [v] => v
  | v :: views' => v ++ sep ++ join views' sep
  end.

(** [ColumnPtr argument_columns[n]]: an array of [n] null pointers. *)
Definition ColumnPtr : Type := option IColumn.

Definition deref (p : ColumnPtr) : result IColumn :=
  match p with
  | Some c => Ok c
  | None => Undefined
  end.

(** ** [get_utf8_byte_length] *)

Definition get_utf8_byte_length (byte : Z) : Z :=
  if 252 <=? byte then 6
  else if 248 <=? byte then 5
  else if 240 <=? byte then 4
  else if 224 <=? byte then 3
  else if 192 <=? byte then 2
  else 1.

(** ** [struct StringOP] *)

Module StringOP.

Definition push_empty_string (index : nat) (chars offsets : list Z)
    : result (list Z * list Z) :=
  let chars := chars ++ [0] in
  offsets ← set_at offsets index (lengthZ chars);
  Ok (chars, offsets).

Definition push_null_string (index : nat) (chars offsets null_map : list Z)
    : result (list Z * list Z * list Z) :=
  null_map ← set_at null_map index 1;
  '(chars, offsets) ← push_empty_string index chars offsets;
  Ok (null_map, chars, offsets).

(** [string_value] is the byte sequence the [std::string_view] denotes. *)
Definition push_value_string (string_value : list Z) (index : nat)
    (chars offsets : list Z) : result (list Z * list Z) :=
  let chars := chars ++ string_value in
  let chars := chars ++ [0] in
  offsets ← set_at offsets index (lengthZ chars);
  Ok (chars, offsets).

End StringOP.

(** ** [class FunctionSubstring] *)

Module FunctionSubstring.

(** The state the row loop of [vector] works on: the null map and the
    output column's bytes and offsets. *)
Definition out : Type := list Z * list Z * list Z.

(** The inner loop of [vector]
    [[
    for (size_t j = 0, char_size = 0; j < str_size; j += char_size) {
        char_size = get_utf8_byte_length((unsigned)(raw_str)[i]);
        index.push_back(j);
        if (start[i] > 0 && index.size() > start[i] + len[i]) break;
    }
    ]]
    [raw_str] is the offset of the row in [chars]; note that the byte that
    is decoded is [raw_str[i]], [i] being the row, which for the later rows
    of a batch of short strings lies behind the last byte of [chars]
    ([read_padded]).  Every round advances
    [j] by at least one, so [fuel = str_size] rounds are enough (lemma
    [scan_fuel] below); the loop is entered with [str_size <> 0], and a
    negative [str_size] (a column whose offsets decrease) is undefined. *)
Fixpoint scan `{!Padding} (fuel : nat) (chars : list Z) (raw_str : Z) (i : nat)
    (str_size start_i len_i : Z) (j : Z) (index : list Z) : result (list Z) :=
  if j <? to_size_t str_size then
    match fuel with
    | O => Undefined
    | Datatypes.S fuel' =>
        byte ← read_padded chars (raw_str + Z.of_nat i);
        let char_size := get_utf8_byte_length byte in
        let index := index ++ [j] in
        if (0 <? start_i) && (to_size_t (to_int32 (start_i + len_i)) <? lengthZ index)
        then Ok index
        else scan fuel' chars raw_str i str_size start_i len_i
               (to_size_t (j + char_size)) index
    end
  else Ok index.

(** The part of the body of the row loop that follows the inner loop: the
    position is resolved against [index] and the span is pushed. *)
Definition vector_row_span (chars : list Z) (raw_str str_size start_i len_i : Z)
    (index : list Z) (i : nat) (st : out) : result out :=
  let '(null_map, res_chars, res_offsets) := st in
  let fixed_pos := start_i in
  let fixed_pos :=
    if fixed_pos <? 0
    then to_int32 (to_size_t (lengthZ index + to_size_t fixed_pos + 1))
    else fixed_pos in
  if lengthZ index <? to_size_t fixed_pos then
    StringOP.push_null_string i res_chars res_offsets null_map
  else
    byte_pos ← getZ index (to_size_t (to_int32 (fixed_pos - 1)));
    let fixed_len := to_int32 (to_size_t (to_size_t str_size - byte_pos)) in
    fixed_len ←
      (if to_size_t (to_int32 (fixed_pos + len_i)) <=? lengthZ index
       then
         e ← getZ index (to_size_t (to_int32 (to_int32 (fixed_pos + len_i) - 1)));
         Ok (to_int32 (to_size_t (e - byte_pos)))
       else Ok fixed_len);
    if (byte_pos <=? to_size_t str_size) && (0 <? fixed_len) then
      (* return StringVal(str.ptr + byte_pos, fixed_len); *)
      string_value ← slice chars (raw_str + byte_pos) (to_size_t fixed_len);
      '(res_chars, res_offsets) ←
        StringOP.push_value_string string_value i res_chars res_offsets;
      Ok (null_map, res_chars, res_offsets)
    else
      '(res_chars, res_offsets) ← StringOP.push_empty_string i res_chars res_offsets;
      Ok (null_map, res_chars, res_offsets).

(** One round of [for (int i = 0; i < size; ++i)] in [vector]. *)
Definition vector_row `{!Padding} (chars offsets start len : list Z) (i : nat) (st : out)
    : result out :=
  let '(null_map, res_chars, res_offsets) := st in
  offsets_i ← get offsets i;
  offsets_p ← prev_offset offsets i;
  let raw_str := offsets_p in
  let str_size := to_int32 (offsets_i - offsets_p - 1) in
  start_i ← get start i;
  (* return null if start > src.length *)
  if str_size <? start_i then
    StringOP.push_null_string i res_chars res_offsets null_map
  else
    len_i ← get len i;
    (* return the empty string if len < 0 or str == 0 or start == 0 *)
    if (len_i <=? 0) || (str_size =? 0) || (start_i =? 0) then
      '(res_chars, res_offsets) ← StringOP.push_empty_string i res_chars res_offsets;
      Ok (null_map, res_chars, res_offsets)
    else
      (* reference to string_function.cpp: substring *)
      index ← scan (Z.to_nat str_size) chars raw_str i str_size start_i len_i 0 [];
      vector_row_span chars raw_str str_size start_i len_i index i
        (null_map, res_chars, res_offsets).

Definition vector `{!Padding}
    (chars offsets start len null_map res_chars res_offsets : list Z)
    : result out :=
  let size := length offsets in
  let res_offsets := resize res_offsets size in
  for_range 0 size (vector_row chars offsets start len)
    (null_map, res_chars, res_offsets).

(** One round of the loop over the three arguments in [substring_execute]:
    the column is made full, a nullable column is replaced by its nested
    column and its null map is merged into [null_map]. *)
Definition normalize_argument (block : Block) (arguments : list nat) (i : nat)
    (st : list ColumnPtr * list Z) : result (list ColumnPtr * list Z) :=
  let '(argument_columns, null_map) := st in
  a ← get arguments i;
  e ← BlockOps.getByPosition block a;
  c ← convertToFullColumnIfConst (column e);
  match c with
  | ColumnNullable nested nullable_null_map =>
      argument_columns ← set_at argument_columns i (Some nested);
      null_map ← update_null_map null_map nullable_null_map;
      Ok (argument_columns, null_map)
  | _ =>
      argument_columns ← set_at argument_columns i (Some c);
      Ok (argument_columns, null_map)
  end.

(** [assert_cast<const ColumnString*>(argument_columns[i].get())]. *)
Definition arg_ColumnString (argument_columns : list ColumnPtr) (i : nat)
    : result (list Z * list Z) :=
  p ← get argument_columns i;
  c ← deref p;
  assert_cast_ColumnString c.

(** [assert_cast<const ColumnVector<Int32>*>(argument_columns[i].get())]. *)
Definition arg_ColumnInt32 (argument_columns : list ColumnPtr) (i : nat)
    : result (list Z) :=
  p ← get argument_columns i;
  c ← deref p;
  assert_cast_ColumnInt32 c.

Definition substring_execute `{!Padding} (dcheck_is_on : bool) (block : Block)
    (arguments : list nat) (result_pos : nat) (input_rows_count : nat)
    : result Block :=
  DCHECK dcheck_is_on (bool_decide (length arguments = 3%nat));;
  let null_map := replicate input_rows_count 0 in
  '(argument_columns, null_map) ←
    for_range 0 3 (normalize_argument block arguments) (replicate 3 None, null_map);
  '(chars, offsets) ← arg_ColumnString argument_columns 0;
  specific_start_column ← arg_ColumnInt32 argument_columns 1;
  specific_len_column ← arg_ColumnInt32 argument_columns 2;
  '(null_map, res_chars, res_offsets) ←
    vector chars offsets specific_start_column specific_len_column null_map [] [];
  BlockOps.set_column block result_pos
    (ColumnNullable (ColumnString res_chars res_offsets) null_map).

Definition executeImpl `{!Padding} := substring_execute.
End FunctionSubstring.

(** ** [class FunctionLeft] *)

Module FunctionLeft.

Definition executeImpl `{!Padding} (dcheck_is_on : bool) (block : Block)
    (arguments : list nat) (result_pos : nat) (input_rows_count : nat)
    : result Block :=
  let int_type := DataTypeInt32 in
  let num_columns_without_result := BlockOps.columns block in
  const_1 ← convertToFullColumnIfConst (createColumnConst input_rows_count 1);
  let block := BlockOps.insert block (mkColumn const_1 int_type "const 1") in
  arguments_0 ← get arguments 0%nat;
  arguments_1 ← get arguments 1%nat;
  let temp_arguments := [arguments_0; num_columns_without_result; arguments_1] in
  FunctionSubstring.substring_execute dcheck_is_on block temp_arguments
    result_pos input_rows_count.

End FunctionLeft.

(** ** [class FunctionRight] *)

Module FunctionRight.

(** [column->convertToFullColumnIfConst()], replaced by its nested column
    when it is nullable (the null map is not looked at). *)
Definition getNestedColumnIfNull (block : Block) (position : nat) : result IColumn :=
  e ← BlockOps.getByPosition block position;
  col ← convertToFullColumnIfConst (column e);
  match col with
  | ColumnNullable nested _ => Ok nested
  | _ => Ok col
  end.

(** [strlen_data[i] = str_offset[i] - str_offset[i - 1] - 1]. *)
Definition strlen_row (str_offset : list Z) (i : nat) (strlen_data : list Z)
    : result (list Z) :=
  offset_i ← get str_offset i;
  offset_p ← prev_offset str_offset i;
  set_at strlen_data i (to_int32 (offset_i - offset_p - 1)).

(** [-z] for an [int] [z].  The negation of [INT32_MIN] overflows, which
    is undefined for a signed integer, and the compiled code shows it: the
    value that [std::max(-pos_data[i], -strlen_data[i])] stores for
    [pos_data[i] == INT32_MIN] depends on how the build was optimised. *)
Definition neg_int32 (z : Z) : result Z :=
  if bool_decide (z = - 2 ^ 31) then Undefined else Ok (to_int32 (- z)).

(** [index_data[i] = std::max(-pos_data[i], -strlen_data[i])]. *)
Definition index_row (pos_data strlen_data : list Z) (i : nat) (index_data : list Z)
    : result (list Z) :=
  pos_i ← get pos_data i;
  strlen_i ← get strlen_data i;
  neg_pos ← neg_int32 pos_i;
  neg_strlen ← neg_int32 strlen_i;
  set_at index_data i (Z.max neg_pos neg_strlen).

Definition executeImpl `{!Padding} (dcheck_is_on : bool) (block : Block)
    (arguments : list nat) (result_pos : nat) (input_rows_count : nat)
    : result Block :=
  let int_type := DataTypeInt32 in
  let params1 := replicate input_rows_count 0 in
  let params2 := replicate input_rows_count 0 in
  let num_columns_without_result := BlockOps.columns block in
  arguments_0 ← get arguments 0%nat;
  str_col ← getNestedColumnIfNull block arguments_0;
  '(_, str_offset) ← assert_cast_ColumnString str_col;
  arguments_1 ← get arguments 1%nat;
  pos_col ← getNestedColumnIfNull block arguments_1;
  pos_data ← assert_cast_ColumnInt32 pos_col;
  strlen_data ← for_range 0 input_rows_count (strlen_row str_offset) params2;
  index_data ← for_range 0 input_rows_count (index_row pos_data strlen_data) params1;
  let block := BlockOps.insert block (mkColumn (ColumnInt32 index_data) int_type "index") in
  let block := BlockOps.insert block (mkColumn (ColumnInt32 strlen_data) int_type "strlen") in
  let temp_arguments :=
    [arguments_0; num_columns_without_result; Datatypes.S num_columns_without_result] in
  FunctionSubstring.substring_execute dcheck_is_on block temp_arguments
    result_pos input_rows_count.

End FunctionRight.

(** ** [class FunctionNullOrEmpty] *)

Module FunctionNullOrEmpty.

(** [res_map_data[i] |= (size == 0)]. *)
Definition row (offsets : list Z) (i : nat) (res_map_data : list Z)
    : result (list Z) :=
  offsets_i ← get offsets i;
  offsets_p ← prev_offset offsets i;
  let size := to_int32 (offsets_i - offsets_p - 1) in
  r ← get res_map_data i;
  set_at res_map_data i (Z.lor r (if size =? 0 then 1 else 0)).

Definition executeImpl (block : Block) (arguments : list nat) (result_pos : nat)
    (input_rows_count : nat) : result Block :=
  let res_map := replicate input_rows_count 0 in
  arguments_0 ← get arguments 0%nat;
  e ← BlockOps.getByPosition block arguments_0;
  '(col, res_map) ←
    match column e with
    | ColumnNullable nested null_map =>
        res_map ← update_null_map res_map null_map; Ok (nested, res_map)
    | col => Ok (col, res_map)
    end;
  '(_, offsets) ← assert_cast_ColumnString col;
  res_map_data ← for_range 0 input_rows_count (row offsets) res_map;
  BlockOps.set_column block result_pos (ColumnUInt8 res_map_data).

End FunctionNullOrEmpty.

(** ** [class FunctionStringConcat] *)

Module FunctionStringConcat.

(** The arrays the loop over the arguments fills: [argument_columns],
    [offsets_list], [chars_list] and the merged [null_map].  An entry of
    [offsets_list] or [chars_list] that is not yet assigned is the empty
    array; every entry is assigned before it is read. *)
Definition arrays : Type :=
  list ColumnPtr * list (list Z) * list (list Z) * list Z.

Definition normalize_argument (block : Block) (arguments : list nat) (i : nat)
    (st : arrays) : result arrays :=
  let '(argument_columns, offsets_list, chars_list, null_map) := st in
  a ← get arguments i;
  e ← BlockOps.getByPosition block a;
  c ← convertToFullColumnIfConst (column e);
  '(argument_columns, null_map) ←
    match c with
    | ColumnNullable nested nullable_null_map =>
        argument_columns ← set_at argument_columns i (Some nested);
        null_map ← update_null_map null_map nullable_null_map;
        Ok (argument_columns, null_map)
    | _ =>
        argument_columns ← set_at argument_columns i (Some c);
        Ok (argument_columns, null_map)
    end;
  p ← get argument_columns i;
  col ← deref p;
  '(chars, offsets) ← assert_cast_ColumnString col;
  offsets_list ← set_at offsets_list i offsets;
  chars_list ← set_at chars_list i chars;
  Ok (argument_columns, offsets_list, chars_list, null_map).

(** [res_reserve_size += offsets[j] - offsets[j - 1] - 1], [offsets] being
    the array [offsets_list[i]] points to. *)
Definition reserve_row (offsets_list : list (list Z)) (i j : nat)
    (res_reserve_size : Z) : result Z :=
  offsets ← get offsets_list i;
  offsets_j ← get offsets j;
  offsets_p ← prev_offset offsets j;
  Ok (to_int32 (res_reserve_size + (offsets_j - offsets_p - 1))).

(** The body of the loop over the arguments for row [i]: one [memcpy]. *)
Definition copy_argument (offsets_list chars_list : list (list Z))
    (res_offset : list Z) (i j : nat) (st : list Z * Z) : result (list Z * Z) :=
  let '(res_data, current_length) := st in
  current_offsets ← get offsets_list j;
  current_chars ← get chars_list j;
  offsets_i ← get current_offsets i;
  offsets_p ← prev_offset current_offsets i;
  let size := to_int32 (offsets_i - offsets_p - 1) in
  res_p ← prev_offset res_offset i;
  res_data ← memcpy res_data (res_p + current_length) current_chars offsets_p
                (to_size_t size);
  Ok (res_data, to_int32 (current_length + size)).

(** One round of the loop over the rows. *)
Definition concat_row (offsets_list chars_list : list (list Z)) (i : nat)
    (st : list Z * list Z) : result (list Z * list Z) :=
  let '(res_data, res_offset) := st in
  let current_length := 0 in
  '(res_data, current_length) ←
    for_range 0 (length offsets_list)
      (copy_argument offsets_list chars_list res_offset i) (res_data, current_length);
  res_p ← prev_offset res_offset i;
  (* add terminal zero *)
  res_data ← set_atZ res_data (res_p + current_length) 0;
  let current_length := to_int32 (current_length + 1) in
  res_offset ← set_at res_offset i (to_size_t (res_p + current_length));
  Ok (res_data, res_offset).

Definition executeImpl (dcheck_is_on : bool) (block : Block)
    (arguments : list nat) (result_pos : nat) (input_rows_count : nat)
    : result Block :=
  DCHECK dcheck_is_on (bool_decide (1 <= length arguments)%nat);;
  if bool_decide (length arguments = 1%nat) then
    arguments_0 ← get arguments 0%nat;
    e ← BlockOps.getByPosition block arguments_0;
    if isNullable (column e)
    then BlockOps.set_column block result_pos (column e)
    else BlockOps.set_column block result_pos (makeNullable (column e))
  else
    let null_map := replicate input_rows_count 0 in
    let argument_size := length arguments in
    '(argument_columns, offsets_list, chars_list, null_map) ←
      for_range 0 argument_size (normalize_argument block arguments)
        (replicate argument_size None, replicate argument_size [],
         replicate argument_size [], null_map);
    let res_data := [] in
    let res_offset := resize [] input_rows_count in
    let res_reserve_size := 0 in
    (* we could ignore null string column
       but it's not necessary to ignore it *)
    res_reserve_size ←
      for_range 0 (length offsets_list)
        (fun i => for_range 0 input_rows_count (reserve_row offsets_list i))
        res_reserve_size;
    (* for each terminal zero *)
    let res_reserve_size := to_int32 (res_reserve_size + Z.of_nat input_rows_count) in
    let res_data := resize res_data (Z.to_nat (to_size_t res_reserve_size)) in
    '(res_data, res_offset) ←
      for_range 0 input_rows_count (concat_row offsets_list chars_list)
        (res_data, res_offset);
    BlockOps.set_column block result_pos
      (ColumnNullable (ColumnString res_data res_offset) null_map).

End FunctionStringConcat.

(** ** [class FunctionStringConcatWs] *)

Module FunctionStringConcatWs.

(** [argument_columns], [offsets_list], [chars_list] and [null_list]. *)
Definition arrays : Type :=
  list ColumnPtr * list (list Z) * list (list Z) * list (list Z).

Definition normalize_argument (block : Block) (arguments : list nat)
    (const_null_map : list Z) (i : nat) (st : arrays) : result arrays :=
  let '(argument_columns, offsets_list, chars_list, null_list) := st in
  a ← get arguments i;
  e ← BlockOps.getByPosition block a;
  c ← convertToFullColumnIfConst (column e);
  argument_columns ← set_at argument_columns i (Some c);
  '(argument_columns, null_list) ←
    match c with
    | ColumnNullable nested nullable_null_map =>
        argument_columns ← set_at argument_columns i (Some nested);
        null_list ← set_at null_list i nullable_null_map;
        Ok (argument_columns, null_list)
    | _ =>
        null_list ← set_at null_list i const_null_map;
        Ok (argument_columns, null_list)
    end;
  p ← get argument_columns i;
  col ← deref p;
  '(chars, offsets) ← assert_cast_ColumnString col;
  offsets_list ← set_at offsets_list i offsets;
  chars_list ← set_at chars_list i chars;
  Ok (argument_columns, offsets_list, chars_list, null_list).

(** The body of [for (size_t j = 1; j < argument_size; ++j)] for row [i]:
    the view of argument [j] is kept unless the argument is null in this
    row.  A [std::string_view] is modelled by the bytes it denotes. *)
Definition collect_view (offsets_list chars_list null_list : list (list Z))
    (i j : nat) (views : list (list Z)) : result (list (list Z)) :=
  current_offsets ← get offsets_list j;
  current_chars ← get chars_list j;
  current_nullmap ← get null_list j;
  offsets_i ← get current_offsets i;
  offsets_p ← prev_offset current_offsets i;
  let size := to_int32 (offsets_i - offsets_p - 1) in
  let ptr := offsets_p in
  null_i ← get current_nullmap i;
  if null_i =? 0 then
    view ← slice current_chars ptr (to_size_t size);
    Ok (views ++ [view])
  else Ok views.

(** One round of the loop over the rows. *)
Definition concat_ws_row (argument_size : nat)
    (offsets_list chars_list null_list : list (list Z)) (i : nat)
    (st : list Z * list Z) : result (list Z * list Z) :=
  let '(res_data, res_offset) := st in
  seq_offsets ← get offsets_list 0%nat;
  seq_chars ← get chars_list 0%nat;
  seq_nullmap ← get null_list 0%nat;
  seq_null_i ← get seq_nullmap i;
  if negb (seq_null_i =? 0) then
    let res_data := res_data ++ [0] in
    res_offset ← set_at res_offset i (lengthZ res_data);
    Ok (res_data, res_offset)
  else
    offsets_i ← get seq_offsets i;
    offsets_p ← prev_offset seq_offsets i;
    let seq_size := to_int32 (offsets_i - offsets_p - 1) in
    let seq_data := offsets_p in
    sep ← slice seq_chars seq_data (to_size_t seq_size);
    views ←
      for_range 1 (argument_size - 1)
        (collect_view offsets_list chars_list null_list i) [];
    let buffer := join views sep in
    StringOP.push_value_string buffer i res_data res_offset.

Definition executeImpl (dcheck_is_on : bool) (block : Block)
    (arguments : list nat) (result_pos : nat) (input_rows_count : nat)
    : result Block :=
  DCHECK dcheck_is_on (bool_decide (2 <= length arguments)%nat);;
  let null_map := replicate input_rows_count 0 in
  (* we create a zero column to simply implement *)
  let const_null_map := replicate input_rows_count 0 in
  let argument_size := length arguments in
  '(argument_columns, offsets_list, chars_list, null_list) ←
    for_range 0 argument_size (normalize_argument block arguments const_null_map)
      (replicate 3 None, replicate argument_size [], replicate argument_size [],
       replicate argument_size []);
  let res_data := [] in
  let res_offset := resize [] input_rows_count in
  null_list_0 ← get null_list 0%nat;
  null_map ← update_null_map null_map null_list_0;
  '(res_data, res_offset) ←
    for_range 0 input_rows_count
      (concat_ws_row argument_size offsets_list chars_list null_list)
      (res_data, res_offset);
  BlockOps.set_column block result_pos
    (ColumnNullable (ColumnString res_data res_offset) null_map).

End FunctionStringConcatWs.

(** ** [class FunctionStringRepeat] *)

Module FunctionStringRepeat.

(** [buffer.append(raw_str, raw_str + size)]. *)
Definition append (data : list Z) (raw_str size : Z) (k : nat) (buffer : list Z)
    : result (list Z) :=
  bytes ← slice data raw_str size;
  Ok (buffer ++ bytes).

(** One round of the loop over the rows. *)
Definition repeat_row (dcheck_is_on : bool) (data offsets repeats : list Z)
    (i : nat) (st : list Z * list Z) : result (list Z * list Z) :=
  let '(res_data, res_offsets) := st in
  offsets_i ← get offsets i;
  offsets_p ← prev_offset offsets i;
  let raw_str := offsets_p in
  let size := to_int32 (offsets_i - offsets_p - 1) in
  repeat ← get repeats i;
  (* assert size * repeat won't exceed *)
  DCHECK dcheck_is_on (size * repeat <=? INT32_MAX);;
  buffer ← for_range 0 (Z.to_nat repeat) (append data raw_str size) [];
  StringOP.push_value_string buffer i res_data res_offsets.

Definition vector_vector (dcheck_is_on : bool) (data offsets repeats : list Z)
    (res_data res_offsets : list Z) : result (list Z * list Z) :=
  let input_row_size := length offsets in
  let res_offsets := resize res_offsets input_row_size in
  for_range 0 input_row_size (repeat_row dcheck_is_on data offsets repeats)
    (res_data, res_offsets).

Definition executeImpl (dcheck_is_on : bool) (block : Block)
    (arguments : list nat) (result_pos : nat) (input_rows_count : nat)
    : result Block :=
  DCHECK dcheck_is_on (bool_decide (length arguments = 2%nat));;
  arguments_0 ← get arguments 0%nat;
  e0 ← BlockOps.getByPosition block arguments_0;
  argument_ptr_0 ← convertToFullColumnIfConst (column e0);
  arguments_1 ← get arguments 1%nat;
  e1 ← BlockOps.getByPosition block arguments_1;
  argument_ptr_1 ← convertToFullColumnIfConst (column e1);
  match argument_ptr_0, argument_ptr_1 with
  | ColumnString chars offsets, ColumnInt32 data =>
      '(res_chars, res_offsets) ← vector_vector dcheck_is_on chars offsets data [] [];
      BlockOps.set_column block result_pos (ColumnString res_chars res_offsets)
  | _, _ => RuntimeError "not support repeat"
  end.

End FunctionStringRepeat.

(** ** Reading a string column *)

(** The byte length of row [i] as the functions compute it:
    [int size = offsets[i] - offsets[i - 1] - 1]. *)
Definition row_size (offsets : list Z) (i : nat) : result Z :=
  offsets_i ← get offsets i;
  offsets_p ← prev_offset offsets i;
  Ok (to_int32 (offsets_i - offsets_p - 1)).

(** The payload of row [i]: the bytes of [chars] from [offsets[i - 1]] up
    to the terminator that precedes [offsets[i]]. *)
Definition string_at (chars offsets : list Z) (i : nat) : result (list Z) :=
  offsets_i ← get offsets i;
  offsets_p ← prev_offset offsets i;
  slice chars offsets_p (offsets_i - offsets_p - 1).

(** Row [i] of the column is [payload] followed by its terminator. *)
Definition row_is (chars offsets : list Z) (i : nat) (payload : list Z) : Prop :=
  ∃ p, prev_offset offsets i = Ok p ∧
       offsets !! i = Some (p + lengthZ payload + 1) ∧
       slice chars p (lengthZ payload + 1) = Ok (payload ++ [0]).

(** The string column that holds the given rows: every payload followed
    by a terminator, and the cumulative end offsets. *)
Definition bytes_of (rows : list (list Z)) : list Z :=
  mjoin ((fun r => r ++ [0]) <$> rows).

Definition ends (rows : list (list Z)) : list Z :=
  (fun k => lengthZ (bytes_of (take (Datatypes.S k) rows))) <$> seq 0 (length rows).

Definition encode (rows : list (list Z)) : IColumn :=
  ColumnString (bytes_of rows) (ends rows).

(** The null flag of row [i] of a column: the entry of the null map for a
    nullable column, [0] for a column that cannot hold a null. *)
Definition null_flag (c : IColumn) (i : nat) : result Z :=
  match c with
  | ColumnNullable _ null_map => get null_map i
  | _ => Ok 0
  end.

(** The column of values of a column: the nested column of a nullable
    column, the column itself otherwise. *)
Definition nested_column (c : IColumn) : IColumn :=
  match c with
  | ColumnNullable nested _ => nested
  | _ => c
  end.

(** The column a call left at position [pos] of the block. *)
Definition result_column (res : result Block) (pos : nat) : result IColumn :=
  block ← res;
  e ← BlockOps.getByPosition block pos;
  Ok (column e).

(** ** [substring], [left] and [right] as functions of columns *)

(** [substring(s, pos, len)] for three argument columns: the column
    [substring_execute] computes from them. *)
Definition substring_columns `{!Padding} (dcheck_is_on : bool) (s pos len : IColumn)
    (n : nat)
    : result IColumn :=
  let block :=
    [mkColumn s DataTypeString "str"; mkColumn pos DataTypeInt32 "pos";
     mkColumn len DataTypeInt32 "len";
     mkColumn (ColumnUInt8 []) (DataTypeNullable DataTypeString) "result"] in
  result_column
    (FunctionSubstring.substring_execute dcheck_is_on block [0; 1; 2]%nat 3 n) 3.

(** The string of row [i] (empty for a row that cannot be read). *)
Definition row_or_empty (chars offsets : list Z) (i : nat) : list Z :=
  match string_at chars offsets i with
  | Ok s => s
  | _ => []
  end.

(** Modelled from the spec: [char_count(s)], the number of characters of
    [s], a character being what a lead byte announces (the table of
    [get_utf8_byte_length]). *)
Fixpoint char_count_from (fuel : nat) (s : list Z) : Z :=
  match fuel, s with
  | Datatypes.S fuel', byte :: _ =>
      1 + char_count_from fuel' (drop (Z.to_nat (get_utf8_byte_length byte)) s)
  | _, _ => 0
  end.

Definition char_count (s : list Z) : Z := char_count_from (length s) s.

(** The specification's words for [left]: [substring(s, 1, n)], [1] being the
    constant column. *)
Definition left_as_substring `{!Padding} (dcheck_is_on : bool) (s n_col : IColumn)
    (n : nat)
    : result IColumn :=
  substring_columns dcheck_is_on s (createColumnConst n 1) n_col n.

(** The specification's words for [right]: [substring(s, max(-n, -len(s)), len(s))]
    for a measure [len] of the strings of the rows ([chars] and [offsets]
    are the string column of [s], [pos_data] the values of [n]); the
    negations are 32-bit. *)
Definition right_as_substring `{!Padding} (measure : list Z → Z) (dcheck_is_on : bool)
    (s : IColumn) (chars offsets pos_data : list Z) (n : nat) : result IColumn :=
  let strlen i := measure (row_or_empty chars offsets i) in
  let index i :=
    Z.max (to_int32 (- default 0 (pos_data !! i))) (to_int32 (- strlen i)) in
  substring_columns dcheck_is_on s
    (ColumnInt32 (index <$> seq 0 n)) (ColumnInt32 (strlen <$> seq 0 n)) n.

(** ** [concat] row by row *)

(** An argument of [concat] seen as rows: the strings of its rows and
    their null flags. *)
Definition argument_rows : Type := list (list Z) * list Z.

(** Argument [a] of the call is a string column, possibly constant or
    nullable, that holds the [n] rows [arg]. *)
Definition string_argument (block : Block) (n : nat) (a : nat) (arg : argument_rows)
    : Prop :=
  ∃ e c, block !! a = Some e ∧ convertToFullColumnIfConst (column e) = Ok c ∧
    nested_column c = encode arg.1 ∧ length arg.1 = n ∧ length arg.2 = n ∧
    ∀ i, (i < n)%nat → null_flag c i = Ok (default 0 (arg.2 !! i)).

(** The concatenation of the strings the arguments hold in row [i]. *)
Definition concat_row_of (args : list argument_rows) (i : nat) : list Z :=
  mjoin ((fun arg : argument_rows => default [] (arg.1 !! i)) <$> args).

(** The bitwise OR of the null flags the arguments have in row [i]. *)
Definition null_row_of (args : list argument_rows) (i : nat) : Z :=
  foldl (fun acc (arg : argument_rows) => Z.lor acc (default 0 (arg.2 !! i))) 0 args.

(** The number of bytes of the strings of a list of arguments. *)
Definition payload_size (args : list argument_rows) : Z :=
  foldr (fun (arg : argument_rows) acc => lengthZ (mjoin arg.1) + acc) 0 args.

(** ** [concat_ws] row by row *)

(** The strings that the arguments behind the separator hold in row [i],
    the arguments that are null in this row left out. *)
Definition ws_views (rest : list argument_rows) (i : nat) : list (list Z) :=
  omap (fun arg : argument_rows =>
          if default 0 (arg.2 !! i) =? 0 then Some (default [] (arg.1 !! i)) else None)
       rest.

(** An argument seen as rows has [n] rows, and strings an [int] can
    measure. *)
Definition rows_ok (n : nat) (arg : argument_rows) : Prop :=
  length arg.1 = n ∧ length arg.2 = n ∧
  Forall (fun s : list Z => lengthZ s <= INT32_MAX) arg.1.

(** The components of the state of [FunctionSubstring.vector]. *)
Definition null_of (st : FunctionSubstring.out) : list Z := st.1.1.
Definition chars_of (st : FunctionSubstring.out) : list Z := st.1.2.
Definition offsets_of (st : FunctionSubstring.out) : list Z := st.2.

(** What one round of the row loop does to the state: it pushes one row,
    and either leaves the null map alone or pushes a null. *)
Definition row_pushed (i : nat) (st st' : FunctionSubstring.out) : Prop :=
  (i < length (offsets_of st))%nat ∧
  ∃ payload, chars_of st' = chars_of st ++ payload ++ [0] ∧
    offsets_of st' = <[i := lengthZ (chars_of st')]> (offsets_of st) ∧
    (null_of st' = null_of st ∨
     (i < length (null_of st))%nat ∧ null_of st' = <[i := 1]> (null_of st) ∧ payload = []).

(** ** [repeat] and [concat_ws] on whole columns *)

(** Row [i] of [repeat]: the string of the row, [repeats[i]] times. *)
Definition repeat_row_of (rows : list (list Z)) (repeats : list Z) (i : nat) : list Z :=
  mjoin (replicate (Z.to_nat (default 0 (repeats !! i))) (default [] (rows !! i))).

(** Row [i] of [concat_ws]: empty under a null separator, and else the
    strings of the arguments that are not null, joined with the
    separator. *)
Definition ws_row_of (sep : argument_rows) (rest : list argument_rows) (i : nat)
    : list Z :=
  if default 0 (sep.2 !! i) =? 0
  then join (ws_views rest i) (default [] (sep.1 !! i))
  else [].

(** Argument [a] of the call is a string column of [n] rows, constant or
    not, that is either not nullable (the flags are zeros) or nullable with
    a null map of [n] flags. *)
Definition ws_argument (block : Block) (n : nat) (a : nat) (arg : argument_rows) : Prop :=
  ∃ e c, block !! a = Some e ∧ convertToFullColumnIfConst (column e) = Ok c ∧
    (c = encode arg.1 ∧ arg.2 = replicate n 0 ∨ c = ColumnNullable (encode arg.1) arg.2) ∧
    rows_ok n arg.

(** ** The inner loop and the resolver of [substring] in closed form

    The inner loop of [vector] decodes the same byte [raw_str[i]] in every
    round, so that the characters it counts all have one width [w]. *)

(** The number of characters of width [w] in [str_size] bytes, the last
    one possibly cut. *)
Definition char_slots (str_size w : Z) : Z := (str_size + w - 1) / w.

(** The byte offsets of the first [m] characters of width [w]. *)
Definition grid (w : Z) (m : nat) : list Z :=
  (fun k : nat => Z.of_nat k * w) <$> seq 0 m.

(** The number of entries of [index] when the inner loop is left: all
    the characters, unless the [break] stops it behind entry
    [start + len]. *)
Definition scan_count (str_size w start_i len_i : Z) : Z :=
  let limit := to_size_t (to_int32 (start_i + len_i)) in
  if (0 <? start_i) && (limit <? char_slots str_size w)
  then limit + 1
  else char_slots str_size w.

(** [len] characters of width [w] of [s], from character [k] on (counted
    from zero); the span ends with [s]. *)
Definition span (w : Z) (s : list Z) (k len : Z) : list Z :=
  take (Z.to_nat (len * w)) (drop (Z.to_nat (k * w)) s).

(** A value of a column of [Int32]. *)
Definition is_int32 (z : Z) : Prop := - 2 ^ 31 <= z <= INT32_MAX.

(** ** When [substring] returns *)

(** The round of row [i], which holds [s], goes through for the position
    [pos] and the length [l]: it leaves by one of the two exits, or [pos]
    is not the position one character before the first one, a character
    having the width of the byte [raw_str[i]] that the inner loop
    decodes. *)
Definition substring_resolves `{!Padding} (rows : list (list Z)) (i : nat) (s : list Z)
    (pos l : Z) : Prop :=
  lengthZ s < pos ∨ l <= 0 ∨ s = [] ∨ pos = 0 ∨
  ∃ byte,
    read_padded (bytes_of rows) (lengthZ (bytes_of (take i rows)) + Z.of_nat i) = Ok byte ∧
    pos ≠ - (char_slots (lengthZ s) (get_utf8_byte_length byte) + 1).

(** ** The argument columns that [right] builds *)

(** [strlen_data[i]] and [index_data[i]] of [FunctionRight::executeImpl]
    for a string column with the arrays [chars] and [offsets] and the
    counts [pos_data], for a count that can be negated (any but
    [INT32_MIN]). *)
Definition right_strlen (chars offsets : list Z) (i : nat) : Z :=
  lengthZ (row_or_empty chars offsets i).

Definition right_index (chars offsets pos_data : list Z) (i : nat) : Z :=
  Z.max (to_int32 (- default 0 (pos_data !! i))) (to_int32 (- right_strlen chars offsets i)).

(** ** Results that are a value or undefined behaviour *)

(** The result is a normal return or undefined behaviour: no status is
    returned and no assertion fires. *)
Definition plain {A} (m : result A) : Prop :=
  match m with
  | Ok _ | Undefined => True
  | _ => False
  end.

(** * Properties *)

Section properties.
Context {pad : Padding}.

(** ** The result monad and the loops *)

Lemma bind_Ok {A B} (m : result A) (f : A → result B) (b : B) :
  m ≫= f = Ok b ↔ ∃ a, m = Ok a ∧ f a = Ok b.
Proof.
  destruct m; simpl; split; try (intros (? & ? & ?)); try intros ?;
    try discriminate; eauto.
  simplify_eq. done.
Qed.

Lemma ret_bind {A B} (a : A) (f : A → result B) : Ok a ≫= f = f a.
Proof. done. Qed.

Lemma get_Ok {A} (l : list A) i x : get l i = Ok x ↔ l !! i = Some x.
Proof. unfold get. destruct (l !! i); split; intros H; inversion H; done. Qed.

Lemma getZ_Ok {A} (l : list A) i x :
  getZ l i = Ok x ↔ 0 <= i < lengthZ l ∧ l !! Z.to_nat i = Some x.
Proof.
  unfold getZ. case_bool_decide; rewrite ?get_Ok; [tauto|].
  split; [done | tauto].
Qed.

Lemma set_at_Ok {A} (l : list A) i x l' :
  set_at l i x = Ok l' ↔ (i < length l)%nat ∧ l' = <[i := x]> l.
Proof.
  unfold set_at. case_bool_decide; split.
  - intros H'. inversion H'. done.
  - intros [_ ->]. done.
  - intros H'. inversion H'.
  - intros [? _]. done.
Qed.

Lemma set_at_lt {A} (l : list A) i x :
  (i < length l)%nat → set_at l i x = Ok (<[i := x]> l).
Proof. intros Hi. unfold set_at. by rewrite bool_decide_true. Qed.

Lemma slice_Ok chars ptr size bytes :
  slice chars ptr size = Ok bytes ↔
  0 <= ptr ∧ 0 <= size ∧ ptr + size <= lengthZ chars ∧
  bytes = take (Z.to_nat size) (drop (Z.to_nat ptr) chars).
Proof.
  unfold slice. case_bool_decide; split.
  - intros H'. inversion H'. tauto.
  - intros (_ & _ & _ & ->). done.
  - intros H'. inversion H'.
  - intros (? & ? & ? & _). tauto.
Qed.

(** Inversion of a successful run: every bind succeeded. *)
Ltac inv_ok :=
  repeat match goal with
  | H : Ok _ = Ok _ |- _ => inversion H; clear H; subst
  | H : Undefined = Ok _ |- _ => discriminate H
  | H : CheckFailed = Ok _ |- _ => discriminate H
  | H : RuntimeError _ = Ok _ |- _ => discriminate H
  | H : _ ≫= _ = Ok _ |- _ =>
      let a := fresh "a" in let Ha := fresh "Ha" in
      apply bind_Ok in H as (a & Ha & H)
  | H : (let '(_, _) := ?p in _) = Ok _ |- _ => destruct p
  | H : get _ _ = Ok _ |- _ => apply get_Ok in H
  | H : set_at _ _ _ = Ok _ |- _ =>
      let Hl := fresh "Hlt" in apply set_at_Ok in H as [Hl H]; subst
  end.

Lemma for_range_S {S} (body : nat → S → result S) a n s :
  for_range a (Datatypes.S n) body s = body a s ≫= for_range (Datatypes.S a) n body.
Proof. done. Qed.

Lemma for_range_snoc {S} (body : nat → S → result S) a n s :
  for_range a (Datatypes.S n) body s = for_range a n body s ≫= body (a + n)%nat.
Proof.
  revert a s. induction n as [|n IH]; intros a s.
  - simpl. rewrite Nat.add_0_r. by destruct (body a s).
  - change (for_range a (Datatypes.S (Datatypes.S n)) body s)
      with (body a s ≫= for_range (Datatypes.S a) (Datatypes.S n) body).
    change (for_range a (Datatypes.S n) body s)
      with (body a s ≫= for_range (Datatypes.S a) n body).
    destruct (body a s) as [s'| | |]; try done.
    change (for_range (Datatypes.S a) (Datatypes.S n) body s'
            = for_range (Datatypes.S a) n body s' ≫= body (a + Datatypes.S n)%nat).
    rewrite IH. by replace (Datatypes.S a + n)%nat with (a + Datatypes.S n)%nat by lia.
Qed.

(** A loop that succeeds went through every round. *)
Lemma for_range_prefix {S} (body : nat → S → result S) a n s s' k :
  for_range a n body s = Ok s' → (k <= n)%nat →
  ∃ s_k, for_range a k body s = Ok s_k ∧ for_range (a + k) (n - k) body s_k = Ok s'.
Proof.
  revert a n s. induction k as [|k IH]; intros a n s Hrun Hk.
  - exists s. rewrite Nat.add_0_r, Nat.sub_0_r. done.
  - destruct n as [|n]; [lia|]. simpl in Hrun. apply bind_Ok in Hrun as (s1 & H1 & Hrun).
    destruct (IH _ _ _ Hrun) as (s_k & Hk1 & Hk2); [lia|].
    exists s_k. simpl. rewrite H1. simpl. split; [done|].
    by replace (a + Datatypes.S k)%nat with (Datatypes.S a + k)%nat by lia.
Qed.

(** Invariants of loops. *)
Lemma for_range_invariant {S} (I : nat → S → Prop) (body : nat → S → result S) a n s s' :
  (∀ k t t', (a <= k < a + n)%nat → I k t → body k t = Ok t' → I (Datatypes.S k) t') →
  I a s → for_range a n body s = Ok s' → I (a + n)%nat s'.
Proof.
  revert a s. induction n as [|n IH]; intros a s Hstep Ha Hrun.
  - simpl in Hrun. simplify_eq. by rewrite Nat.add_0_r.
  - simpl in Hrun. apply bind_Ok in Hrun as (s1 & H1 & Hrun).
    replace (a + Datatypes.S n)%nat with (Datatypes.S a + n)%nat by lia.
    eapply IH; [| |done].
    + intros k t t' Hk. apply Hstep. lia.
    + eapply Hstep; [|done..]. lia.
Qed.

(** A loop whose round [i] rewrites element [i] of an array. *)
Lemma for_range_pointwise {A} (f : nat → A → A) (body : nat → list A → result (list A))
    n (l : list A) :
  (∀ i t x, t !! i = Some x → length t = n → body i t = Ok (<[i := f i x]> t)) →
  length l = n →
  for_range 0 n body l = Ok (imap f l).
Proof.
  intros Hbody Hlen.
  assert (∀ m a t, (a + m = n)%nat → length t = n →
    for_range a m body t = Ok (take a t ++ imap (f ∘ (Nat.add a)) (drop a t))) as Hgen.
  { induction m as [|m IH]; intros a t Ham Ht.
    - simpl. rewrite drop_ge by lia. simpl. rewrite app_nil_r, take_ge by lia. done.
    - destruct (lookup_lt_is_Some_2 t a) as [x Hx]; [lia|].
      simpl. rewrite (Hbody _ _ _ Hx Ht). simpl.
      rewrite IH by (rewrite ?length_insert; lia). f_equal.
      rewrite drop_insert_lt by lia.
      rewrite (drop_S _ _ _ Hx). simpl.
      rewrite (take_S_r _ _ (f a x)); last first.
      { rewrite list_lookup_insert_eq by lia. done. }
      rewrite take_insert_ge by lia. rewrite <- app_assoc. simpl.
      rewrite Nat.add_0_r. f_equal. f_equal.
      apply imap_ext. intros. simpl. f_equal. lia. }
  rewrite (Hgen n 0%nat l) by (done || lia). done.
Qed.

(** ** Rows of a string column *)

Lemma lengthZ_app {A} (l1 l2 : list A) : lengthZ (l1 ++ l2) = lengthZ l1 + lengthZ l2.
Proof. unfold lengthZ. rewrite length_app. lia. Qed.

Lemma lengthZ_nonneg {A} (l : list A) : 0 <= lengthZ l.
Proof. unfold lengthZ. lia. Qed.

Lemma slice_middle (pre mid post : list Z) :
  slice (pre ++ mid ++ post) (lengthZ pre) (lengthZ mid) = Ok mid.
Proof.
  apply slice_Ok. pose proof (lengthZ_nonneg pre). pose proof (lengthZ_nonneg mid).
  pose proof (lengthZ_nonneg post).
  rewrite !lengthZ_app. repeat split; try lia.
  unfold lengthZ. rewrite !Nat2Z.id.
  rewrite drop_app_length. by rewrite take_app_length.
Qed.

Lemma row_is_string_at chars offsets i payload :
  row_is chars offsets i payload → string_at chars offsets i = Ok payload.
Proof.
  intros (p & Hp & Hi & Hs). unfold string_at.
  apply get_Ok in Hi. rewrite Hi, Hp. simpl.
  replace (p + lengthZ payload + 1 - p - 1) with (lengthZ payload) by lia.
  apply slice_Ok in Hs as (? & ? & Hle & Heq).
  apply slice_Ok. pose proof (lengthZ_nonneg payload). repeat split; try lia.
  apply (f_equal (take (length payload))) in Heq.
  rewrite take_app_length in Heq. rewrite Heq at 1.
  rewrite take_take. f_equal. unfold lengthZ. lia.
Qed.

Lemma row_is_size chars offsets i payload :
  row_is chars offsets i payload → lengthZ payload <= INT32_MAX →
  row_size offsets i = Ok (lengthZ payload).
Proof.
  intros (p & Hp & Hi & Hs) Hmax. unfold row_size.
  apply get_Ok in Hi. rewrite Hi, Hp. simpl. f_equal.
  pose proof (lengthZ_nonneg payload). unfold to_int32, INT32_MAX in *.
  replace (p + lengthZ payload + 1 - p - 1) with (lengthZ payload) by lia.
  rewrite Z.mod_small; lia.
Qed.

(** ** Loops that push one row per round *)

Section push_loop.
Context {S : Type} (charsS offsS : S → list Z) (body : nat → S → result S).

Hypothesis body_pushes : ∀ i s s', body i s = Ok s' →
  (i < length (offsS s))%nat ∧
  ∃ payload, charsS s' = charsS s ++ payload ++ [0] ∧
             offsS s' = <[i := lengthZ (charsS s')]> (offsS s).

Lemma push_loop_end n s0 s' :
  for_range 0 n body s0 = Ok s' → charsS s0 = [] →
  prev_offset (offsS s') n = Ok (lengthZ (charsS s')).
Proof.
  intros Hrun Hs0.
  apply (for_range_invariant
           (fun k s => prev_offset (offsS s) k = Ok (lengthZ (charsS s)))) in Hrun;
    [done| |by rewrite Hs0].
  intros k t t' _ _ Hb. apply body_pushes in Hb as (Hk & payload & Hc & Ho).
  simpl. apply get_Ok. rewrite Ho. by apply list_lookup_insert_eq.
Qed.

Lemma push_loop_frame a n s s' :
  for_range a n body s = Ok s' →
  (∃ suffix, charsS s' = charsS s ++ suffix) ∧
  ∀ j, (j < a)%nat → offsS s' !! j = offsS s !! j.
Proof.
  intros Hrun.
  apply (for_range_invariant
           (fun k t => (∃ suffix, charsS t = charsS s ++ suffix) ∧
                       ∀ j, (j < a)%nat → offsS t !! j = offsS s !! j)) in Hrun;
    [done| |].
  - intros k t t' Hk [[suffix Hsuf] Hoffs] Hb.
    apply body_pushes in Hb as (Hlt & payload & Hc & Ho). split.
    + exists (suffix ++ payload ++ [0]). rewrite Hc, Hsuf. by rewrite <- !app_assoc.
    + intros j Hj. rewrite Ho, list_lookup_insert_ne by lia. by apply Hoffs.
  - split; [exists []; by rewrite app_nil_r | done].
Qed.

(** Row [i] of the column the loop builds is the payload round [i]
    pushed. *)
Lemma push_loop_row n s0 s' i :
  for_range 0 n body s0 = Ok s' → charsS s0 = [] → (i < n)%nat →
  ∃ s_i s_i' payload,
    for_range 0 i body s0 = Ok s_i ∧ body i s_i = Ok s_i' ∧
    for_range (Datatypes.S i) (n - Datatypes.S i) body s_i' = Ok s' ∧
    charsS s_i' = charsS s_i ++ payload ++ [0] ∧
    row_is (charsS s') (offsS s') i payload.
Proof.
  intros Hrun Hs0 Hi.
  destruct (for_range_prefix _ _ _ _ _ i Hrun) as (s_i & Hpre & Hrest); [lia|].
  destruct (n - i)%nat as [|m] eqn:Hm; [lia|]. simpl in Hrest.
  apply bind_Ok in Hrest as (s_i' & Hb & Hrest).
  replace m with (n - Datatypes.S i)%nat in Hrest by lia.
  pose proof (push_loop_end _ _ _ Hpre Hs0) as Hend.
  destruct (body_pushes _ _ _ Hb) as (Hlt & payload & Hc & Ho).
  destruct (push_loop_frame _ _ _ _ Hrest) as [[suffix Hsuf] Hoffs].
  exists s_i, s_i', payload. repeat split; try done.
  exists (lengthZ (charsS s_i)). split; [|split].
  - destruct i as [|i]; [done|]. simpl in *. apply get_Ok. apply get_Ok in Hend.
    rewrite Hoffs, Ho by lia. rewrite list_lookup_insert_ne by lia. done.
  - rewrite Hoffs, Ho by lia. rewrite list_lookup_insert_eq by lia.
    rewrite Hc, !lengthZ_app. f_equal. unfold lengthZ. simpl. lia.
  - rewrite Hsuf, Hc.
    replace (lengthZ payload + 1) with (lengthZ (payload ++ [0]))
      by (rewrite lengthZ_app; done).
    rewrite <- !app_assoc. rewrite (app_assoc payload [0] suffix).
    apply slice_middle.
Qed.
End push_loop.

(** ** [StringOP] *)

Lemma push_empty_string_Ok i chars offsets chars' offsets' :
  StringOP.push_empty_string i chars offsets = Ok (chars', offsets') ↔
  (i < length offsets)%nat ∧ chars' = chars ++ [] ++ [0] ∧
  offsets' = <[i := lengthZ chars']> offsets.
Proof.
  unfold StringOP.push_empty_string. split.
  - intros H. inv_ok. done.
  - intros (Hi & -> & ->). simpl. unfold set_at. rewrite bool_decide_true by done. done.
Qed.

Lemma push_value_string_Ok v i chars offsets chars' offsets' :
  StringOP.push_value_string v i chars offsets = Ok (chars', offsets') ↔
  (i < length offsets)%nat ∧ chars' = chars ++ v ++ [0] ∧
  offsets' = <[i := lengthZ chars']> offsets.
Proof.
  unfold StringOP.push_value_string. rewrite <- app_assoc. split.
  - intros H. inv_ok. done.
  - intros (Hi & -> & ->). unfold set_at. rewrite bool_decide_true by done. done.
Qed.

Lemma push_null_string_Ok i chars offsets null_map st' :
  StringOP.push_null_string i chars offsets null_map = Ok st' ↔
  (i < length offsets)%nat ∧ (i < length null_map)%nat ∧
  st' = (<[i := 1]> null_map, chars ++ [] ++ [0],
         <[i := lengthZ (chars ++ [] ++ [0])]> offsets).
Proof.
  unfold StringOP.push_null_string. split.
  - intros H. inv_ok.
    match goal with
    | H : StringOP.push_empty_string _ _ _ = Ok _ |- _ =>
        apply push_empty_string_Ok in H as (? & -> & ->)
    end. done.
  - intros (Hi & Hn & ->). unfold set_at at 1. rewrite bool_decide_true by done.
    simpl. unfold StringOP.push_empty_string, set_at. simpl.
    rewrite bool_decide_true by done. done.
Qed.

Ltac inv_push :=
  repeat match goal with
  | H : StringOP.push_empty_string _ _ _ = Ok _ |- _ =>
      apply push_empty_string_Ok in H as (? & ? & ?); subst
  | H : StringOP.push_value_string _ _ _ _ = Ok _ |- _ =>
      apply push_value_string_Ok in H as (? & ? & ?); subst
  | H : StringOP.push_null_string _ _ _ _ = Ok _ |- _ =>
      apply push_null_string_Ok in H as (? & ? & ?); subst
  end.

Ltac inv_all := repeat first [ progress inv_ok | progress inv_push | case_match ].

(** ** [FunctionSubstring::vector] *)

Ltac solve_pushed :=
  unfold row_pushed, chars_of, offsets_of, null_of; simpl; split; [done|];
  first [ exists []; simpl; by auto 10 | eexists; simpl; by auto 10 ].

Lemma vector_row_span_pushed chars raw_str str_size start_i len_i index i st st' :
  FunctionSubstring.vector_row_span chars raw_str str_size start_i len_i index i st = Ok st' →
  row_pushed i st st'.
Proof.
  destruct st as [[nm rc] ro]. unfold FunctionSubstring.vector_row_span.
  intros H. inv_all; solve_pushed.
Qed.

Lemma vector_row_pushed chars offsets start len i st st' :
  FunctionSubstring.vector_row chars offsets start len i st = Ok st' →
  row_pushed i st st'.
Proof.
  destruct st as [[nm rc] ro]. unfold FunctionSubstring.vector_row.
  intros H. inv_all; first [ solve_pushed | by eapply vector_row_span_pushed ].
Qed.

Lemma row_size_Ok offsets i n :
  row_size offsets i = Ok n ↔
  ∃ o p, get offsets i = Ok o ∧ prev_offset offsets i = Ok p ∧ n = to_int32 (o - p - 1).
Proof.
  unfold row_size. split.
  - intros H. inv_ok. eexists _, _. by rewrite get_Ok.
  - intros (o & p & -> & -> & ->). done.
Qed.

(** The rounds of the row loop other than round [j] leave the null flag of
    row [j] alone. *)
Lemma vector_null_frame chars offsets start len a n st st' j :
  for_range a n (FunctionSubstring.vector_row chars offsets start len) st = Ok st' →
  (j < a ∨ a + n <= j)%nat →
  null_of st' !! j = null_of st !! j.
Proof.
  intros Hrun Hj.
  apply (for_range_invariant (fun _ t => null_of t !! j = null_of st !! j)) in Hrun;
    [done| |done].
  intros k t t' Hk Ht Hb. apply vector_row_pushed in Hb as (_ & payload & _ & _ & Hnull).
  destruct Hnull as [-> | (_ & -> & _)]; [done|].
  rewrite list_lookup_insert_ne by lia. done.
Qed.

(** Row [i] of the output of [vector] is what round [i] pushed, and the
    null flag of row [i] is the one round [i] left. *)
Lemma vector_row_of_output chars offsets start len null_map out i :
  FunctionSubstring.vector chars offsets start len null_map [] [] = Ok out →
  (i < length offsets)%nat →
  ∃ st st' payload,
    FunctionSubstring.vector_row chars offsets start len i st = Ok st' ∧
    chars_of st' = chars_of st ++ payload ++ [0] ∧
    null_of st !! i = null_map !! i ∧
    null_of out !! i = null_of st' !! i ∧
    row_is (chars_of out) (offsets_of out) i payload.
Proof.
  unfold FunctionSubstring.vector. intros Hrun Hi.
  destruct (push_loop_row chars_of offsets_of _
              (fun k s s' H => match vector_row_pushed _ _ _ _ k s s' H with
                               | conj Hlt (ex_intro _ payload (conj Hc (conj Ho _))) =>
                                   conj Hlt (ex_intro _ payload (conj Hc Ho))
                               end)
              _ _ _ i Hrun eq_refl Hi)
    as (st & st' & payload & Hpre & Hb & Hrest & Hc & Hrow).
  exists st, st', payload. repeat split; try done.
  - by rewrite (vector_null_frame _ _ _ _ _ _ _ _ i Hpre) by lia.
  - by rewrite (vector_null_frame _ _ _ _ _ _ _ _ i Hrest) by lia.
Qed.

(** The first exit of the row loop: [start[i] > str_size]. *)
Lemma vector_row_start_past_end chars offsets start len i n s null_map res_chars res_offsets :
  row_size offsets i = Ok n → start !! i = Some s → n < s →
  FunctionSubstring.vector_row chars offsets start len i (null_map, res_chars, res_offsets)
  = StringOP.push_null_string i res_chars res_offsets null_map.
Proof.
  intros (o & p & Ho & Hp & ->)%row_size_Ok Hs Hlt.
  unfold FunctionSubstring.vector_row. apply get_Ok in Hs. rewrite Ho, Hp, Hs. simpl.
  by rewrite (proj2 (Z.ltb_lt _ _) Hlt).
Qed.

(** The second exit of the row loop: [len[i] <= 0 || str_size == 0 ||
    start[i] == 0]. *)
Lemma vector_row_empty chars offsets start len i n s l null_map res_chars res_offsets :
  row_size offsets i = Ok n → start !! i = Some s → len !! i = Some l →
  s <= n → l <= 0 ∨ n = 0 ∨ s = 0 →
  FunctionSubstring.vector_row chars offsets start len i (null_map, res_chars, res_offsets)
  = ('(res_chars, res_offsets) ← StringOP.push_empty_string i res_chars res_offsets;
     Ok (null_map, res_chars, res_offsets)).
Proof.
  intros (o & p & Ho & Hp & ->)%row_size_Ok Hs Hl Hle Hcase.
  unfold FunctionSubstring.vector_row.
  apply get_Ok in Hs. apply get_Ok in Hl. rewrite Ho, Hp, Hs. simpl.
  rewrite (proj2 (Z.ltb_ge _ _) Hle). rewrite Hl. simpl.
  replace ((l <=? 0) || (to_int32 (o - p - 1) =? 0) || (s =? 0)) with true; [done|].
  symmetry. rewrite !orb_true_iff, Z.leb_le, !Z.eqb_eq. tauto.
Qed.

Lemma app_payload_inv (pre payload payload' : list Z) :
  pre ++ payload ++ [0] = pre ++ payload' ++ [0] → payload = payload'.
Proof. intros H%app_inv_head. by apply app_inj_tail in H as [? _]. Qed.

(** C5.  [substring(s, pos, len)] is NULL when [pos] is greater than the
    byte length of the row's string, for every [len]: the round of such a
    row [i] is a push of a null whatever [len] holds, and in the output of
    the batch row [i] has its null bit set and an empty payload (followed
    by its terminator) written. *)
Theorem substring_start_past_end_is_null chars offsets start len i n s :
  row_size offsets i = Ok n → start !! i = Some s → n < s →
  (∀ null_map res_chars res_offsets,
     FunctionSubstring.vector_row chars offsets start len i
       (null_map, res_chars, res_offsets)
     = StringOP.push_null_string i res_chars res_offsets null_map) ∧
  (∀ null_map out,
     FunctionSubstring.vector chars offsets start len null_map [] [] = Ok out →
     null_of out !! i = Some 1 ∧ row_is (chars_of out) (offsets_of out) i []).
Proof.
  intros Hn Hs Hlt. split.
  { intros. by eapply vector_row_start_past_end. }
  intros null_map out Hrun.
  assert (i < length offsets)%nat as Hi.
  { apply row_size_Ok in Hn as (o & p & Ho%get_Ok & _). by eapply lookup_lt_Some. }
  destruct (vector_row_of_output _ _ _ _ _ _ _ Hrun Hi)
    as ([[nm rc] ro] & st' & payload & Hb & Hc & Hnm & Hnm' & Hrow).
  rewrite (vector_row_start_past_end _ _ _ _ _ _ _ _ _ _ Hn Hs Hlt) in Hb.
  apply push_null_string_Ok in Hb as (Hlt1 & Hlt2 & ->).
  apply app_payload_inv in Hc as <-. split; [|done].
  rewrite Hnm'. unfold null_of. simpl. by apply list_lookup_insert_eq.
Qed.

(** C6.  With [pos] in range ([start[i] <= str_size]), [substring] returns
    the empty string when [len <= 0], when the row's string is empty or
    when [pos == 0]: the round of such a row is a push of an empty string,
    and in the output of the batch the row has an empty payload and is not
    made null (its null flag stays the one the null maps of the inputs gave
    it, [0] for inputs that are not null). *)
Theorem substring_empty_result chars offsets start len i n s l :
  row_size offsets i = Ok n → start !! i = Some s → len !! i = Some l →
  s <= n → l <= 0 ∨ n = 0 ∨ s = 0 →
  (∀ null_map res_chars res_offsets,
     FunctionSubstring.vector_row chars offsets start len i
       (null_map, res_chars, res_offsets)
     = ('(res_chars, res_offsets) ← StringOP.push_empty_string i res_chars res_offsets;
        Ok (null_map, res_chars, res_offsets))) ∧
  (∀ null_map out,
     FunctionSubstring.vector chars offsets start len null_map [] [] = Ok out →
     row_is (chars_of out) (offsets_of out) i [] ∧
     null_of out !! i = null_map !! i).
Proof.
  intros Hn Hs Hl Hle Hcase. split.
  { intros. by eapply vector_row_empty. }
  intros null_map out Hrun.
  assert (i < length offsets)%nat as Hi.
  { apply row_size_Ok in Hn as (o & p & Ho%get_Ok & _). by eapply lookup_lt_Some. }
  destruct (vector_row_of_output _ _ _ _ _ _ _ Hrun Hi)
    as ([[nm rc] ro] & st' & payload & Hb & Hc & Hnm & Hnm' & Hrow).
  rewrite (vector_row_empty _ _ _ _ _ _ _ _ _ _ _ Hn Hs Hl Hle Hcase) in Hb.
  inv_all. apply app_payload_inv in Hc as <-. split; [done|].
  by rewrite Hnm', <- Hnm.
Qed.

(** ** Machine integers *)

Lemma to_int32_small z : - 2 ^ 31 <= z < 2 ^ 31 → to_int32 z = z.
Proof. intros H. unfold to_int32. rewrite Z.mod_small; lia. Qed.

Lemma to_size_t_small z : 0 <= z < 2 ^ 64 → to_size_t z = z.
Proof. intros H. unfold to_size_t. by rewrite Z.mod_small. Qed.

Lemma to_int32_range z : - 2 ^ 31 <= to_int32 z < 2 ^ 31.
Proof. unfold to_int32. pose proof (Z.mod_pos_bound (z + 2 ^ 31) (2 ^ 32)). lia. Qed.

Lemma get_utf8_byte_length_bounds byte : 1 <= get_utf8_byte_length byte <= 6.
Proof. unfold get_utf8_byte_length. repeat case_match; lia. Qed.

Lemma slice_length chars ptr size bytes :
  slice chars ptr size = Ok bytes → lengthZ bytes = size.
Proof.
  intros (? & ? & ? & ->)%slice_Ok. unfold lengthZ in *.
  rewrite length_take, length_drop. lia.
Qed.

(** ** The inner loop of [FunctionSubstring::vector] *)

(** The index list the inner loop builds starts with the offset [0] of the
    first character and has at most [str_size] entries. *)
Lemma scan_spec fuel chars raw_str i str_size start_i len_i j index index' :
  0 <= str_size < 2 ^ 31 → 0 <= j →
  lengthZ index <= j → lengthZ index <= str_size →
  FunctionSubstring.scan fuel chars raw_str i str_size start_i len_i j index = Ok index' →
  lengthZ index' <= str_size ∧
  ∃ more, index' = index ++ more ∧ (j < str_size → ∃ more', more = j :: more').
Proof.
  intros Hsize. revert j index.
  induction fuel as [|fuel IH]; intros j index Hj Hlen Hlen' Hrun; simpl in Hrun;
    rewrite (to_size_t_small str_size) in Hrun by lia;
    destruct (j <? str_size) eqn:Hlt;
    try apply Z.ltb_lt in Hlt; try apply Z.ltb_ge in Hlt; inv_ok.
  - split; [done|]. exists []. rewrite app_nil_r. split; [done|lia].
  - match goal with H : read_padded _ _ = Ok ?b |- _ =>
      pose proof (get_utf8_byte_length_bounds b) as Hcs end.
    case_match; inv_ok.
    + rewrite lengthZ_app. unfold lengthZ at 2. simpl. split; [lia|]. eauto.
    + apply IH in Hrun as (Hle & more & -> & _).
      * split; [done|]. exists (j :: more). rewrite <- app_assoc. eauto.
      * unfold to_size_t. apply Z.mod_pos_bound. lia.
      * rewrite to_size_t_small by lia. rewrite lengthZ_app. unfold lengthZ at 2.
        simpl. lia.
      * rewrite lengthZ_app. unfold lengthZ at 2. simpl. lia.
  - split; [done|]. exists []. rewrite app_nil_r. split; [done|lia].
Qed.

(** The fuel given to the inner loop is enough: more fuel does not change
    what it computes. *)
Lemma scan_fuel fuel fuel' chars raw_str i str_size start_i len_i j index :
  0 <= str_size < 2 ^ 31 → 0 <= j →
  (Z.to_nat (str_size - j) <= fuel)%nat → (Z.to_nat (str_size - j) <= fuel')%nat →
  FunctionSubstring.scan fuel chars raw_str i str_size start_i len_i j index
  = FunctionSubstring.scan fuel' chars raw_str i str_size start_i len_i j index.
Proof.
  intros Hsize. revert fuel' j index.
  induction fuel as [|fuel IH]; intros fuel' j index Hj Hfuel Hfuel';
    destruct fuel' as [|fuel']; simpl;
    rewrite (to_size_t_small str_size) by lia;
    destruct (j <? str_size) eqn:Hlt;
    try apply Z.ltb_lt in Hlt; try apply Z.ltb_ge in Hlt; try done; try lia.
  destruct (read_padded chars (raw_str + Z.of_nat i)) as [b| | |]; simpl; try done.
  pose proof (get_utf8_byte_length_bounds b) as Hcs.
  case_match; [done|].
  assert (to_size_t (j + get_utf8_byte_length b) = j + get_utf8_byte_length b) as Hj'
    by (apply to_size_t_small; lia).
  apply IH; rewrite Hj'; lia.
Qed.

Lemma string_at_Ok chars offsets i s :
  string_at chars offsets i = Ok s ↔
  ∃ o p, get offsets i = Ok o ∧ prev_offset offsets i = Ok p ∧
         slice chars p (o - p - 1) = Ok s.
Proof.
  unfold string_at. split.
  - intros H. inv_ok. eexists _, _. by rewrite get_Ok.
  - intros (o & p & -> & -> & Hs). done.
Qed.

Lemma string_at_size chars offsets i s :
  string_at chars offsets i = Ok s → lengthZ s <= INT32_MAX →
  row_size offsets i = Ok (lengthZ s).
Proof.
  intros (o & p & Ho & Hp & Hs)%string_at_Ok Hmax.
  apply row_size_Ok. exists o, p. repeat split; try done.
  apply slice_length in Hs. pose proof (lengthZ_nonneg s).
  unfold INT32_MAX in *. rewrite to_int32_small; lia.
Qed.

(** A read inside the column is a read of the column. *)
Lemma read_padded_getZ chars pos byte :
  getZ chars pos = Ok byte → read_padded chars pos = Ok byte.
Proof.
  unfold read_padded, getZ. intros Hbyte.
  destruct (decide (0 <= pos < lengthZ chars)).
  - by rewrite bool_decide_false by lia.
  - by rewrite bool_decide_false in Hbyte.
Qed.

(** A read at or behind the start of the column returns a byte. *)
Lemma read_padded_returns chars pos :
  0 <= pos → ∃ byte, read_padded chars pos = Ok byte.
Proof.
  intros Hpos. unfold read_padded, getZ, get.
  destruct (decide (lengthZ chars <= pos)).
  - rewrite bool_decide_true by done. eauto.
  - rewrite bool_decide_false, bool_decide_true by lia.
    destruct (lookup_lt_is_Some_2 chars (Z.to_nat pos)) as [byte ->]; [|eauto].
    unfold lengthZ in *. lia.
Qed.

(** The row of a column that can be read starts inside the column. *)
Lemma string_at_start chars offsets i (s : list Z) p :
  string_at chars offsets i = Ok s → prev_offset offsets i = Ok p → 0 <= p.
Proof.
  intros (o & p' & _ & Hp' & (Hp & _)%slice_Ok)%string_at_Ok Hpo.
  rewrite Hpo in Hp'. by injection Hp' as <-.
Qed.

(** The inner loop returns when the byte it decodes can be read. *)
Lemma scan_returns fuel chars raw_str i str_size start_i len_i byte : ∀ j index,
  0 <= str_size < 2 ^ 31 → 0 <= j →
  read_padded chars (raw_str + Z.of_nat i) = Ok byte →
  (Z.to_nat (str_size - j) <= fuel)%nat →
  ∃ index',
    FunctionSubstring.scan fuel chars raw_str i str_size start_i len_i j index = Ok index'.
Proof.
  induction fuel as [|fuel IH]; intros j index Hsize Hj Hbyte Hfuel; simpl;
    rewrite (to_size_t_small str_size) by lia;
    destruct (j <? str_size) eqn:Hlt;
    try apply Z.ltb_lt in Hlt; try apply Z.ltb_ge in Hlt; eauto; try lia.
  rewrite Hbyte, ret_bind. pose proof (get_utf8_byte_length_bounds byte) as Hcs.
  case_match; [eauto|].
  assert (to_size_t (j + get_utf8_byte_length byte) = j + get_utf8_byte_length byte) as Hj'
    by (apply to_size_t_small; lia).
  apply IH; rewrite ?Hj'; try done; lia.
Qed.

(** [substring(s, 1, length(s))] on a row that is not empty: whatever the
    inner loop indexed, the span that is resolved is the whole row. *)
Lemma vector_row_span_whole chars raw_str s more i null_map res_chars res_offsets :
  slice chars raw_str (lengthZ s) = Ok s → 0 < lengthZ s <= INT32_MAX →
  lengthZ (0 :: more) <= lengthZ s →
  FunctionSubstring.vector_row_span chars raw_str (lengthZ s) 1 (lengthZ s) (0 :: more) i
    (null_map, res_chars, res_offsets)
  = ('(res_chars, res_offsets) ← StringOP.push_value_string s i res_chars res_offsets;
     Ok (null_map, res_chars, res_offsets)).
Proof.
  intros Hs [Hpos Hmax] Hle. unfold INT32_MAX in Hmax.
  assert (0 < lengthZ (0 :: more)) as Hpos' by (unfold lengthZ; simpl; lia).
  unfold FunctionSubstring.vector_row_span.
  change (1 <? 0) with false. cbv iota.
  rewrite (to_size_t_small 1) by lia.
  rewrite (proj2 (Z.ltb_ge _ _)) by lia.
  replace (to_int32 (1 - 1)) with 0 by done.
  replace (to_size_t 0) with 0 by done.
  replace (getZ (0 :: more) 0) with (Ok (A := Z) 0).
  2: { unfold getZ. rewrite bool_decide_true by lia. done. }
  rewrite ret_bind.
  assert ((to_size_t (to_int32 (1 + lengthZ s)) <=? lengthZ (0 :: more)) = false) as Hno.
  { apply Z.leb_gt. destruct (decide (lengthZ s = 2 ^ 31 - 1)) as [Heq|Hneq].
    - rewrite Heq. change (to_size_t (to_int32 (1 + (2 ^ 31 - 1)))) with (2 ^ 64 - 2 ^ 31). lia.
    - rewrite to_int32_small, to_size_t_small by lia. lia. }
  rewrite Hno, ret_bind.
  rewrite Z.sub_0_r, !(to_size_t_small (lengthZ s)) by lia.
  rewrite (to_int32_small (lengthZ s)) by lia.
  rewrite (proj2 (Z.leb_le _ _)), (proj2 (Z.ltb_lt _ _)) by lia.
  cbv [andb]. rewrite Z.add_0_r, (to_size_t_small (lengthZ s)) by lia.
  by rewrite Hs, ret_bind.
Qed.

(** The head of the round of a row that holds [s], not empty, with
    [start = 1] and [len = length(s)]: both exits are passed and the inner
    loop runs. *)
Lemma vector_row_whole_scan chars offsets start len i s null_map res_chars res_offsets :
  string_at chars offsets i = Ok s → s ≠ [] → lengthZ s <= INT32_MAX →
  start !! i = Some 1 → len !! i = Some (lengthZ s) →
  ∃ p, prev_offset offsets i = Ok p ∧ slice chars p (lengthZ s) = Ok s ∧
    FunctionSubstring.vector_row chars offsets start len i (null_map, res_chars, res_offsets)
    = (index ← FunctionSubstring.scan (Z.to_nat (lengthZ s)) chars p i (lengthZ s) 1
                 (lengthZ s) 0 [];
       FunctionSubstring.vector_row_span chars p (lengthZ s) 1 (lengthZ s) index i
         (null_map, res_chars, res_offsets)).
Proof.
  intros (o & p & Ho & Hp & Hs)%string_at_Ok Hne Hmax Hstart Hlen.
  pose proof (slice_length _ _ _ _ Hs) as Hsize.
  assert (0 < lengthZ s) as Hpos.
  { destruct s; [done|]. unfold lengthZ. simpl. lia. }
  unfold INT32_MAX in Hmax. exists p. split; [done|]. rewrite <- Hsize in Hs.
  split; [done|].
  unfold FunctionSubstring.vector_row.
  apply get_Ok in Hstart. apply get_Ok in Hlen.
  rewrite Ho, ret_bind, Hp, ret_bind, Hstart, ret_bind. rewrite <- Hsize.
  rewrite (to_int32_small (lengthZ s)) by lia.
  rewrite (proj2 (Z.ltb_ge _ _)) by lia.
  rewrite Hlen, ret_bind.
  rewrite (proj2 (Z.leb_gt _ _)), (proj2 (Z.eqb_neq _ _)) by lia.
  done.
Qed.

Lemma vector_row_whole chars offsets start len i s null_map res_chars res_offsets st' :
  string_at chars offsets i = Ok s → s ≠ [] → lengthZ s <= INT32_MAX →
  start !! i = Some 1 → len !! i = Some (lengthZ s) →
  FunctionSubstring.vector_row chars offsets start len i (null_map, res_chars, res_offsets)
    = Ok st' →
  st' = (null_map, res_chars ++ s ++ [0],
         <[i := lengthZ (res_chars ++ s ++ [0])]> res_offsets).
Proof.
  intros Hs Hne Hmax Hstart Hlen Hrun.
  destruct (vector_row_whole_scan _ _ _ _ _ _ null_map res_chars res_offsets
              Hs Hne Hmax Hstart Hlen) as (p & Hp & Hslice & Heq).
  rewrite Heq in Hrun. clear Heq.
  assert (0 < lengthZ s) as Hpos.
  { destruct s; [done|]. unfold lengthZ. simpl. lia. }
  apply bind_Ok in Hrun as (index & Hscan & Hrun). unfold INT32_MAX in Hmax.
  apply scan_spec in Hscan as (Hle & more & Hindex & Hfirst);
    [| lia | lia | unfold lengthZ; simpl; lia | unfold lengthZ; simpl; lia].
  destruct Hfirst as [more' ->]; [lia|]. simpl in Hindex. subst index.
  rewrite vector_row_span_whole in Hrun by (done || (unfold INT32_MAX; lia)).
  inv_all. done.
Qed.

(** The round of such a row is a push of the whole row: the inner loop
    returns whatever byte it decodes, inside the column or behind it. *)
Lemma vector_row_whole_returns chars offsets start len i s
    null_map res_chars res_offsets :
  string_at chars offsets i = Ok s → s ≠ [] → lengthZ s <= INT32_MAX →
  start !! i = Some 1 → len !! i = Some (lengthZ s) →
  FunctionSubstring.vector_row chars offsets start len i (null_map, res_chars, res_offsets)
  = ('(res_chars, res_offsets) ← StringOP.push_value_string s i res_chars res_offsets;
     Ok (null_map, res_chars, res_offsets)).
Proof.
  intros Hs Hne Hmax Hstart Hlen.
  destruct (vector_row_whole_scan _ _ _ _ _ _ null_map res_chars res_offsets
              Hs Hne Hmax Hstart Hlen) as (p & Hp & Hslice & ->).
  destruct (read_padded_returns chars (p + Z.of_nat i)) as [byte Hbyte].
  { pose proof (string_at_start _ _ _ _ _ Hs Hp). lia. }
  assert (0 < lengthZ s) as Hpos.
  { destruct s; [done|]. unfold lengthZ. simpl. lia. }
  unfold INT32_MAX in Hmax.
  destruct (scan_returns (Z.to_nat (lengthZ s)) chars p i (lengthZ s) 1 (lengthZ s) byte 0 [])
    as [index Hscan]; [lia | lia | done | lia |].
  rewrite Hscan, ret_bind.
  apply scan_spec in Hscan as (Hle & more & Hindex & Hfirst);
    [| lia | lia | unfold lengthZ; simpl; lia | unfold lengthZ; simpl; lia].
  destruct Hfirst as [more' ->]; [lia|]. simpl in Hindex. subst index.
  by rewrite vector_row_span_whole by (done || (unfold INT32_MAX; lia)).
Qed.

(** C4, for the strings that are not empty.  For every row that holds a
    string [s] that is not empty, [substring(s, 1, length(s))] is [s]
    itself and is not null, [length(s)] being the size [str_size] that the
    code measures the row with.  The round of the row is a push of [s],
    whatever the row is in the batch and whatever byte its inner loop
    decodes, and in the output of the batch the row holds [s] and has the
    null flag the null maps of the inputs gave it ([0] for inputs that
    are not null). *)
Theorem substring_whole_string chars offsets start len i s :
  string_at chars offsets i = Ok s → s ≠ [] → lengthZ s <= INT32_MAX →
  start !! i = Some 1 → len !! i = Some (lengthZ s) →
  (∀ null_map res_chars res_offsets,
     FunctionSubstring.vector_row chars offsets start len i
       (null_map, res_chars, res_offsets)
     = ('(res_chars, res_offsets) ← StringOP.push_value_string s i res_chars res_offsets;
        Ok (null_map, res_chars, res_offsets))) ∧
  (∀ null_map out,
     FunctionSubstring.vector chars offsets start len null_map [] [] = Ok out →
     row_is (chars_of out) (offsets_of out) i s ∧
     string_at (chars_of out) (offsets_of out) i = Ok s ∧
     null_of out !! i = null_map !! i).
Proof.
  intros Hs Hne Hmax Hstart Hlen. split.
  { intros. by eapply vector_row_whole_returns. }
  intros null_map out Hrun.
  assert (i < length offsets)%nat as Hi.
  { apply string_at_Ok in Hs as (o & p & Ho%get_Ok & _). by eapply lookup_lt_Some. }
  destruct (vector_row_of_output _ _ _ _ _ _ _ Hrun Hi)
    as ([[nm rc] ro] & st' & payload & Hb & Hc & Hnm & Hnm' & Hrow).
  apply (vector_row_whole _ _ _ _ _ _ _ _ _ _ Hs Hne Hmax Hstart Hlen) in Hb as ->.
  apply app_payload_inv in Hc as <-.
  split; [done|]. split; [by apply row_is_string_at|].
  by rewrite Hnm', <- Hnm.
Qed.

(** C1.  The resolver does not decode the lead byte of each character of
    the row: the byte the inner loop decodes is [raw_str[i]], [i] being the
    index of the row in the batch.  In a batch of two rows that both hold
    three 3-byte characters (E4 B8 AD), [substring(s, 2, 1)] is the second
    character in row 0, but in row 1 the decoded byte is the continuation
    byte B8, every byte counts as a character, and the result is the one
    byte B8. *)
Theorem substring_multibyte_second_row :
  let s := [228; 184; 173; 228; 184; 173; 228; 184; 173] in
  let chars := s ++ [0] ++ s ++ [0] in
  string_at chars [10; 20] 0 = Ok s ∧
  string_at chars [10; 20] 1 = Ok s ∧
  ∃ out,
    FunctionSubstring.vector chars [10; 20] [2; 2] [1; 1] [0; 0] [] [] = Ok out ∧
    string_at (chars_of out) (offsets_of out) 0 = Ok [228; 184; 173] ∧
    string_at (chars_of out) (offsets_of out) 1 = Ok [184] ∧
    null_of out = [0; 0].
Proof.
  simpl. split; [reflexivity|]. split; [reflexivity|].
  eexists. split; [vm_compute; reflexivity|]. repeat split; reflexivity.
Qed.

(** ** [FunctionStringRepeat::vector_vector] *)

Lemma DCHECK_Ok dcheck_is_on cond :
  DCHECK dcheck_is_on cond = Ok () ↔ dcheck_is_on = false ∨ cond = true.
Proof.
  unfold DCHECK. destruct dcheck_is_on, cond; simpl; split; intros H;
    try done; try (by left); try (by right); by destruct H.
Qed.

Lemma DCHECK_true dcheck_is_on : DCHECK dcheck_is_on true = Ok ().
Proof. by destruct dcheck_is_on. Qed.

Lemma repeat_row_pushes dcheck_is_on data offsets repeats i st st' :
  FunctionStringRepeat.repeat_row dcheck_is_on data offsets repeats i st = Ok st' →
  (i < length st.2)%nat ∧
  ∃ payload, st'.1 = st.1 ++ payload ++ [0] ∧ st'.2 = <[i := lengthZ st'.1]> st.2.
Proof.
  destruct st as [rc ro], st' as [rc' ro']. unfold FunctionStringRepeat.repeat_row.
  intros H. inv_all. simpl. eauto.
Qed.

(** C10.  A row of [repeat(s, n)] with [n <= 0] is the empty string: the
    copy loop makes no round, so that the round of the row (whose size is
    not negative) is a push of the empty buffer, and in the output of the
    batch an empty payload, followed by its terminator, is recorded for the
    row. *)
Theorem repeat_nonpositive_is_empty dcheck_is_on data offsets repeats i n :
  (i < length offsets)%nat → repeats !! i = Some n → n <= 0 →
  (∀ size res_data res_offsets,
     row_size offsets i = Ok size → 0 <= size →
     FunctionStringRepeat.repeat_row dcheck_is_on data offsets repeats i
       (res_data, res_offsets)
     = StringOP.push_value_string [] i res_data res_offsets) ∧
  (∀ out,
     FunctionStringRepeat.vector_vector dcheck_is_on data offsets repeats [] [] = Ok out →
     row_is out.1 out.2 i [] ∧ string_at out.1 out.2 i = Ok []).
Proof.
  intros Hi Hn Hle. split.
  { intros size res_data res_offsets (o & p & Ho & Hp & ->)%row_size_Ok Hsize.
    unfold FunctionStringRepeat.repeat_row. apply get_Ok in Hn.
    rewrite Ho, ret_bind, Hp, ret_bind, Hn, ret_bind.
    unfold INT32_MAX. rewrite (proj2 (Z.leb_le _ _)) by nia.
    rewrite DCHECK_true, ret_bind.
    replace (Z.to_nat n) with 0%nat by lia. done. }
  unfold FunctionStringRepeat.vector_vector. intros out Hrun.
  destruct (push_loop_row fst snd _ (repeat_row_pushes _ _ _ _) _ _ _ i Hrun eq_refl Hi)
    as ([rc ro] & [rc' ro'] & payload & _ & Hb & _ & Hc & Hrow).
  assert (payload = []) as ->; [|split; [done | by apply row_is_string_at]].
  unfold FunctionStringRepeat.repeat_row in Hb. apply get_Ok in Hn.
  apply bind_Ok in Hb as (o & _ & Hb). apply bind_Ok in Hb as (p & _ & Hb).
  rewrite Hn in Hb. simpl in Hb.
  apply bind_Ok in Hb as (_ & _ & Hb).
  replace (Z.to_nat n) with 0%nat in Hb by lia. simpl in Hb.
  inv_all. simpl in Hc. symmetry. by eapply app_payload_inv.
Qed.

Lemma repeat_nonpositive_is_empty_witness :
  (∀ size res_data res_offsets,
     row_size [3; 5; 7] 2 = Ok size → 0 <= size →
     FunctionStringRepeat.repeat_row true [97; 98; 0; 120; 0; 121; 0] [3; 5; 7] [2; 0; -3] 2
       (res_data, res_offsets)
     = StringOP.push_value_string [] 2 res_data res_offsets) ∧
  (∀ out,
     FunctionStringRepeat.vector_vector true [97; 98; 0; 120; 0; 121; 0] [3; 5; 7] [2; 0; -3]
       [] [] = Ok out →
     row_is out.1 out.2 2 [] ∧ string_at out.1 out.2 2 = Ok []).
Proof.
  apply (repeat_nonpositive_is_empty true [97; 98; 0; 120; 0; 121; 0] [3; 5; 7] [2; 0; -3]
           2 (-3));
    [simpl; lia | reflexivity | lia].
Defined.

(** The guard of [repeat] against an overflowing output size is the
    assertion [DCHECK_LE(int64(size) * repeat, INT32_MAX)] in front of the
    copy loop.  In a build with assertions, a row whose [size * n] exceeds
    [INT32_MAX] stops the round at the assertion, whatever the state, so
    that nothing is copied for the row. *)
Lemma repeat_overflow_is_caught_by_dcheck data offsets repeats i size n :
  row_size offsets i = Ok size → repeats !! i = Some n → INT32_MAX < size * n →
  (∀ st, FunctionStringRepeat.repeat_row true data offsets repeats i st = CheckFailed) ∧
  (∀ res_data res_offsets out,
     FunctionStringRepeat.vector_vector true data offsets repeats res_data res_offsets
     ≠ Ok out).
Proof.
  intros Hsize Hn Hover.
  assert (∀ st, FunctionStringRepeat.repeat_row true data offsets repeats i st = CheckFailed)
    as Hrow.
  { intros [rc ro]. unfold FunctionStringRepeat.repeat_row.
    apply row_size_Ok in Hsize as (o & p & -> & -> & ->). apply get_Ok in Hn.
    rewrite Hn. simpl. unfold DCHECK.
    rewrite (proj2 (Z.leb_gt _ _)) by lia. done. }
  split; [done|]. intros res_data res_offsets out Hrun.
  unfold FunctionStringRepeat.vector_vector in Hrun.
  assert (i < length offsets)%nat as Hi.
  { apply row_size_Ok in Hsize as (o & p & Ho%get_Ok & _). by eapply lookup_lt_Some. }
  destruct (for_range_prefix _ _ _ _ _ i Hrun) as (st & _ & Hrest); [lia|].
  destruct (length offsets - i)%nat as [|m] eqn:Hm; [lia|]. simpl in Hrest.
  rewrite Hrow in Hrest. done.
Qed.

Lemma repeat_overflow_is_caught_by_dcheck_witness :
  (∀ st, FunctionStringRepeat.repeat_row true [97; 98; 0] [3] [1073741824] 0 st
         = CheckFailed) ∧
  (∀ res_data res_offsets out,
     FunctionStringRepeat.vector_vector true [97; 98; 0] [3] [1073741824] res_data res_offsets
     ≠ Ok out).
Proof.
  apply (repeat_overflow_is_caught_by_dcheck [97; 98; 0] [3] [1073741824] 0 2 1073741824);
    [vm_compute; reflexivity | reflexivity | vm_compute; reflexivity].
Defined.

(** The copy loop of [repeat]: [k] rounds append [k] copies of the row. *)
Lemma append_loop data raw_str size bytes a k buffer :
  slice data raw_str size = Ok bytes →
  for_range a k (FunctionStringRepeat.append data raw_str size) buffer
  = Ok (buffer ++ mjoin (replicate k bytes)).
Proof.
  intros Hs. revert a buffer. induction k as [|k IH]; intros a buffer.
  - simpl. by rewrite app_nil_r.
  - rewrite for_range_S.
    replace (FunctionStringRepeat.append data raw_str size a buffer)
      with (Ok (buffer ++ bytes))
      by (unfold FunctionStringRepeat.append; by rewrite Hs).
    change (for_range (Datatypes.S a) k (FunctionStringRepeat.append data raw_str size)
              (buffer ++ bytes) = Ok (buffer ++ bytes ++ mjoin (replicate k bytes))).
    rewrite IH. by rewrite <- app_assoc.
Qed.

(** A round of the row loop of [repeat] in a build without assertions. *)
Lemma repeat_row_release data offsets repeats i s n res_data res_offsets :
  string_at data offsets i = Ok s → lengthZ s <= INT32_MAX →
  repeats !! i = Some n → (i < length res_offsets)%nat →
  FunctionStringRepeat.repeat_row false data offsets repeats i (res_data, res_offsets)
  = Ok (res_data ++ mjoin (replicate (Z.to_nat n) s) ++ [0],
        <[i := lengthZ (res_data ++ mjoin (replicate (Z.to_nat n) s) ++ [0])]> res_offsets).
Proof.
  intros Hs Hmax Hn Hi.
  pose proof (string_at_size _ _ _ _ Hs Hmax) as Hsize.
  apply row_size_Ok in Hsize as (o & p & Ho & Hp & Hsize).
  apply string_at_Ok in Hs as (o' & p' & Ho' & Hp' & Hs).
  rewrite Ho in Ho'. rewrite Hp in Hp'. injection Ho' as <-. injection Hp' as <-.
  unfold FunctionStringRepeat.repeat_row. apply get_Ok in Hn.
  rewrite Ho, Hp, Hn. simpl. rewrite <- Hsize.
  pose proof (slice_length _ _ _ _ Hs) as Hlen. rewrite <- Hlen in Hs.
  rewrite (append_loop _ _ _ _ _ _ _ Hs). simpl.
  unfold StringOP.push_value_string, set_at. rewrite bool_decide_true by done.
  simpl. by rewrite <- !app_assoc.
Qed.

Lemma length_mjoin_replicate (k : nat) (bytes : list Z) :
  lengthZ (mjoin (replicate k bytes)) = Z.of_nat k * lengthZ bytes.
Proof.
  induction k as [|k IH]; [done|].
  change (mjoin (replicate (Datatypes.S k) bytes)) with (bytes ++ mjoin (replicate k bytes)).
  rewrite lengthZ_app, IH. lia.
Qed.

(** C3.  A row of [repeat] whose output size [size * n] overflows a 32-bit
    count is to be rejected before anything is allocated, and the code
    says so itself: "assert size * repeat won't exceed", followed by
    [DCHECK_LE(int64(size) * repeat, INT32_MAX)].  The assertion is the
    only guard, and a build without assertions ([NDEBUG]) compiles it
    out: there [repeat("ab", 2^30)], whose size [2 * 2^30] exceeds
    [INT32_MAX], is not rejected and returns a column whose one row has
    [2^31] bytes. *)
Theorem repeat_overflow_not_rejected_without_dcheck :
  INT32_MAX < 2 * 1073741824 ∧
  string_at [97; 98; 0] [3] 0 = Ok [97; 98] ∧
  ∃ out,
    FunctionStringRepeat.vector_vector false [97; 98; 0] [3] [1073741824] [] [] = Ok out ∧
    out.2 = [2147483649].
Proof.
  split; [vm_compute; reflexivity|]. split; [reflexivity|].
  unfold FunctionStringRepeat.vector_vector.
  change (length [3]) with 1%nat. change (resize [] 1) with [0].
  unfold for_range.
  rewrite (repeat_row_release [97; 98; 0] [3] [1073741824] 0 [97; 98] 1073741824 [] [0]);
    [| reflexivity | vm_compute; discriminate | reflexivity | simpl; lia].
  eexists. split; [reflexivity|].
  cbn [snd]. rewrite app_nil_l, lengthZ_app, length_mjoin_replicate.
  rewrite Z2Nat.id by lia. reflexivity.
Qed.

(** ** [FunctionNullOrEmpty::executeImpl] *)

Lemma prev_offset_defined offsets i :
  (i <= length offsets)%nat → ∃ p, prev_offset offsets i = Ok p.
Proof.
  intros Hi. destruct i as [|i]; simpl; [by eexists|].
  destruct (lookup_lt_is_Some_2 offsets i) as [o Ho]; [lia|].
  exists o. by apply get_Ok.
Qed.

Lemma row_size_defined offsets i :
  (i < length offsets)%nat → ∃ size, row_size offsets i = Ok size.
Proof.
  intros Hi. destruct (lookup_lt_is_Some_2 offsets i) as [o Ho]; [lia|].
  destruct (prev_offset_defined offsets i) as [p Hp]; [lia|].
  eexists. apply row_size_Ok. exists o, p. by rewrite get_Ok.
Qed.

Lemma update_null_map_zeros n null_map :
  (n <= length null_map)%nat →
  update_null_map (replicate n 0) null_map = Ok (take n null_map).
Proof.
  intros Hn. unfold update_null_map. rewrite length_replicate.
  rewrite bool_decide_true by done. f_equal.
  revert null_map Hn. induction n as [|n IH]; intros [|x l] Hn; simpl in *; try done; try lia.
  rewrite IH by lia. done.
Qed.

Lemma set_column_Ok block pos col e :
  block !! pos = Some e →
  BlockOps.set_column block pos col
  = Ok (<[pos := mkColumn col (type e) (name e)]> block).
Proof.
  intros He. unfold BlockOps.set_column, BlockOps.getByPosition, get. rewrite He. simpl.
  unfold set_at. rewrite bool_decide_true; [done|]. by eapply lookup_lt_Some.
Qed.

(** C9.  [null_or_empty] writes a column of [UInt8] that is not nullable
    and has, for every row, a value that is true (not zero) iff the row is
    null or its string has zero length; a null row gives the value true.
    With null flags that are [0] or [1] the value is [1] for true and [0]
    for false. *)
Theorem null_or_empty_rows block arguments a result_pos n e e_res chars offsets :
  arguments !! 0%nat = Some a → block !! a = Some e →
  block !! result_pos = Some e_res →
  nested_column (column e) = ColumnString chars offsets →
  (n <= length offsets)%nat →
  (∀ i, (i < n)%nat → ∃ flag, null_flag (column e) i = Ok flag) →
  ∃ data,
    FunctionNullOrEmpty.executeImpl block arguments result_pos n
    = Ok (<[result_pos := mkColumn (ColumnUInt8 data) (type e_res) (name e_res)]> block) ∧
    length data = n ∧
    ∀ i, (i < n)%nat →
      ∃ flag size v,
        null_flag (column e) i = Ok flag ∧ row_size offsets i = Ok size ∧
        data !! i = Some v ∧
        (v ≠ 0 ↔ flag ≠ 0 ∨ size = 0) ∧
        (flag = 0 ∨ flag = 1 → v = if bool_decide (flag = 1 ∨ size = 0) then 1 else 0).
Proof.
  intros Ha He Hres Hnested Hlen Hflags.
  pose (size_of := fun i => match row_size offsets i with Ok size => size | _ => 0 end).
  pose (f := fun (i : nat) (r : Z) => Z.lor r (if size_of i =? 0 then 1 else 0)).
  assert (∀ i, (i < n)%nat → row_size offsets i = Ok (size_of i)) as Hsize.
  { intros i Hi. unfold size_of.
    destruct (row_size_defined offsets i) as [size ->]; [lia|done]. }
  assert (∀ res_map, length res_map = n →
    for_range 0 n (FunctionNullOrEmpty.row offsets) res_map = Ok (imap f res_map)) as Hloop.
  { intros res_map Hlen'. apply for_range_pointwise; [|done].
    intros i t x Hx Ht. unfold FunctionNullOrEmpty.row.
    assert (i < n)%nat as Hi by (rewrite <- Ht; by eapply lookup_lt_Some).
    pose proof (Hsize i Hi) as Hs. apply row_size_Ok in Hs as (o & p & -> & -> & Hs).
    simpl. unfold get. rewrite Hx. simpl. unfold set_at.
    rewrite bool_decide_true by lia. unfold f. by rewrite Hs. }
  assert (∀ flag size,
    (Z.lor flag (if size =? 0 then 1 else 0) ≠ 0 ↔ flag ≠ 0 ∨ size = 0) ∧
    (flag = 0 ∨ flag = 1 →
     Z.lor flag (if size =? 0 then 1 else 0)
     = if bool_decide (flag = 1 ∨ size = 0) then 1 else 0)) as Hval.
  { intros flag size. split.
    - rewrite Z.lor_eq_0_iff. destruct (Z.eqb_spec size 0); lia.
    - intros [-> | ->]; destruct (Z.eqb_spec size 0); case_bool_decide; simpl; try done; lia. }
  apply get_Ok in Ha. apply get_Ok in He.
  unfold FunctionNullOrEmpty.executeImpl, BlockOps.getByPosition.
  rewrite Ha. simpl. rewrite He. simpl.
  destruct (column e) as [chars' offsets' | | | nested nm | ] eqn:Hcol;
    simpl in Hnested; try discriminate.
  - injection Hnested as -> ->. simpl.
    rewrite Hloop by apply length_replicate. simpl.
    rewrite (set_column_Ok _ _ _ _ Hres).
    eexists. split; [done|]. split; [by rewrite length_imap, length_replicate|].
    intros i Hi. exists 0, (size_of i), (f i 0). split; [done|].
    split; [by apply Hsize|]. split; [|apply Hval].
    rewrite list_lookup_imap, lookup_replicate_2 by done. done.
  - subst nested.
    assert (n <= length nm)%nat as Hnm.
    { destruct n as [|n]; [lia|]. destruct (Hflags n) as [flag Hflag]; [lia|].
      simpl in Hflag. apply get_Ok, lookup_lt_Some in Hflag. lia. }
    rewrite update_null_map_zeros by done. simpl.
    rewrite Hloop by (rewrite length_take; lia). simpl.
    rewrite (set_column_Ok _ _ _ _ Hres).
    eexists. split; [done|]. split; [rewrite length_imap, length_take; lia|].
    intros i Hi. destruct (lookup_lt_is_Some_2 nm i) as [flag Hflag]; [lia|].
    exists flag, (size_of i), (f i flag). simpl. split; [by apply get_Ok|].
    split; [by apply Hsize|]. split; [|apply Hval].
    rewrite list_lookup_imap, lookup_take_lt by done. rewrite Hflag. done.
Qed.

Lemma null_or_empty_rows_witness :
  let input := ColumnNullable (ColumnString [97; 0; 0; 98; 0] [2; 3; 5]) [0; 0; 1] in
  let block := [mkColumn input (DataTypeNullable DataTypeString) "s";
                mkColumn (ColumnUInt8 []) DataTypeUInt8 "result"] in
  ∃ data,
    FunctionNullOrEmpty.executeImpl block [0%nat] 1 3
    = Ok (<[1%nat := mkColumn (ColumnUInt8 data) DataTypeUInt8 "result"]> block) ∧
    length data = 3%nat ∧
    ∀ i, (i < 3)%nat →
      ∃ flag size v,
        null_flag input i = Ok flag ∧ row_size [2; 3; 5] i = Ok size ∧
        data !! i = Some v ∧
        (v ≠ 0 ↔ flag ≠ 0 ∨ size = 0) ∧
        (flag = 0 ∨ flag = 1 → v = if bool_decide (flag = 1 ∨ size = 0) then 1 else 0).
Proof.
  intros input block.
  apply (null_or_empty_rows block [0%nat] 0 1 3
           (mkColumn input (DataTypeNullable DataTypeString) "s")
           (mkColumn (ColumnUInt8 []) DataTypeUInt8 "result")
           [97; 0; 0; 98; 0] [2; 3; 5]);
    [reflexivity | reflexivity | reflexivity | reflexivity | simpl; lia |].
  intros i Hi. destruct i as [|[|[|i]]]; [eexists; reflexivity.. | lia].
Defined.

(** ** [FunctionStringConcatWs::executeImpl] *)

Lemma concat_ws_normalize_length block arguments const_null_map i st st' :
  FunctionStringConcatWs.normalize_argument block arguments const_null_map i st = Ok st' →
  (i < length st.1.1.1)%nat ∧ length st'.1.1.1 = length st.1.1.1.
Proof.
  destruct st as [[[acs ol] cl] nl]. unfold FunctionStringConcatWs.normalize_argument.
  intros H. inv_all; simpl; rewrite ?length_insert in *; done.
Qed.

(** [argument_columns] is declared with three elements and round [i] of
    the loop over the arguments assigns [argument_columns[i]]: a call with
    more than three arguments writes outside of the array and never
    returns a column. *)
Lemma concat_ws_more_than_three_arguments dcheck_is_on block arguments result_pos n block' :
  (3 < length arguments)%nat →
  FunctionStringConcatWs.executeImpl dcheck_is_on block arguments result_pos n ≠ Ok block'.
Proof.
  intros Hlen Hrun. unfold FunctionStringConcatWs.executeImpl in Hrun.
  apply bind_Ok in Hrun as (_ & _ & Hrun). apply bind_Ok in Hrun as (st & Hloop & _).
  destruct (for_range_prefix _ _ _ _ _ 3 Hloop) as (st3 & Hpre & Hrest); [lia|].
  apply (for_range_invariant (fun _ t => length t.1.1.1 = 3%nat)) in Hpre; [|..].
  - destruct (length arguments - 3)%nat as [|m] eqn:Hm; [lia|]. simpl in Hrest.
    apply bind_Ok in Hrest as (st4 & Hstep & _).
    apply concat_ws_normalize_length in Hstep as [Hlt _]. lia.
  - intros k t t' _ Ht Hstep. apply concat_ws_normalize_length in Hstep as [_ ->]. done.
  - done.
Qed.

(** C8.  The rows of [concat_ws] are computed as the specification says
    (the row is null iff the separator is null, the arguments that are null
    are skipped and the other ones are joined with the separator), which
    the calls with a separator and two arguments below show; but the array
    [argument_columns] has three elements, and [concat_ws(",", "a", NULL,
    "b")], with four arguments, writes [argument_columns[3]] outside of
    it: the call is undefined instead of giving ["a,b"]. *)
Theorem concat_ws_four_arguments_undefined :
  let str (b : Z) := ColumnString [b; 0] [2] in
  let col c := mkColumn c (DataTypeNullable DataTypeString) "arg" in
  let null_str := ColumnNullable (ColumnString [0] [1]) [1] in
  let out (b : list Z) (flag : Z) :=
    ColumnNullable (ColumnString (b ++ [0]) [lengthZ b + 1]) [flag] in
  (* concat_ws(",", "a", "b") = "a,b" *)
  result_column
    (FunctionStringConcatWs.executeImpl true
       [col (str 44); col (str 97); col (str 98); col (ColumnUInt8 [])]
       [0; 1; 2]%nat 3 1) 3
  = Ok (out [97; 44; 98] 0) ∧
  (* concat_ws(",", NULL, "b") = "b" *)
  result_column
    (FunctionStringConcatWs.executeImpl true
       [col (str 44); col null_str; col (str 98); col (ColumnUInt8 [])]
       [0; 1; 2]%nat 3 1) 3
  = Ok (out [98] 0) ∧
  (* concat_ws(NULL, "a", "b") IS NULL *)
  result_column
    (FunctionStringConcatWs.executeImpl true
       [col null_str; col (str 97); col (str 98); col (ColumnUInt8 [])]
       [0; 1; 2]%nat 3 1) 3
  = Ok (out [] 1) ∧
  (* concat_ws(",", "a", NULL, "b") *)
  ∀ dcheck_is_on,
    FunctionStringConcatWs.executeImpl dcheck_is_on
      [col (str 44); col (str 97); col null_str; col (str 98); col (ColumnUInt8 [])]
      [0; 1; 2; 3]%nat 4 1
    = Undefined.
Proof.
  simpl. repeat split; try reflexivity. intros []; reflexivity.
Qed.

(** ** [substring_execute], [FunctionLeft] and [FunctionRight] *)

Lemma for_range_ext {S} (body body' : nat → S → result S) a n s :
  (∀ k t, (a <= k < a + n)%nat → body k t = body' k t) →
  for_range a n body s = for_range a n body' s.
Proof.
  revert a s. induction n as [|n IH]; intros a s Hext; [done|].
  rewrite !for_range_S. rewrite Hext by lia.
  destruct (body' a s) as [s'| | |]; try done.
  apply IH. intros k t Hk. apply Hext. lia.
Qed.

Lemma result_column_set_column block pos col e :
  block !! pos = Some e →
  result_column (BlockOps.set_column block pos col) pos = Ok col.
Proof.
  intros He. rewrite (set_column_Ok _ _ _ _ He). unfold result_column. simpl.
  unfold BlockOps.getByPosition, get. rewrite list_lookup_insert_eq; [done|].
  by eapply lookup_lt_Some.
Qed.

Lemma result_column_bind {A} (m : result A) (f : A → result Block) pos :
  result_column (m ≫= f) pos = m ≫= (fun x => result_column (f x) pos).
Proof. by destruct m. Qed.

(** The column [substring_execute] writes depends on the block through the
    three argument columns only. *)
Lemma substring_execute_columns dcheck_is_on block a0 a1 a2 result_pos n e0 e1 e2 e_res :
  block !! a0 = Some e0 → block !! a1 = Some e1 → block !! a2 = Some e2 →
  block !! result_pos = Some e_res →
  result_column
    (FunctionSubstring.substring_execute dcheck_is_on block [a0; a1; a2] result_pos n)
    result_pos
  = substring_columns dcheck_is_on (column e0) (column e1) (column e2) n.
Proof.
  intros H0 H1 H2 Hres. unfold substring_columns, FunctionSubstring.substring_execute.
  change (bool_decide (length [a0; a1; a2] = 3%nat)) with true.
  change (bool_decide (length [0%nat; 1%nat; 2%nat] = 3%nat)) with true.
  rewrite DCHECK_true. rewrite !ret_bind.
  match goal with
  | |- result_column (for_range 0 3 ?b ?st ≫= _) _ = result_column (for_range 0 3 ?b' _ ≫= _) _ =>
      rewrite (for_range_ext b b' 0 3 st)
  end.
  - rewrite !result_column_bind.
    destruct (for_range 0 3 _ _) as [[acs nm]| | |]; try done. rewrite !ret_bind.
    rewrite !result_column_bind.
    destruct (FunctionSubstring.arg_ColumnString acs 0) as [[chars offsets]| | |]; try done.
    rewrite !ret_bind. rewrite !result_column_bind.
    destruct (FunctionSubstring.arg_ColumnInt32 acs 1) as [start| | |]; try done.
    rewrite !ret_bind. rewrite !result_column_bind.
    destruct (FunctionSubstring.arg_ColumnInt32 acs 2) as [len| | |]; try done.
    rewrite !ret_bind. rewrite !result_column_bind.
    destruct (FunctionSubstring.vector _ _ _ _ _ _ _) as [[[nm' rc] ro]| | |]; try done.
    rewrite !ret_bind. rewrite (result_column_set_column _ _ _ _ Hres).
    by erewrite (result_column_set_column _ 3%nat) by reflexivity.
  - intros k [acs nm] Hk. unfold FunctionSubstring.normalize_argument.
    destruct k as [|[|[|k]]]; [| | |lia]; simpl;
      unfold BlockOps.getByPosition, get; simpl; rewrite ?H0, ?H1, ?H2; done.
Qed.

(** A constant column in the position argument can be given in full. *)
Lemma substring_columns_pos_full dcheck_is_on s pos pos' len n :
  convertToFullColumnIfConst pos = Ok pos' →
  convertToFullColumnIfConst pos' = Ok pos' →
  substring_columns dcheck_is_on s pos len n
  = substring_columns dcheck_is_on s pos' len n.
Proof.
  intros Hpos Hpos'. unfold substring_columns, FunctionSubstring.substring_execute.
  rewrite !result_column_bind. rewrite !DCHECK_true, !ret_bind.
  match goal with
  | |- for_range 0 3 ?b ?st ≫= _ = for_range 0 3 ?b' _ ≫= _ =>
      rewrite (for_range_ext b b' 0 3 st)
  end.
  - rewrite ?result_column_bind.
    destruct (for_range 0 3 _ _) as [[acs nm]| | |]; try done. rewrite !ret_bind.
    rewrite ?result_column_bind.
    destruct (FunctionSubstring.arg_ColumnString acs 0) as [[chars offsets]| | |]; try done.
    rewrite !ret_bind. rewrite ?result_column_bind.
    destruct (FunctionSubstring.arg_ColumnInt32 acs 1) as [start| | |]; try done.
    rewrite !ret_bind. rewrite ?result_column_bind.
    destruct (FunctionSubstring.arg_ColumnInt32 acs 2) as [len'| | |]; try done.
    rewrite !ret_bind. rewrite ?result_column_bind.
    destruct (FunctionSubstring.vector _ _ _ _ _ _ _) as [[[nm' rc] ro]| | |]; done.
  - intros k [acs nm] Hk. unfold FunctionSubstring.normalize_argument.
    destruct k as [|[|[|k]]]; [| | |lia]; simpl; try done.
    by rewrite Hpos, Hpos'.
Qed.

Lemma left_is_substring dcheck_is_on block a0 a1 result_pos n e0 e1 e_res :
  block !! a0 = Some e0 → block !! a1 = Some e1 → block !! result_pos = Some e_res →
  result_column (FunctionLeft.executeImpl dcheck_is_on block [a0; a1] result_pos n)
    result_pos
  = left_as_substring dcheck_is_on (column e0) (column e1) n.
Proof.
  intros H0 H1 Hres. unfold FunctionLeft.executeImpl, left_as_substring.
  change (convertToFullColumnIfConst (createColumnConst n 1))
    with (Ok (ColumnInt32 (replicate n 1))).
  rewrite ret_bind. change (get [a0; a1] 0) with (Ok a0). rewrite ret_bind.
  change (get [a0; a1] 1) with (Ok a1). rewrite ret_bind.
  unfold BlockOps.insert, BlockOps.columns.
  rewrite (substring_execute_columns _ _ _ _ _ _ _ e0
             (mkColumn (ColumnInt32 (replicate n 1)) DataTypeInt32 "const 1") e1 e_res).
  - simpl column. symmetry. by apply substring_columns_pos_full.
  - by apply lookup_app_l_Some.
  - by apply list_lookup_middle.
  - by apply lookup_app_l_Some.
  - by apply lookup_app_l_Some.
Qed.

Lemma imap_replicate_seq {A B} (g : nat → B) (x : A) n :
  imap (fun i _ => g i) (replicate n x) = g <$> seq 0 n.
Proof.
  apply list_eq. intros i. rewrite list_lookup_imap, list_lookup_fmap.
  destruct (decide (i < n)%nat).
  - rewrite lookup_replicate_2, lookup_seq_lt by done. done.
  - rewrite (proj1 (lookup_replicate_None n x i)), lookup_seq_ge by lia. done.
Qed.

Lemma neg_int32_Ok z : z ≠ - 2 ^ 31 → FunctionRight.neg_int32 z = Ok (to_int32 (- z)).
Proof. intros Hz. unfold FunctionRight.neg_int32. by rewrite bool_decide_false. Qed.

Lemma neg_int32_min z r : FunctionRight.neg_int32 z = Ok r → z ≠ - 2 ^ 31.
Proof. unfold FunctionRight.neg_int32. by case_bool_decide. Qed.

Lemma right_is_substring dcheck_is_on block a0 a1 result_pos n e0 e1 e_res
    chars offsets pos_data :
  block !! a0 = Some e0 → block !! a1 = Some e1 → block !! result_pos = Some e_res →
  FunctionRight.getNestedColumnIfNull block a0 = Ok (ColumnString chars offsets) →
  convertToFullColumnIfConst (column e1) = Ok (ColumnInt32 pos_data) →
  (n <= length pos_data)%nat →
  (∀ i, (i < n)%nat → ∃ s, string_at chars offsets i = Ok s ∧ lengthZ s <= INT32_MAX) →
  (∀ i, (i < n)%nat → pos_data !! i ≠ Some (- 2 ^ 31)) →
  result_column (FunctionRight.executeImpl dcheck_is_on block [a0; a1] result_pos n)
    result_pos
  = right_as_substring lengthZ dcheck_is_on (column e0) chars offsets pos_data n.
Proof.
  intros H0 H1 Hres Hstr Hpos Hn Hrows Hmin.
  unfold FunctionRight.executeImpl, right_as_substring.
  change (get [a0; a1] 0) with (Ok a0). rewrite ret_bind. rewrite Hstr, ret_bind.
  change (assert_cast_ColumnString (ColumnString chars offsets)) with (Ok (chars, offsets)).
  rewrite ret_bind. change (get [a0; a1] 1) with (Ok a1). rewrite ret_bind.
  assert (FunctionRight.getNestedColumnIfNull block a1 = Ok (ColumnInt32 pos_data)) as ->.
  { unfold FunctionRight.getNestedColumnIfNull, BlockOps.getByPosition, get.
    rewrite H1. rewrite ret_bind. by rewrite Hpos. }
  rewrite ret_bind.
  change (assert_cast_ColumnInt32 (ColumnInt32 pos_data)) with (Ok pos_data).
  rewrite ret_bind.
  set (strlen := fun i => lengthZ (row_or_empty chars offsets i)).
  set (index := fun i => Z.max (to_int32 (- default 0 (pos_data !! i))) (to_int32 (- strlen i))).
  rewrite (for_range_pointwise (fun i _ => strlen i)); [| |apply length_replicate].
  2: { intros i t x Hx Ht. unfold FunctionRight.strlen_row.
       assert (i < n)%nat as Hi by (rewrite <- Ht; by eapply lookup_lt_Some).
       destruct (Hrows i Hi) as (s & Hs & Hmax).
       pose proof (string_at_size _ _ _ _ Hs Hmax) as Hsize.
       apply row_size_Ok in Hsize as (o & p & -> & -> & Hsize).
       rewrite !ret_bind. unfold set_at. rewrite bool_decide_true by lia.
       unfold strlen, row_or_empty. by rewrite Hs, Hsize. }
  rewrite ret_bind, imap_replicate_seq.
  rewrite (for_range_pointwise (fun i _ => index i)); [| |apply length_replicate].
  2: { intros i t x Hx Ht. unfold FunctionRight.index_row.
       assert (i < n)%nat as Hi by (rewrite <- Ht; by eapply lookup_lt_Some).
       destruct (lookup_lt_is_Some_2 pos_data i) as [pos Hposi]; [lia|].
       unfold get. rewrite Hposi, ret_bind.
       rewrite list_lookup_fmap, lookup_seq_lt by done. cbn [fmap option_fmap option_map].
       rewrite ret_bind. pose proof (lengthZ_nonneg (row_or_empty chars offsets i)).
       rewrite (neg_int32_Ok pos), ret_bind by (intros ->; by apply (Hmin i Hi)).
       rewrite (neg_int32_Ok (strlen (0 + i)%nat)), ret_bind by (unfold strlen; simpl; lia).
       unfold set_at. rewrite bool_decide_true by lia.
       unfold index. by rewrite Hposi. }
  rewrite ret_bind, imap_replicate_seq.
  unfold BlockOps.insert, BlockOps.columns.
  rewrite (substring_execute_columns _ _ _ _ _ _ _ e0
             (mkColumn (ColumnInt32 (index <$> seq 0 n)) DataTypeInt32 "index")
             (mkColumn (ColumnInt32 (strlen <$> seq 0 n)) DataTypeInt32 "strlen") e_res);
    [done|..].
  - apply lookup_app_l_Some. by apply lookup_app_l_Some.
  - apply lookup_app_l_Some. by apply list_lookup_middle.
  - apply list_lookup_middle. rewrite length_app. simpl. lia.
  - apply lookup_app_l_Some. by apply lookup_app_l_Some.
Qed.

(** What the two functions compute.  [left(s, n)] is [substring(s, 1, n)],
    and [right(s, n)] is [substring(s, max(-n, -len(s)), len(s))] with
    [len(s)] the number of bytes of the row's string, not its number of
    characters; both build the argument columns and run
    [substring_execute].  The column [n] is taken here without a null map
    and without the count [INT32_MIN], which [right] cannot negate. *)
Lemma left_right_are_substring dcheck_is_on block a0 a1 result_pos n e0 e1 e_res
    chars offsets pos_data :
  block !! a0 = Some e0 → block !! a1 = Some e1 → block !! result_pos = Some e_res →
  FunctionRight.getNestedColumnIfNull block a0 = Ok (ColumnString chars offsets) →
  convertToFullColumnIfConst (column e1) = Ok (ColumnInt32 pos_data) →
  (n <= length pos_data)%nat →
  (∀ i, (i < n)%nat → ∃ s, string_at chars offsets i = Ok s ∧ lengthZ s <= INT32_MAX) →
  (∀ i, (i < n)%nat → pos_data !! i ≠ Some (- 2 ^ 31)) →
  result_column (FunctionLeft.executeImpl dcheck_is_on block [a0; a1] result_pos n)
    result_pos
  = left_as_substring dcheck_is_on (column e0) (column e1) n ∧
  result_column (FunctionRight.executeImpl dcheck_is_on block [a0; a1] result_pos n)
    result_pos
  = right_as_substring lengthZ dcheck_is_on (column e0) chars offsets pos_data n.
Proof.
  intros H0 H1 Hres Hstr Hpos Hn Hrows Hmin. split.
  - by eapply left_is_substring.
  - by eapply right_is_substring.
Qed.

(** C2.  [right(s, n)] is to be [substring(s, max(-n, -char_count(s)),
    char_count(s))], and [FunctionRight] clamps the count with the number
    of bytes of the row instead of its number of characters.  On a string
    that has a character of several bytes the two differ: for the one
    character E4 B8 AD and [n = 3], [right] computes
    [substring(s, max(-3, -3), 3)], which is NULL, while
    [substring(s, max(-3, -char_count(s)), char_count(s))] is
    [substring(s, -1, 1)], the string itself. *)
Theorem right_is_not_substring_by_char_count :
  let s := ColumnString [228; 184; 173; 0] [4] in
  let e0 := mkColumn s DataTypeString "s" in
  let e1 := mkColumn (ColumnInt32 [3]) DataTypeInt32 "n" in
  let e_res := mkColumn (ColumnUInt8 []) (DataTypeNullable DataTypeString) "result" in
  char_count [228; 184; 173] = 1 ∧
  result_column (FunctionRight.executeImpl true [e0; e1; e_res] [0; 1]%nat 2 1) 2
  = Ok (ColumnNullable (ColumnString [0] [1]) [1]) ∧
  right_as_substring char_count true s [228; 184; 173; 0] [4] [3] 1
  = Ok (ColumnNullable (ColumnString [228; 184; 173; 0] [4]) [0]) ∧
  result_column (FunctionRight.executeImpl true [e0; e1; e_res] [0; 1]%nat 2 1) 2
  ≠ right_as_substring char_count true s [228; 184; 173; 0] [4] [3] 1.
Proof. simpl. repeat split; try reflexivity. discriminate. Qed.

(** [right] reads the values of a nullable column [n] and drops its null
    map, while [left] hands the column to [substring_execute], which merges
    the null map: with [n] NULL, [left(s, n)] is NULL and [right(s, n)] is
    not. *)
Lemma right_drops_null_map_of_count :
  let s := ColumnString [97; 98; 0] [3] in
  let e0 := mkColumn s DataTypeString "s" in
  let e1 := mkColumn (ColumnNullable (ColumnInt32 [1]) [1]) (DataTypeNullable DataTypeInt32) "n" in
  let e_res := mkColumn (ColumnUInt8 []) (DataTypeNullable DataTypeString) "result" in
  result_column (FunctionLeft.executeImpl true [e0; e1; e_res] [0; 1]%nat 2 1) 2
  = Ok (ColumnNullable (ColumnString [97; 0] [2]) [1]) ∧
  result_column (FunctionRight.executeImpl true [e0; e1; e_res] [0; 1]%nat 2 1) 2
  = Ok (ColumnNullable (ColumnString [98; 0] [2]) [0]).
Proof. simpl. split; reflexivity. Qed.

(** ** The encoding of rows *)

Lemma bytes_of_app rows1 rows2 : bytes_of (rows1 ++ rows2) = bytes_of rows1 ++ bytes_of rows2.
Proof. unfold bytes_of. by rewrite fmap_app, join_app. Qed.

Lemma bytes_of_snoc rows r : bytes_of (rows ++ [r]) = bytes_of rows ++ r ++ [0].
Proof. rewrite bytes_of_app. unfold bytes_of at 2. simpl. by rewrite app_nil_r. Qed.

Lemma bytes_of_take_S rows i s :
  rows !! i = Some s → bytes_of (take (Datatypes.S i) rows) = bytes_of (take i rows) ++ s ++ [0].
Proof. intros Hs. by rewrite (take_S_r _ _ _ Hs), bytes_of_snoc. Qed.

Lemma lengthZ_bytes_of_take rows i j :
  (i <= j)%nat → lengthZ (bytes_of (take i rows)) <= lengthZ (bytes_of (take j rows)).
Proof.
  intros Hij. replace (take i rows) with (take i (take j rows))
    by (rewrite take_take; f_equal; lia).
  rewrite <- (take_drop i (take j rows)) at 2. rewrite bytes_of_app, lengthZ_app.
  pose proof (lengthZ_nonneg (bytes_of (drop i (take j rows)))). lia.
Qed.

Lemma length_ends rows : length (ends rows) = length rows.
Proof. unfold ends. by rewrite length_fmap, length_seq. Qed.

Lemma ends_lookup rows i :
  (i < length rows)%nat →
  ends rows !! i = Some (lengthZ (bytes_of (take (Datatypes.S i) rows))).
Proof. intros Hi. unfold ends. rewrite list_lookup_fmap, lookup_seq_lt by done. done. Qed.

Lemma prev_offset_ends rows i :
  (i <= length rows)%nat →
  prev_offset (ends rows) i = Ok (lengthZ (bytes_of (take i rows))).
Proof.
  intros Hi. destruct i as [|i]; [done|]. simpl. apply get_Ok. apply ends_lookup. lia.
Qed.

Lemma ends_snoc rows r :
  ends (rows ++ [r]) = ends rows ++ [lengthZ (bytes_of (rows ++ [r]))].
Proof.
  apply list_eq. intros i.
  destruct (decide (i < length rows)%nat) as [Hi|Hi].
  - rewrite lookup_app_l by (rewrite length_ends; lia).
    rewrite !ends_lookup by (rewrite ?length_app; simpl; lia).
    by rewrite take_app_le by lia.
  - destruct (decide (i = length rows)) as [->|Hne].
    + rewrite ends_lookup by (rewrite length_app; simpl; lia).
      rewrite (list_lookup_middle (ends rows) [] _ (length rows)) by (by rewrite length_ends).
      by rewrite take_ge by (rewrite length_app; simpl; lia).
    + rewrite !lookup_ge_None_2; [done|..];
        rewrite ?length_app, ?length_ends, ?length_app; simpl; lia.
Qed.

(** Row [i] of the column [encode rows] is [rows !! i]. *)
Lemma encode_row rows i s :
  rows !! i = Some s →
  get (ends rows) i = Ok (lengthZ (bytes_of (take i rows)) + lengthZ s + 1) ∧
  prev_offset (ends rows) i = Ok (lengthZ (bytes_of (take i rows))) ∧
  slice (bytes_of rows) (lengthZ (bytes_of (take i rows))) (lengthZ s) = Ok s.
Proof.
  intros Hs. pose proof (lookup_lt_Some _ _ _ Hs) as Hi. split; [|split].
  - apply get_Ok. rewrite ends_lookup by done.
    rewrite (bytes_of_take_S _ _ _ Hs), !lengthZ_app. f_equal. unfold lengthZ. simpl. lia.
  - apply prev_offset_ends. lia.
  - rewrite <- (take_drop_middle _ _ _ Hs) at 1.
    rewrite bytes_of_app. unfold bytes_of at 2. rewrite fmap_cons. simpl.
    rewrite <- app_assoc. apply slice_middle.
Qed.

Lemma encode_string_at rows i s :
  rows !! i = Some s → string_at (bytes_of rows) (ends rows) i = Ok s.
Proof.
  intros Hs. destruct (encode_row _ _ _ Hs) as (Ho & Hp & Hslice).
  apply string_at_Ok. eexists _, _. split; [done|]. split; [done|].
  by replace (lengthZ (bytes_of (take i rows)) + lengthZ s + 1
              - lengthZ (bytes_of (take i rows)) - 1) with (lengthZ s) by lia.
Qed.

(** ** [FunctionStringConcat::executeImpl] *)

Lemma fmap_seq_ext {B} (f g : nat → B) n :
  (∀ i, (i < n)%nat → f i = g i) → f <$> seq 0 n = g <$> seq 0 n.
Proof.
  intros Hfg. apply list_eq. intros i. rewrite !list_lookup_fmap.
  destruct (decide (i < n)%nat).
  - rewrite lookup_seq_lt by done. simpl. f_equal. by apply Hfg.
  - by rewrite lookup_seq_ge by lia.
Qed.

Lemma fmap_seq_lookups {B} (l : list B) (d : B) :
  (fun i => default d (l !! i)) <$> seq 0 (length l) = l.
Proof.
  apply list_eq. intros i. rewrite list_lookup_fmap.
  destruct (decide (i < length l)%nat) as [Hi|Hi].
  - rewrite lookup_seq_lt by done. simpl.
    destruct (lookup_lt_is_Some_2 l i Hi) as [x Hx]. by rewrite Hx.
  - rewrite lookup_seq_ge, lookup_ge_None_2 by lia. done.
Qed.

Lemma insert_middle_replicate {B} (pre : list B) (x y : B) j m :
  length pre = j →
  <[j := x]> (pre ++ replicate (Datatypes.S m) y) = (pre ++ [x]) ++ replicate m y.
Proof.
  intros <-. replace (length pre) with (length pre + 0)%nat by lia.
  rewrite insert_app_r. simpl. by rewrite <- app_assoc.
Qed.

Lemma null_row_of_snoc args arg i :
  null_row_of (args ++ [arg]) i = Z.lor (null_row_of args i) (default 0 (arg.2 !! i)).
Proof. unfold null_row_of. by rewrite foldl_snoc. Qed.

Lemma concat_row_of_snoc args arg i :
  concat_row_of (args ++ [arg]) i = concat_row_of args i ++ default [] (arg.1 !! i).
Proof.
  unfold concat_row_of. rewrite fmap_app, join_app. simpl. by rewrite app_nil_r.
Qed.

(** One round of the loop over the arguments. *)
Lemma concat_normalize_step block arguments n j a (arg : argument_rows)
    acs pre_o pre_c m (flag : nat → Z) :
  arguments !! j = Some a → string_argument block n a arg →
  (j < length acs)%nat → length pre_o = j → length pre_c = j →
  ∃ acs', length acs' = length acs ∧
    FunctionStringConcat.normalize_argument block arguments j
      (acs, pre_o ++ replicate (Datatypes.S m) [], pre_c ++ replicate (Datatypes.S m) [],
       flag <$> seq 0 n)
    = Ok (acs', (pre_o ++ [ends arg.1]) ++ replicate m [],
          (pre_c ++ [bytes_of arg.1]) ++ replicate m [],
          (fun i => Z.lor (flag i) (default 0 (arg.2 !! i))) <$> seq 0 n).
Proof.
  intros Ha (e & c & He & Hc & Hnested & Hrows & Hflags & Hnull) Hacs Hpo Hpc.
  unfold FunctionStringConcat.normalize_argument, BlockOps.getByPosition.
  apply get_Ok in Ha. apply get_Ok in He. rewrite Ha, ret_bind, He, ret_bind, Hc, ret_bind.
  assert (∀ (pre : list (list Z)) (x : list Z), length pre = j →
    set_at (pre ++ replicate (Datatypes.S m) []) j x = Ok ((pre ++ [x]) ++ replicate m []))
    as Hset.
  { intros pre x Hpre. unfold set_at.
    rewrite bool_decide_true by (rewrite length_app, length_replicate; lia).
    by rewrite insert_middle_replicate. }
  destruct c as [chars offsets | | | nested nm | ]; simpl in Hnested; try discriminate.
  - injection Hnested as -> ->.
    rewrite (set_at_lt acs) by done. rewrite !ret_bind.
    unfold get. rewrite list_lookup_insert_eq by done. rewrite !ret_bind.
    simpl deref. rewrite !ret_bind. simpl assert_cast_ColumnString. rewrite !ret_bind.
    rewrite (Hset pre_o) by done. rewrite ret_bind.
    rewrite (Hset pre_c) by done. rewrite ret_bind.
    eexists. split; [apply length_insert|]. f_equal. f_equal.
    apply fmap_seq_ext. intros i Hi. specialize (Hnull i Hi). simpl in Hnull.
    injection Hnull as <-. by rewrite Z.lor_0_r.
  - subst nested.
    assert (n <= length nm)%nat as Hnm.
    { destruct n as [|n']; [lia|]. specialize (Hnull n' ltac:(lia)).
      simpl in Hnull. apply get_Ok, lookup_lt_Some in Hnull. lia. }
    rewrite (set_at_lt acs) by done. rewrite !ret_bind.
    unfold update_null_map. rewrite bool_decide_true
      by (rewrite length_fmap, length_seq; lia).
    rewrite !ret_bind.
    unfold get. rewrite list_lookup_insert_eq by done. rewrite !ret_bind.
    simpl deref. rewrite !ret_bind. simpl assert_cast_ColumnString. rewrite !ret_bind.
    rewrite (Hset pre_o) by done. rewrite ret_bind.
    rewrite (Hset pre_c) by done. rewrite ret_bind.
    eexists. split; [apply length_insert|]. f_equal. f_equal.
    apply list_eq. intros i. rewrite lookup_zip_with, !list_lookup_fmap.
    destruct (decide (i < n)%nat) as [Hi|Hi].
    + rewrite lookup_seq_lt by done. simpl.
      specialize (Hnull i Hi). simpl in Hnull. apply get_Ok in Hnull. by rewrite Hnull.
    + by rewrite lookup_seq_ge by lia.
Qed.

Lemma fmap_const_seq {B} (x : B) n : (fun _ => x) <$> seq 0 n = replicate n x.
Proof.
  apply list_eq. intros i. rewrite list_lookup_fmap.
  destruct (decide (i < n)%nat).
  - by rewrite lookup_seq_lt, lookup_replicate_2 by done.
  - by rewrite lookup_seq_ge, (proj1 (lookup_replicate_None n x i)) by lia.
Qed.

(** The loop over the arguments collects the offsets, the bytes and the
    merged null map of the arguments. *)
Lemma concat_normalize block arguments (args : list argument_rows) n :
  Forall2 (string_argument block n) arguments args →
  ∃ acs,
    for_range 0 (length arguments) (FunctionStringConcat.normalize_argument block arguments)
      (replicate (length arguments) None, replicate (length arguments) [],
       replicate (length arguments) [], replicate n 0)
    = Ok (acs, (fun arg : argument_rows => ends arg.1) <$> args,
          (fun arg : argument_rows => bytes_of arg.1) <$> args,
          null_row_of args <$> seq 0 n).
Proof.
  intros Hargs. pose proof (Forall2_length _ _ _ Hargs) as Hlen.
  set (k := length arguments) in *.
  assert (∀ j, (j <= k)%nat → ∃ acs, length acs = k ∧
    for_range 0 j (FunctionStringConcat.normalize_argument block arguments)
      (replicate k None, replicate k [], replicate k [], replicate n 0)
    = Ok (acs,
          ((fun arg : argument_rows => ends arg.1) <$> take j args) ++ replicate (k - j) [],
          ((fun arg : argument_rows => bytes_of arg.1) <$> take j args) ++ replicate (k - j) [],
          null_row_of (take j args) <$> seq 0 n)) as Hgen.
  { induction j as [|j IH]; intros Hj.
    - exists (replicate k None). split; [apply length_replicate|]. simpl.
      rewrite Nat.sub_0_r. f_equal. f_equal. symmetry. apply (fmap_const_seq 0). 
    - destruct IH as (acs & Hacs & IH); [lia|].
      rewrite for_range_snoc, IH, ret_bind, Nat.add_0_l.
      destruct (lookup_lt_is_Some_2 arguments j) as [a Ha]; [unfold k in *; lia|].
      destruct (lookup_lt_is_Some_2 args j) as [arg Harg]; [lia|].
      pose proof (Forall2_lookup_lr _ _ _ _ _ _ Hargs Ha Harg) as Hstr.
      replace (k - j)%nat with (Datatypes.S (k - Datatypes.S j)) by lia.
      destruct (concat_normalize_step block arguments n j a arg acs
                  ((fun arg : argument_rows => ends arg.1) <$> take j args)
                  ((fun arg : argument_rows => bytes_of arg.1) <$> take j args)
                  (k - Datatypes.S j) (null_row_of (take j args)) Ha Hstr)
        as (acs' & Hacs' & Hstep);
        [lia | rewrite length_fmap, length_take; lia
        | rewrite length_fmap, length_take; lia |].
      exists acs'. split; [lia|]. rewrite Hstep. f_equal.
      rewrite (take_S_r _ _ _ Harg), !fmap_app. simpl. f_equal.
      apply fmap_seq_ext. intros i Hi. by rewrite null_row_of_snoc. }
  destruct (Hgen k) as (acs & _ & Hrun); [lia|]. exists acs. rewrite Hrun.
  rewrite Nat.sub_diag. simpl. rewrite !app_nil_r, take_ge by lia. done.
Qed.

Lemma payload_size_nonneg args : 0 <= payload_size args.
Proof.
  induction args as [|arg args IH]; simpl; [done|].
  pose proof (lengthZ_nonneg (mjoin arg.1)). lia.
Qed.

Lemma payload_size_app args1 args2 :
  payload_size (args1 ++ args2) = payload_size args1 + payload_size args2.
Proof. induction args1 as [|arg args1 IH]; simpl; [done|]. rewrite IH. lia. Qed.

(** The inner loop that sums the sizes of the rows of one argument. *)
Lemma reserve_rows offsets_list j rows m : ∀ a acc,
  offsets_list !! j = Some (ends rows) →
  (a + m <= length rows)%nat → 0 <= acc →
  acc + lengthZ (mjoin (take m (drop a rows))) <= INT32_MAX →
  for_range a m (FunctionStringConcat.reserve_row offsets_list j) acc
  = Ok (acc + lengthZ (mjoin (take m (drop a rows)))).
Proof.
  induction m as [|m IH]; intros a acc Hj Ham Hacc Hmax.
  - simpl. f_equal. unfold lengthZ. simpl. lia.
  - destruct (lookup_lt_is_Some_2 rows a) as [s Hs]; [lia|].
    rewrite (drop_S _ _ _ Hs) in *. simpl take in *. simpl mjoin in *.
    rewrite lengthZ_app in *.
    pose proof (lengthZ_nonneg s). pose proof (lengthZ_nonneg (mjoin (take m (drop (Datatypes.S a) rows)))).
    rewrite for_range_S.
    assert (FunctionStringConcat.reserve_row offsets_list j a acc = Ok (acc + lengthZ s))
      as ->.
    { unfold FunctionStringConcat.reserve_row.
      destruct (encode_row _ _ _ Hs) as (Ho & Hp & _).
      apply get_Ok in Hj. rewrite Hj, ret_bind, Ho, ret_bind, Hp, ret_bind.
      replace (lengthZ (bytes_of (take a rows)) + lengthZ s + 1
               - lengthZ (bytes_of (take a rows)) - 1) with (lengthZ s) by lia.
      unfold INT32_MAX in *. rewrite to_int32_small by lia. done. }
    rewrite ret_bind. unfold INT32_MAX in *.
    rewrite IH; [f_equal; lia | done | lia | lia | lia].
Qed.

(** The outer loop that sums over the arguments. *)
Lemma reserve_args (args : list argument_rows) n m : ∀ a acc,
  Forall (fun arg : argument_rows => length arg.1 = n) args →
  (a + m <= length args)%nat → 0 <= acc →
  acc + payload_size (take m (drop a args)) <= INT32_MAX →
  for_range a m
    (fun i => for_range 0 n
       (FunctionStringConcat.reserve_row ((fun arg : argument_rows => ends arg.1) <$> args) i))
    acc
  = Ok (acc + payload_size (take m (drop a args))).
Proof.
  induction m as [|m IH]; intros a acc Hlen Ham Hacc Hmax.
  - simpl. f_equal. lia.
  - destruct (lookup_lt_is_Some_2 args a) as [arg Harg]; [lia|].
    rewrite (drop_S _ _ _ Harg) in *. simpl take in *. simpl payload_size in *.
    pose proof (payload_size_nonneg (take m (drop (Datatypes.S a) args))).
    pose proof (lengthZ_nonneg (mjoin arg.1)).
    rewrite for_range_S.
    pose proof (proj1 (Forall_lookup _ _) Hlen _ _ Harg) as Hn. simpl in Hn.
    rewrite (reserve_rows _ a arg.1 n 0 acc);
      [| by rewrite list_lookup_fmap, Harg | lia | done
       | rewrite drop_0, take_ge by lia; lia].
    rewrite ret_bind, drop_0, take_ge by lia.
    rewrite IH; [f_equal; lia | done | lia | lia | lia].
Qed.

Lemma memcpy_middle (front rest src : list Z) spos (s : list Z) :
  slice src spos (lengthZ s) = Ok s → lengthZ s <= lengthZ rest →
  memcpy (front ++ rest) (lengthZ front) src spos (lengthZ s)
  = Ok (front ++ s ++ drop (length s) rest).
Proof.
  intros Hs Hle. unfold memcpy. rewrite Hs, ret_bind.
  pose proof (lengthZ_nonneg front). pose proof (lengthZ_nonneg s).
  rewrite bool_decide_true by (rewrite lengthZ_app; lia). f_equal.
  unfold lengthZ. rewrite Nat2Z.id, take_app_length. f_equal. f_equal.
  rewrite <- Nat2Z.inj_add, Nat2Z.id. by rewrite drop_app_add.
Qed.

Lemma set_atZ_middle (front rest : list Z) x :
  1 <= lengthZ rest →
  set_atZ (front ++ rest) (lengthZ front) x = Ok (front ++ [x] ++ drop 1 rest).
Proof.
  intros Hle. unfold set_atZ. pose proof (lengthZ_nonneg front).
  rewrite bool_decide_true by (rewrite lengthZ_app; lia).
  unfold lengthZ in *. rewrite Nat2Z.id.
  rewrite set_at_lt by (rewrite length_app; lia). f_equal.
  destruct rest as [|r rest]; [simpl in Hle; lia|].
  replace (length front) with (length front + 0)%nat at 1 by lia.
  by rewrite insert_app_r.
Qed.

Lemma concat_row_of_app args1 args2 i :
  concat_row_of (args1 ++ args2) i = concat_row_of args1 i ++ concat_row_of args2 i.
Proof. unfold concat_row_of. by rewrite fmap_app, join_app. Qed.

Lemma concat_row_of_take_le args j i :
  lengthZ (concat_row_of (take j args) i) <= lengthZ (concat_row_of args i).
Proof.
  rewrite <- (take_drop j args) at 2. rewrite concat_row_of_app, lengthZ_app.
  pose proof (lengthZ_nonneg (concat_row_of (drop j args) i)). lia.
Qed.

(** The loop over the arguments for row [i] copies the strings of the
    arguments one behind the other, from the end of the rows written
    before. *)
Lemma concat_copy_loop (args : list argument_rows) n i res_offset front rest :
  Forall (fun arg : argument_rows => length arg.1 = n) args → (i < n)%nat →
  prev_offset res_offset i = Ok (lengthZ front) →
  lengthZ (concat_row_of args i) <= lengthZ rest →
  lengthZ (concat_row_of args i) <= INT32_MAX →
  ∀ j, (j <= length args)%nat →
    for_range 0 j
      (FunctionStringConcat.copy_argument
         ((fun arg : argument_rows => ends arg.1) <$> args)
         ((fun arg : argument_rows => bytes_of arg.1) <$> args) res_offset i)
      (front ++ rest, 0)
    = Ok (front ++ concat_row_of (take j args) i
            ++ drop (length (concat_row_of (take j args) i)) rest,
          lengthZ (concat_row_of (take j args) i)).
Proof.
  intros Hlen Hi Hprev Hrest Hmax. induction j as [|j IH]; intros Hj.
  - simpl. by rewrite drop_0.
  - rewrite for_range_snoc, IH, ret_bind, Nat.add_0_l by lia.
    destruct (lookup_lt_is_Some_2 args j) as [arg Harg]; [lia|].
    pose proof (proj1 (Forall_lookup _ _) Hlen _ _ Harg) as Hn. simpl in Hn.
    destruct (lookup_lt_is_Some_2 arg.1 i) as [s Hs]; [lia|].
    destruct (encode_row _ _ _ Hs) as (Ho & Hp & Hslice).
    set (sofar := concat_row_of (take j args) i) in *.
    assert (concat_row_of (take (Datatypes.S j) args) i = sofar ++ s) as Hnext.
    { rewrite (take_S_r _ _ _ Harg), concat_row_of_snoc. by rewrite Hs. }
    pose proof (concat_row_of_take_le args (Datatypes.S j) i) as Hle.
    rewrite Hnext, lengthZ_app in Hle.
    pose proof (lengthZ_nonneg sofar). pose proof (lengthZ_nonneg s).
    assert (get ((fun arg : argument_rows => ends arg.1) <$> args) j = Ok (ends arg.1))
      as Hgo by (apply get_Ok; by rewrite list_lookup_fmap, Harg).
    assert (get ((fun arg : argument_rows => bytes_of arg.1) <$> args) j
            = Ok (bytes_of arg.1))
      as Hgc by (apply get_Ok; by rewrite list_lookup_fmap, Harg).
    unfold FunctionStringConcat.copy_argument.
    rewrite Hgo, ret_bind, Hgc, ret_bind.
    rewrite Ho, ret_bind, Hp, ret_bind, Hprev, ret_bind.
    replace (lengthZ (bytes_of (take i arg.1)) + lengthZ s + 1
             - lengthZ (bytes_of (take i arg.1)) - 1) with (lengthZ s) by lia.
    unfold INT32_MAX in *.
    rewrite (to_int32_small (lengthZ s)), (to_size_t_small (lengthZ s)) by lia.
    rewrite (app_assoc front sofar).
    replace (lengthZ front + lengthZ sofar) with (lengthZ (front ++ sofar))
      by apply lengthZ_app.
    rewrite memcpy_middle; [|done|].
    2: { unfold lengthZ in *. rewrite length_drop. lia. }
    rewrite ret_bind, Hnext, lengthZ_app. rewrite to_int32_small by lia.
    f_equal. f_equal. rewrite <- !app_assoc. f_equal. f_equal. f_equal.
    rewrite drop_drop, length_app. f_equal.
Qed.

Lemma lengthZ_bytes_of rows : lengthZ (bytes_of rows) = lengthZ (mjoin rows) + lengthZ rows.
Proof.
  induction rows as [|r rows IH]; [done|].
  change (bytes_of (r :: rows)) with ((r ++ [0]) ++ bytes_of rows).
  change (mjoin (r :: rows)) with (r ++ mjoin rows).
  rewrite !lengthZ_app, IH. unfold lengthZ. simpl. lia.
Qed.

Lemma lengthZ_mjoin_fmap_app {B} (f g : B → list Z) (l : list B) :
  lengthZ (mjoin ((fun x => f x ++ g x) <$> l))
  = lengthZ (mjoin (f <$> l)) + lengthZ (mjoin (g <$> l)).
Proof.
  induction l as [|x l IH]; [done|].
  rewrite !fmap_cons.
  change (mjoin ((f x ++ g x) :: ((fun x => f x ++ g x) <$> l)))
    with ((f x ++ g x) ++ mjoin ((fun x => f x ++ g x) <$> l)).
  change (mjoin (f x :: (f <$> l))) with (f x ++ mjoin (f <$> l)).
  change (mjoin (g x :: (g <$> l))) with (g x ++ mjoin (g <$> l)).
  rewrite !lengthZ_app, IH. lia.
Qed.

(** The size the two reserve loops compute is the size of the strings of
    the output. *)
Lemma payload_size_rows (args : list argument_rows) n :
  Forall (fun arg : argument_rows => length arg.1 = n) args →
  payload_size args = lengthZ (mjoin (concat_row_of args <$> seq 0 n)).
Proof.
  induction args as [|arg args IH]; intros Hlen.
  - simpl. unfold concat_row_of. simpl. induction (seq 0 n); [done|]. done.
  - apply Forall_cons in Hlen as [Harg Hlen]. simpl. rewrite IH by done.
    replace (concat_row_of (arg :: args))
      with (fun i => default [] (arg.1 !! i) ++ concat_row_of args i) by done.
    rewrite (lengthZ_mjoin_fmap_app (fun i => default [] (arg.1 !! i))).
    rewrite <- Harg at 2. by rewrite fmap_seq_lookups.
Qed.

(** One round of the loop over the rows of [concat]. *)
Lemma concat_row_step (args : list argument_rows) n i rest :
  let out_rows := concat_row_of args <$> seq 0 n in
  Forall (fun arg : argument_rows => length arg.1 = n) args → (i < n)%nat →
  lengthZ (bytes_of out_rows) <= INT32_MAX →
  lengthZ (bytes_of (take i out_rows)) + lengthZ rest = lengthZ (bytes_of out_rows) →
  FunctionStringConcat.concat_row
    ((fun arg : argument_rows => ends arg.1) <$> args)
    ((fun arg : argument_rows => bytes_of arg.1) <$> args) i
    (bytes_of (take i out_rows) ++ rest, ends (take i out_rows) ++ replicate (n - i) 0)
  = Ok (bytes_of (take (Datatypes.S i) out_rows)
          ++ drop (Datatypes.S (length (concat_row_of args i))) rest,
        ends (take (Datatypes.S i) out_rows) ++ replicate (n - Datatypes.S i) 0).
Proof.
  intros out_rows Hlen Hi Hmax Hrest.
  set (front := bytes_of (take i out_rows)) in *.
  set (row := concat_row_of args i).
  assert (out_rows !! i = Some row) as Hrow.
  { unfold out_rows. by rewrite list_lookup_fmap, lookup_seq_lt by done. }
  assert (length out_rows = n) as Hout by (unfold out_rows; by rewrite length_fmap, length_seq).
  pose proof (bytes_of_take_S _ _ _ Hrow) as Hnext. fold front in Hnext.
  pose proof (lengthZ_bytes_of_take out_rows (Datatypes.S i) n ltac:(lia)) as Hle.
  rewrite (take_ge out_rows n) in Hle by lia.
  rewrite Hnext, !lengthZ_app in Hle. change (lengthZ [0]) with 1 in Hle.
  pose proof (lengthZ_nonneg front). pose proof (lengthZ_nonneg row).
  assert (prev_offset (ends (take i out_rows) ++ replicate (n - i) 0) i
          = Ok (lengthZ front)) as Hprev.
  { destruct i as [|i']; [done|]. simpl. apply get_Ok.
    rewrite lookup_app_l by (rewrite length_ends, length_take; lia).
    rewrite ends_lookup by (rewrite length_take; lia).
    by rewrite take_take, Nat.min_id. }
  unfold FunctionStringConcat.concat_row. rewrite length_fmap.
  rewrite (concat_copy_loop args n i _ front rest Hlen Hi Hprev);
    [| fold row; lia | fold row; lia | lia].
  rewrite (take_ge args) by lia. fold row. rewrite ret_bind, Hprev, ret_bind.
  rewrite (app_assoc front row).
  replace (lengthZ front + lengthZ row) with (lengthZ (front ++ row)) by apply lengthZ_app.
  rewrite set_atZ_middle by (unfold lengthZ in *; rewrite length_drop; lia).
  rewrite ret_bind. unfold INT32_MAX in *.
  rewrite to_int32_small by lia.
  rewrite to_size_t_small by lia.
  replace (n - i)%nat with (Datatypes.S (n - Datatypes.S i)) by lia.
  rewrite set_at_lt by (rewrite length_app, length_ends, length_take, length_replicate; lia).
  rewrite ret_bind. f_equal. f_equal.
  - rewrite Hnext, <- !app_assoc. f_equal. f_equal. simpl. f_equal.
    rewrite drop_drop. f_equal. lia.
  - rewrite insert_middle_replicate by (rewrite length_ends, length_take; lia).
    f_equal. rewrite (take_S_r _ _ _ Hrow), ends_snoc. f_equal. f_equal.
    rewrite bytes_of_snoc, !lengthZ_app. fold front. change (lengthZ [0]) with 1. lia.
Qed.

(** The loop over the rows of [concat] fills the reserved bytes with the
    rows of the output. *)
Lemma concat_rows_loop (args : list argument_rows) n init :
  let out_rows := concat_row_of args <$> seq 0 n in
  Forall (fun arg : argument_rows => length arg.1 = n) args →
  lengthZ (bytes_of out_rows) <= INT32_MAX →
  lengthZ init = lengthZ (bytes_of out_rows) →
  ∀ i, (i <= n)%nat →
    for_range 0 i
      (FunctionStringConcat.concat_row
         ((fun arg : argument_rows => ends arg.1) <$> args)
         ((fun arg : argument_rows => bytes_of arg.1) <$> args))
      (init, replicate n 0)
    = Ok (bytes_of (take i out_rows) ++ drop (length (bytes_of (take i out_rows))) init,
          ends (take i out_rows) ++ replicate (n - i) 0).
Proof.
  intros out_rows Hlen Hmax Hinit. induction i as [|i IH]; intros Hi.
  - simpl. by rewrite Nat.sub_0_r.
  - rewrite for_range_snoc, IH, ret_bind, Nat.add_0_l by lia.
    assert (length out_rows = n) as Hout
      by (unfold out_rows; by rewrite length_fmap, length_seq).
    pose proof (lengthZ_bytes_of_take out_rows i n ltac:(lia)) as Hle.
    rewrite (take_ge out_rows n) in Hle by lia.
    rewrite (concat_row_step args n i); [|done|lia|done|].
    2: { fold out_rows. unfold lengthZ in *. rewrite length_drop. lia. }
    fold out_rows. f_equal. f_equal. f_equal. rewrite drop_drop. f_equal.
    assert (out_rows !! i = Some (concat_row_of args i)) as Hrow.
    { unfold out_rows. by rewrite list_lookup_fmap, lookup_seq_lt by lia. }
    rewrite (bytes_of_take_S _ _ _ Hrow), !length_app. simpl. lia.
Qed.

Lemma null_row_of_nonzero (args : list argument_rows) i :
  null_row_of args i ≠ 0 ↔ ∃ arg, arg ∈ args ∧ default 0 (arg.2 !! i) ≠ 0.
Proof.
  induction args as [|arg args IH] using rev_ind.
  - simpl. split; [done|]. intros (arg & Harg & _). by apply elem_of_nil in Harg.
  - rewrite null_row_of_snoc, Z.lor_eq_0_iff. split.
    + intros Hne. destruct (decide (null_row_of args i = 0)) as [Hz|Hnz].
      * exists arg. split; [apply elem_of_app; right; by apply list_elem_of_singleton | lia].
      * apply IH in Hnz as (arg' & Harg' & Hflag). exists arg'.
        split; [apply elem_of_app; by left | done].
    + intros (arg' & Harg' & Hflag) [Hz1 Hz2].
      apply elem_of_app in Harg' as [Harg' | ->%list_elem_of_singleton]; [|done].
      apply (proj2 IH); [|done]. by exists arg'.
Qed.

(** C7.  With two or more arguments that are string columns of [n] rows
    (constant or nullable or not), [concat] writes the nullable string
    column whose row [i] is the concatenation of the strings the arguments
    hold in row [i] and whose null flag in row [i] is the OR of the null
    flags of the arguments, so that the row is null iff one argument is
    null in that row.  With one argument, the argument column itself is
    written if it is nullable, and else the column [makeNullable] wraps,
    with a null map of zeros. *)
Theorem concat_rows dcheck_is_on block arguments result_pos n e_res
    (args : list argument_rows) :
  Forall2 (string_argument block n) arguments args →
  block !! result_pos = Some e_res →
  lengthZ (bytes_of (concat_row_of args <$> seq 0 n)) <= INT32_MAX →
  ((2 <= length arguments)%nat →
   FunctionStringConcat.executeImpl dcheck_is_on block arguments result_pos n
   = Ok (<[result_pos :=
            mkColumn
              (ColumnNullable (encode (concat_row_of args <$> seq 0 n))
                 (null_row_of args <$> seq 0 n))
              (type e_res) (name e_res)]> block) ∧
   ∀ i, (i < n)%nat →
     string_at (bytes_of (concat_row_of args <$> seq 0 n))
       (ends (concat_row_of args <$> seq 0 n)) i = Ok (concat_row_of args i) ∧
     (null_row_of args i ≠ 0 ↔ ∃ arg, arg ∈ args ∧ default 0 (arg.2 !! i) ≠ 0)) ∧
  (∀ a e, arguments = [a] → block !! a = Some e →
     FunctionStringConcat.executeImpl dcheck_is_on block arguments result_pos n
     = Ok (<[result_pos :=
              mkColumn
                (match column e with
                 | ColumnNullable _ _ => column e
                 | ColumnConst data s => ColumnConst (makeNullable data) s
                 | c => ColumnNullable c (replicate (column_size c) 0)
                 end)
                (type e_res) (name e_res)]> block)).
Proof.
  intros Hargs Hres Hmax. split.
  - intros Hlen2. set (out_rows := concat_row_of args <$> seq 0 n) in *.
    assert (Forall (fun arg : argument_rows => length arg.1 = n) args) as Hlen.
    { apply Forall_forall. intros arg Harg.
      apply list_elem_of_lookup in Harg as [j Hj].
      destruct (Forall2_lookup_r _ _ _ _ _ Hargs Hj) as (a & _ & Hstr).
      by destruct Hstr as (? & ? & ? & ? & ? & ? & ? & ?). }
    assert (length out_rows = n) as Hout
      by (unfold out_rows; by rewrite length_fmap, length_seq).
    pose proof (payload_size_rows args n Hlen) as Hpay. fold out_rows in Hpay.
    pose proof (lengthZ_bytes_of out_rows) as HT.
    pose proof (payload_size_nonneg args) as Hpos.
    assert (lengthZ out_rows = Z.of_nat n) as Hrows by (unfold lengthZ; by rewrite Hout).
    pose proof (Forall2_length _ _ _ Hargs) as Hk.
    split.
    + unfold FunctionStringConcat.executeImpl.
      rewrite (bool_decide_true (1 <= length arguments)%nat) by lia.
      rewrite DCHECK_true, ret_bind.
      rewrite (bool_decide_false (length arguments = 1%nat)) by lia.
      destruct (concat_normalize _ _ _ _ Hargs) as (acs & ->). rewrite ret_bind.
      rewrite length_fmap.
      rewrite (reserve_args args n (length args) 0 0);
        [| done | lia | lia | rewrite drop_0, take_ge by lia; lia].
      rewrite ret_bind, drop_0, take_ge by lia.
      unfold INT32_MAX in *. rewrite Z.add_0_l.
      rewrite to_int32_small by lia. rewrite to_size_t_small by lia.
      unfold resize. rewrite !take_nil. simpl length. rewrite !Nat.sub_0_r. simpl app.
      rewrite (concat_rows_loop args n _ Hlen); [| done | | lia].
      2: { unfold lengthZ at 1. rewrite length_replicate. fold out_rows. lia. }
      rewrite ret_bind. fold out_rows. rewrite (take_ge out_rows) by lia.
      rewrite drop_ge, Nat.sub_diag by (rewrite length_replicate; unfold lengthZ in *; lia).
      simpl replicate. rewrite !app_nil_r.
      by rewrite (set_column_Ok _ _ _ _ Hres).
    + intros i Hi. split; [|apply null_row_of_nonzero].
      apply encode_string_at. unfold out_rows.
      by rewrite list_lookup_fmap, lookup_seq_lt by done.
  - intros a e -> He. unfold FunctionStringConcat.executeImpl.
    rewrite DCHECK_true, ret_bind. simpl.
    unfold BlockOps.getByPosition, get. rewrite He. simpl.
    destruct (column e); simpl; by rewrite (set_column_Ok _ _ _ _ Hres).
Qed.

Lemma concat_rows_witness :
  let a0 := ColumnNullable (ColumnString [97; 98; 0; 0] [3; 4]) [0; 1] in
  let a1 := ColumnConst (ColumnString [99; 0] [2]) 2 in
  let e_res := mkColumn (ColumnUInt8 []) (DataTypeNullable DataTypeString) "result" in
  let block := [mkColumn a0 (DataTypeNullable DataTypeString) "a";
                mkColumn a1 DataTypeString "b"; e_res] in
  let args : list argument_rows := [([[97; 98]; []], [0; 1]); ([[99]; [99]], [0; 0])] in
  ((2 <= length [0; 1]%nat)%nat →
   FunctionStringConcat.executeImpl true block [0; 1]%nat 2 2
   = Ok (<[2%nat :=
            mkColumn
              (ColumnNullable (encode (concat_row_of args <$> seq 0 2))
                 (null_row_of args <$> seq 0 2))
              (type e_res) (name e_res)]> block) ∧
   ∀ i, (i < 2)%nat →
     string_at (bytes_of (concat_row_of args <$> seq 0 2))
       (ends (concat_row_of args <$> seq 0 2)) i = Ok (concat_row_of args i) ∧
     (null_row_of args i ≠ 0 ↔ ∃ arg, arg ∈ args ∧ default 0 (arg.2 !! i) ≠ 0)) ∧
  (∀ a e, [0; 1]%nat = [a] → block !! a = Some e →
     FunctionStringConcat.executeImpl true block [0; 1]%nat 2 2
     = Ok (<[2%nat :=
              mkColumn
                (match column e with
                 | ColumnNullable _ _ => column e
                 | ColumnConst data s => ColumnConst (makeNullable data) s
                 | c => ColumnNullable c (replicate (column_size c) 0)
                 end)
                (type e_res) (name e_res)]> block)).
Proof.
  intros a0 a1 e_res block args.
  apply (concat_rows true block [0; 1]%nat 2 2 e_res args).
  - constructor; [|constructor; [|constructor]].
    + exists (mkColumn a0 (DataTypeNullable DataTypeString) "a"), a0.
      do 5 (split; [reflexivity|]).
      intros i Hi. destruct i as [|[|i]]; [reflexivity | reflexivity | lia].
    + exists (mkColumn a1 DataTypeString "b"), (ColumnString [99; 0; 99; 0] [2; 4]).
      do 5 (split; [reflexivity|]).
      intros i Hi. destruct i as [|[|i]]; [reflexivity | reflexivity | lia].
  - reflexivity.
  - vm_compute. discriminate.
Defined.

(** ** The rows of [concat_ws] *)

Lemma ws_views_snoc rest (arg : argument_rows) i :
  ws_views (rest ++ [arg]) i
  = ws_views rest i ++
    (if default 0 (arg.2 !! i) =? 0 then [default [] (arg.1 !! i)] else []).
Proof.
  unfold ws_views. rewrite omap_app. f_equal. simpl.
  by destruct (default 0 (arg.2 !! i) =? 0).
Qed.

(** The loop over the arguments behind the separator, for row [i]: the
    views of the arguments that are not null in this row are collected in
    order. *)
Lemma concat_ws_collect (all : list argument_rows) n i :
  Forall (rows_ok n) all → (i < n)%nat →
  ∀ m, (m < length all)%nat →
    for_range 1 m
      (FunctionStringConcatWs.collect_view
         ((fun arg : argument_rows => ends arg.1) <$> all)
         ((fun arg : argument_rows => bytes_of arg.1) <$> all)
         ((fun arg : argument_rows => arg.2) <$> all) i) []
    = Ok (ws_views (take m (drop 1 all)) i).
Proof.
  intros Hall Hi. induction m as [|m IH]; intros Hm; [done|].
  rewrite for_range_snoc, IH, ret_bind by lia.
  destruct (lookup_lt_is_Some_2 all (1 + m)) as [arg Harg]; [lia|].
  destruct (proj1 (Forall_lookup _ _) Hall _ _ Harg) as (Hrows & Hflags & Hmax).
  destruct (lookup_lt_is_Some_2 arg.1 i) as [s Hs]; [lia|].
  destruct (lookup_lt_is_Some_2 arg.2 i) as [flag Hflag]; [lia|].
  pose proof (proj1 (Forall_lookup _ _) Hmax _ _ Hs) as Hsmax. simpl in Hsmax.
  destruct (encode_row _ _ _ Hs) as (Ho & Hp & Hslice).
  assert (get ((fun arg : argument_rows => ends arg.1) <$> all) (1 + m) = Ok (ends arg.1))
    as Hgo by (apply get_Ok; by rewrite list_lookup_fmap, Harg).
  assert (get ((fun arg : argument_rows => bytes_of arg.1) <$> all) (1 + m)
          = Ok (bytes_of arg.1))
    as Hgc by (apply get_Ok; by rewrite list_lookup_fmap, Harg).
  assert (get ((fun arg : argument_rows => arg.2) <$> all) (1 + m) = Ok arg.2)
    as Hgn by (apply get_Ok; by rewrite list_lookup_fmap, Harg).
  assert (get arg.2 i = Ok flag) as Hgf by by apply get_Ok.
  unfold FunctionStringConcatWs.collect_view.
  rewrite Hgo, ret_bind, Hgc, ret_bind, Hgn, ret_bind, Ho, ret_bind, Hp, ret_bind,
    Hgf, ret_bind.
  replace (lengthZ (bytes_of (take i arg.1)) + lengthZ s + 1
           - lengthZ (bytes_of (take i arg.1)) - 1) with (lengthZ s) by lia.
  pose proof (lengthZ_nonneg s). unfold INT32_MAX in *.
  rewrite (to_int32_small (lengthZ s)), (to_size_t_small (lengthZ s)) by lia.
  assert (drop 1 all !! m = Some arg) as Harg' by by rewrite lookup_drop.
  rewrite (take_S_r _ _ _ Harg'), ws_views_snoc. rewrite Hflag, Hs. simpl.
  destruct (flag =? 0); [by rewrite Hslice | by rewrite app_nil_r].
Qed.

(** The round of row [i] of [concat_ws], for any number of arguments: the
    row is empty when the separator is null in this row (the merged null
    map makes it null), and else the views of the arguments that are not
    null, joined with the separator. *)
Lemma concat_ws_row_joins (sep : argument_rows) (rest : list argument_rows) n i
    res_data res_offset :
  Forall (rows_ok n) (sep :: rest) → (i < n)%nat →
  FunctionStringConcatWs.concat_ws_row (length (sep :: rest))
    ((fun arg : argument_rows => ends arg.1) <$> sep :: rest)
    ((fun arg : argument_rows => bytes_of arg.1) <$> sep :: rest)
    ((fun arg : argument_rows => arg.2) <$> sep :: rest) i (res_data, res_offset)
  = if default 0 (sep.2 !! i) =? 0
    then StringOP.push_value_string
           (join (ws_views rest i) (default [] (sep.1 !! i))) i res_data res_offset
    else StringOP.push_value_string [] i res_data res_offset.
Proof.
  intros Hall Hi.
  destruct (proj1 (Forall_cons _ _ _) Hall) as [(Hrows & Hflags & Hmax) _].
  destruct (lookup_lt_is_Some_2 sep.1 i) as [s Hs]; [lia|].
  destruct (lookup_lt_is_Some_2 sep.2 i) as [flag Hflag]; [lia|].
  pose proof (proj1 (Forall_lookup _ _) Hmax _ _ Hs) as Hsmax. simpl in Hsmax.
  destruct (encode_row _ _ _ Hs) as (Ho & Hp & Hslice).
  assert (get sep.2 i = Ok flag) as Hgf by by apply get_Ok.
  unfold FunctionStringConcatWs.concat_ws_row. rewrite !fmap_cons.
  change (get (ends sep.1 :: _) 0) with (Ok (ends sep.1)). rewrite ret_bind.
  change (get (bytes_of sep.1 :: _) 0) with (Ok (bytes_of sep.1)). rewrite ret_bind.
  change (get (sep.2 :: _) 0) with (Ok sep.2). rewrite ret_bind, Hgf, ret_bind.
  rewrite Hflag, Hs. simpl default.
  destruct (flag =? 0); simpl negb; cbv iota.
  - rewrite Ho, ret_bind, Hp, ret_bind.
    replace (lengthZ (bytes_of (take i sep.1)) + lengthZ s + 1
             - lengthZ (bytes_of (take i sep.1)) - 1) with (lengthZ s) by lia.
    pose proof (lengthZ_nonneg s). unfold INT32_MAX in *.
    rewrite (to_int32_small (lengthZ s)), (to_size_t_small (lengthZ s)) by lia.
    rewrite Hslice, ret_bind.
    rewrite <- !fmap_cons.
    rewrite (concat_ws_collect (sep :: rest) n i Hall Hi) by (simpl; lia).
    rewrite ret_bind. simpl. by rewrite Nat.sub_0_r, drop_0, take_ge by lia.
  - unfold StringOP.push_value_string. by rewrite app_nil_r.
Qed.

(** * Further properties *)

(** ** Loops that push a value per row *)

(** A loop whose round [i] pushes the string [f i] builds, from the empty
    column, the column that holds the strings [f 0], ..., [f (n - 1)]. *)
Lemma push_values_loop (body : nat → list Z * list Z → result (list Z * list Z))
    (f : nat → list Z) n :
  (∀ i res_data res_offsets, (i < n)%nat →
     body i (res_data, res_offsets)
     = StringOP.push_value_string (f i) i res_data res_offsets) →
  for_range 0 n body ([], resize [] n)
  = Ok (bytes_of (f <$> seq 0 n), ends (f <$> seq 0 n)).
Proof.
  intros Hbody.
  assert (resize [] n = replicate n 0) as ->.
  { unfold resize. by rewrite take_nil, Nat.sub_0_r. }
  assert (∀ k, (k <= n)%nat →
    for_range 0 k body ([], replicate n 0)
    = Ok (bytes_of (f <$> seq 0 k), ends (f <$> seq 0 k) ++ replicate (n - k) 0)) as Hgen.
  { induction k as [|k IH]; intros Hk.
    - simpl. by rewrite Nat.sub_0_r.
    - rewrite for_range_snoc, IH, ret_bind, Nat.add_0_l by lia.
      rewrite Hbody by lia. unfold StringOP.push_value_string.
      replace (n - k)%nat with (Datatypes.S (n - Datatypes.S k)) by lia.
      rewrite set_at_lt
        by (rewrite length_app, length_ends, length_fmap, length_seq, length_replicate; lia).
      rewrite ret_bind.
      rewrite insert_middle_replicate by (by rewrite length_ends, length_fmap, length_seq).
      rewrite seq_S, fmap_app. simpl. rewrite ends_snoc, bytes_of_snoc.
      by rewrite <- !app_assoc. }
  rewrite Hgen by lia. by rewrite Nat.sub_diag, app_nil_r.
Qed.

(** ** [FunctionStringRepeat] on whole columns *)

(** A round of the row loop of [repeat] for a count that passes the
    assertion: the string of the row is pushed [n] times over. *)
Lemma repeat_row_value dcheck_is_on data offsets repeats i s n res_data res_offsets :
  string_at data offsets i = Ok s → lengthZ s <= INT32_MAX →
  repeats !! i = Some n →
  (dcheck_is_on = true → lengthZ s * n <= INT32_MAX) →
  FunctionStringRepeat.repeat_row dcheck_is_on data offsets repeats i (res_data, res_offsets)
  = StringOP.push_value_string (mjoin (replicate (Z.to_nat n) s)) i res_data res_offsets.
Proof.
  intros Hs Hmax Hn Hcheck.
  pose proof (string_at_size _ _ _ _ Hs Hmax) as Hsize.
  apply row_size_Ok in Hsize as (o & p & Ho & Hp & Hsize).
  apply string_at_Ok in Hs as (o' & p' & Ho' & Hp' & Hs).
  rewrite Ho in Ho'. rewrite Hp in Hp'. injection Ho' as <-. injection Hp' as <-.
  unfold FunctionStringRepeat.repeat_row. apply get_Ok in Hn.
  rewrite Ho, ret_bind, Hp, ret_bind, Hn, ret_bind. rewrite <- Hsize.
  assert (DCHECK dcheck_is_on (lengthZ s * n <=? INT32_MAX) = Ok ()) as ->.
  { apply DCHECK_Ok. destruct dcheck_is_on; [right|by left]. apply Z.leb_le. by apply Hcheck. }
  rewrite ret_bind.
  pose proof (slice_length _ _ _ _ Hs) as Hlen. rewrite <- Hlen in Hs.
  by rewrite (append_loop _ _ _ _ _ _ _ Hs), ret_bind.
Qed.

(** X1.  On a string column that holds [rows], with a count for every row,
    [repeat] returns the string column whose row [i] is the string of row
    [i] repeated [repeats[i]] times (no time for a count that is not
    positive), provided that in a build with assertions no row has
    [size * n] over [INT32_MAX]: so does [vector_vector], and so does
    [executeImpl] for argument columns that are these columns, constant or
    not; the column it writes is not nullable, and has the rows of the
    string column whatever [input_rows_count] is. *)
Theorem repeat_column dcheck_is_on (rows : list (list Z)) (repeats : list Z) :
  (length rows <= length repeats)%nat →
  Forall (fun s : list Z => lengthZ s <= INT32_MAX) rows →
  (dcheck_is_on = true →
   ∀ i s n, rows !! i = Some s → repeats !! i = Some n → lengthZ s * n <= INT32_MAX) →
  FunctionStringRepeat.vector_vector dcheck_is_on (bytes_of rows) (ends rows) repeats [] []
  = Ok (bytes_of (repeat_row_of rows repeats <$> seq 0 (length rows)),
        ends (repeat_row_of rows repeats <$> seq 0 (length rows))) ∧
  ∀ block a0 a1 result_pos n e0 e1 e_res,
    block !! a0 = Some e0 → block !! a1 = Some e1 → block !! result_pos = Some e_res →
    convertToFullColumnIfConst (column e0) = Ok (encode rows) →
    convertToFullColumnIfConst (column e1) = Ok (ColumnInt32 repeats) →
    FunctionStringRepeat.executeImpl dcheck_is_on block [a0; a1] result_pos n
    = Ok (<[result_pos :=
             mkColumn (encode (repeat_row_of rows repeats <$> seq 0 (length rows)))
               (type e_res) (name e_res)]> block).
Proof.
  intros Hlen Hmax Hcheck.
  assert (FunctionStringRepeat.vector_vector dcheck_is_on (bytes_of rows) (ends rows)
            repeats [] []
          = Ok (bytes_of (repeat_row_of rows repeats <$> seq 0 (length rows)),
                ends (repeat_row_of rows repeats <$> seq 0 (length rows)))) as Hvector.
  { unfold FunctionStringRepeat.vector_vector.
    rewrite length_ends. apply push_values_loop.
    intros i res_data res_offsets Hi.
    destruct (lookup_lt_is_Some_2 rows i Hi) as [s Hs].
    destruct (lookup_lt_is_Some_2 repeats i) as [n Hn]; [lia|].
    unfold repeat_row_of. rewrite Hs, Hn. simpl.
    apply repeat_row_value; [by apply encode_string_at | | done |].
    - by apply (proj1 (Forall_lookup _ _) Hmax _ _ Hs).
    - intros Hd. by eapply Hcheck. }
  split; [done|].
  intros block a0 a1 result_pos n e0 e1 e_res H0 H1 Hres Hc0 Hc1.
  unfold FunctionStringRepeat.executeImpl.
  change (bool_decide (length [a0; a1] = 2%nat)) with true.
  rewrite DCHECK_true, ret_bind.
  change (get [a0; a1] 0) with (Ok a0). rewrite ret_bind.
  unfold BlockOps.getByPosition. rewrite (proj2 (get_Ok _ _ _) H0), ret_bind, Hc0, ret_bind.
  change (get [a0; a1] 1) with (Ok a1). rewrite ret_bind.
  rewrite (proj2 (get_Ok _ _ _) H1), ret_bind, Hc1, ret_bind.
  unfold encode at 1. rewrite Hvector, ret_bind.
  by rewrite (set_column_Ok _ _ _ _ Hres).
Qed.

Lemma repeat_column_witness :
  let rows := [[97; 98]; [120]; [121]] in
  FunctionStringRepeat.vector_vector true (bytes_of rows) (ends rows) [3; 0; -1] [] []
  = Ok (bytes_of (repeat_row_of rows [3; 0; -1] <$> seq 0 3),
        ends (repeat_row_of rows [3; 0; -1] <$> seq 0 3)) ∧
  ∀ block a0 a1 result_pos n e0 e1 e_res,
    block !! a0 = Some e0 → block !! a1 = Some e1 → block !! result_pos = Some e_res →
    convertToFullColumnIfConst (column e0) = Ok (encode rows) →
    convertToFullColumnIfConst (column e1) = Ok (ColumnInt32 [3; 0; -1]) →
    FunctionStringRepeat.executeImpl true block [a0; a1] result_pos n
    = Ok (<[result_pos :=
             mkColumn (encode (repeat_row_of rows [3; 0; -1] <$> seq 0 3))
               (type e_res) (name e_res)]> block).
Proof.
  intros rows.
  apply (repeat_column true rows [3; 0; -1]).
  - simpl. lia.
  - repeat constructor; vm_compute; discriminate.
  - intros _ i s n Hs Hn.
    destruct i as [|[|[|i]]]; simpl in Hs, Hn; inversion Hs; inversion Hn; subst;
      vm_compute; discriminate.
Defined.

(** X2.  [repeat] answers a runtime error that names the function, and
    writes no column, when its first argument is not a string column or its
    second one not a column of [Int32] (constant columns being made full
    first); a nullable column is such a column. *)
Theorem repeat_unsupported_arguments dcheck_is_on block a0 a1 result_pos n e0 e1 c0 c1 :
  block !! a0 = Some e0 → block !! a1 = Some e1 →
  convertToFullColumnIfConst (column e0) = Ok c0 →
  convertToFullColumnIfConst (column e1) = Ok c1 →
  (∀ chars offsets, c0 ≠ ColumnString chars offsets) ∨ (∀ data, c1 ≠ ColumnInt32 data) →
  FunctionStringRepeat.executeImpl dcheck_is_on block [a0; a1] result_pos n
  = RuntimeError "not support repeat".
Proof.
  intros H0 H1 Hc0 Hc1 Hbad. unfold FunctionStringRepeat.executeImpl.
  change (bool_decide (length [a0; a1] = 2%nat)) with true.
  rewrite DCHECK_true, ret_bind.
  change (get [a0; a1] 0) with (Ok a0). rewrite ret_bind.
  unfold BlockOps.getByPosition. rewrite (proj2 (get_Ok _ _ _) H0), ret_bind, Hc0, ret_bind.
  change (get [a0; a1] 1) with (Ok a1). rewrite ret_bind.
  rewrite (proj2 (get_Ok _ _ _) H1), ret_bind, Hc1, ret_bind.
  destruct Hbad as [Hbad|Hbad].
  - destruct c0; try done. by destruct (Hbad chars offsets).
  - destruct c0, c1; try done. by destruct (Hbad data).
Qed.

Lemma repeat_unsupported_arguments_witness :
  let e0 := mkColumn (ColumnNullable (ColumnString [97; 0] [2]) [0])
              (DataTypeNullable DataTypeString) "s" in
  let e1 := mkColumn (ColumnInt32 [2]) DataTypeInt32 "n" in
  let e_res := mkColumn (ColumnUInt8 []) DataTypeString "result" in
  FunctionStringRepeat.executeImpl true [e0; e1; e_res] [0; 1]%nat 2 1
  = RuntimeError "not support repeat".
Proof.
  intros e0 e1 e_res.
  apply (repeat_unsupported_arguments true [e0; e1; e_res] 0 1 2 1 e0 e1
           (ColumnNullable (ColumnString [97; 0] [2]) [0]) (ColumnInt32 [2]));
    [reflexivity | reflexivity | reflexivity | reflexivity |].
  left. intros chars offsets. discriminate.
Defined.

(** ** [FunctionStringConcatWs] on whole columns *)

(** One round of the loop over the arguments of [concat_ws]. *)
Lemma concat_ws_normalize_step block arguments n j a (arg : argument_rows)
    acs (pre_o pre_c pre_n : list (list Z)) m :
  arguments !! j = Some a → ws_argument block n a arg →
  (j < length acs)%nat → length pre_o = j → length pre_c = j → length pre_n = j →
  ∃ acs', length acs' = length acs ∧
    FunctionStringConcatWs.normalize_argument block arguments (replicate n 0) j
      (acs, pre_o ++ replicate (Datatypes.S m) [], pre_c ++ replicate (Datatypes.S m) [],
       pre_n ++ replicate (Datatypes.S m) [])
    = Ok (acs', (pre_o ++ [ends arg.1]) ++ replicate m [],
          (pre_c ++ [bytes_of arg.1]) ++ replicate m [],
          (pre_n ++ [arg.2]) ++ replicate m []).
Proof.
  intros Ha (e & c & He & Hc & Hshape & Hrows) Hacs Hpo Hpc Hpn.
  unfold FunctionStringConcatWs.normalize_argument, BlockOps.getByPosition.
  apply get_Ok in Ha. apply get_Ok in He. rewrite Ha, ret_bind, He, ret_bind, Hc, ret_bind.
  assert (∀ (pre : list (list Z)) (x : list Z), length pre = j →
    set_at (pre ++ replicate (Datatypes.S m) []) j x = Ok ((pre ++ [x]) ++ replicate m []))
    as Hset.
  { intros pre x Hpre. unfold set_at.
    rewrite bool_decide_true by (rewrite length_app, length_replicate; lia).
    by rewrite insert_middle_replicate. }
  rewrite (set_at_lt acs) by done. rewrite ret_bind.
  destruct Hshape as [[-> Hzeros] | ->].
  - unfold encode. rewrite (Hset pre_n) by done. rewrite !ret_bind.
    unfold get. rewrite list_lookup_insert_eq by done. rewrite !ret_bind.
    simpl deref. rewrite !ret_bind. simpl assert_cast_ColumnString. rewrite !ret_bind.
    rewrite (Hset pre_o) by done. rewrite ret_bind.
    rewrite (Hset pre_c) by done. rewrite ret_bind.
    eexists. split; [apply length_insert|]. by rewrite Hzeros.
  - rewrite (set_at_lt (<[j := _]> acs)) by (by rewrite length_insert). rewrite ret_bind.
    rewrite (Hset pre_n) by done. rewrite !ret_bind.
    unfold get. rewrite list_lookup_insert_eq by (by rewrite length_insert).
    rewrite !ret_bind.
    simpl deref. rewrite !ret_bind. unfold encode. simpl assert_cast_ColumnString.
    rewrite !ret_bind.
    rewrite (Hset pre_o) by done. rewrite ret_bind.
    rewrite (Hset pre_c) by done. rewrite ret_bind.
    eexists. split; [|reflexivity]. by rewrite !length_insert.
Qed.

(** The loop over the arguments, for a call with at most three of them
    (the size of [argument_columns]). *)
Lemma concat_ws_normalize block arguments (args : list argument_rows) n :
  Forall2 (ws_argument block n) arguments args → (length arguments <= 3)%nat →
  ∃ acs,
    for_range 0 (length arguments)
      (FunctionStringConcatWs.normalize_argument block arguments (replicate n 0))
      (replicate 3 None, replicate (length arguments) [],
       replicate (length arguments) [], replicate (length arguments) [])
    = Ok (acs, (fun arg : argument_rows => ends arg.1) <$> args,
          (fun arg : argument_rows => bytes_of arg.1) <$> args,
          (fun arg : argument_rows => arg.2) <$> args).
Proof.
  intros Hargs Hthree. pose proof (Forall2_length _ _ _ Hargs) as Hlen.
  set (k := length arguments) in *.
  assert (∀ j, (j <= k)%nat → ∃ acs, length acs = 3%nat ∧
    for_range 0 j (FunctionStringConcatWs.normalize_argument block arguments (replicate n 0))
      (replicate 3 None, replicate k [], replicate k [], replicate k [])
    = Ok (acs,
          ((fun arg : argument_rows => ends arg.1) <$> take j args) ++ replicate (k - j) [],
          ((fun arg : argument_rows => bytes_of arg.1) <$> take j args) ++ replicate (k - j) [],
          ((fun arg : argument_rows => arg.2) <$> take j args) ++ replicate (k - j) []))
    as Hgen.
  { induction j as [|j IH]; intros Hj.
    - exists (replicate 3 None). split; [done|]. simpl. by rewrite Nat.sub_0_r.
    - destruct IH as (acs & Hacs & IH); [lia|].
      rewrite for_range_snoc, IH, ret_bind, Nat.add_0_l.
      destruct (lookup_lt_is_Some_2 arguments j) as [a Ha]; [unfold k in *; lia|].
      destruct (lookup_lt_is_Some_2 args j) as [arg Harg]; [lia|].
      pose proof (Forall2_lookup_lr _ _ _ _ _ _ Hargs Ha Harg) as Hstr.
      replace (k - j)%nat with (Datatypes.S (k - Datatypes.S j)) by lia.
      destruct (concat_ws_normalize_step block arguments n j a arg acs
                  ((fun arg : argument_rows => ends arg.1) <$> take j args)
                  ((fun arg : argument_rows => bytes_of arg.1) <$> take j args)
                  ((fun arg : argument_rows => arg.2) <$> take j args)
                  (k - Datatypes.S j) Ha Hstr)
        as (acs' & Hacs' & Hstep);
        [lia | rewrite length_fmap, length_take; lia
        | rewrite length_fmap, length_take; lia
        | rewrite length_fmap, length_take; lia |].
      exists acs'. split; [lia|]. rewrite Hstep.
      by rewrite (take_S_r _ _ _ Harg), !fmap_app. }
  destruct (Hgen k) as (acs & _ & Hrun); [lia|]. exists acs. rewrite Hrun.
  rewrite Nat.sub_diag. simpl. rewrite !app_nil_r, take_ge by lia. done.
Qed.

(** X3.  A call of [concat_ws] with a separator and one or two string
    arguments, each a string column of [n] rows that may be constant or
    nullable, writes a nullable string column whose null map is the one of
    the separator and whose row [i] is empty where the separator is null,
    and else the strings of the arguments that are not null in row [i]
    joined with the separator: a null argument is skipped and does not make
    the row null. *)
Theorem concat_ws_rows dcheck_is_on block arguments result_pos n e_res
    (sep : argument_rows) (rest : list argument_rows) :
  Forall2 (ws_argument block n) arguments (sep :: rest) →
  (2 <= length arguments <= 3)%nat →
  block !! result_pos = Some e_res →
  FunctionStringConcatWs.executeImpl dcheck_is_on block arguments result_pos n
  = Ok (<[result_pos :=
           mkColumn (ColumnNullable (encode (ws_row_of sep rest <$> seq 0 n)) sep.2)
             (type e_res) (name e_res)]> block).
Proof.
  intros Hargs Hlen Hres. pose proof (Forall2_length _ _ _ Hargs) as Hk.
  assert (Forall (rows_ok n) (sep :: rest)) as Hall.
  { apply Forall_forall. intros arg Harg.
    apply list_elem_of_lookup in Harg as [j Hj].
    destruct (Forall2_lookup_r _ _ _ _ _ Hargs Hj) as (a & _ & Hstr).
    by destruct Hstr as (? & ? & ? & ? & ? & ?). }
  destruct (proj1 (Forall_cons _ _ _) Hall) as [(Hrows & Hflags & Hmax) _].
  unfold FunctionStringConcatWs.executeImpl.
  rewrite (bool_decide_true (2 <= length arguments)%nat) by lia.
  rewrite DCHECK_true, ret_bind.
  destruct (concat_ws_normalize _ _ _ _ Hargs) as (acs & ->); [lia|]. rewrite ret_bind.
  assert (get ((fun arg : argument_rows => arg.2) <$> sep :: rest) 0 = Ok sep.2) as ->
    by done.
  rewrite ret_bind, update_null_map_zeros, ret_bind by lia. rewrite take_ge by lia.
  rewrite Hk.
  rewrite (push_values_loop _ (ws_row_of sep rest)).
  - rewrite ret_bind. by rewrite (set_column_Ok _ _ _ _ Hres).
  - intros i res_data res_offsets Hi.
    rewrite (concat_ws_row_joins sep rest n i) by done. unfold ws_row_of.
    by destruct (default 0 (sep.2 !! i) =? 0).
Qed.

Lemma concat_ws_rows_witness :
  let c_sep := ColumnNullable (ColumnString [44; 0; 44; 0] [2; 4]) [0; 1] in
  let c_a := ColumnConst (ColumnString [97; 0] [2]) 2 in
  let c_b := ColumnNullable (ColumnString [120; 0; 0] [2; 3]) [0; 1] in
  let e_res := mkColumn (ColumnUInt8 []) (DataTypeNullable DataTypeString) "result" in
  let block := [mkColumn c_sep (DataTypeNullable DataTypeString) "sep";
                mkColumn c_a DataTypeString "a";
                mkColumn c_b (DataTypeNullable DataTypeString) "b"; e_res] in
  let sep : argument_rows := ([[44]; [44]], [0; 1]) in
  let rest : list argument_rows := [([[97]; [97]], [0; 0]); ([[120]; []], [0; 1])] in
  FunctionStringConcatWs.executeImpl true block [0; 1; 2]%nat 3 2
  = Ok (<[3%nat :=
           mkColumn (ColumnNullable (encode (ws_row_of sep rest <$> seq 0 2)) sep.2)
             (type e_res) (name e_res)]> block).
Proof.
  intros c_sep c_a c_b e_res block sep rest.
  apply (concat_ws_rows true block [0; 1; 2]%nat 3 2 e_res sep rest).
  - constructor; [|constructor; [|constructor; [|constructor]]].
    + exists (mkColumn c_sep (DataTypeNullable DataTypeString) "sep"), c_sep.
      split; [reflexivity|]. split; [reflexivity|]. split; [right; reflexivity|].
      split; [reflexivity|]. split; [reflexivity|].
      repeat constructor; vm_compute; discriminate.
    + exists (mkColumn c_a DataTypeString "a"), (ColumnString [97; 0; 97; 0] [2; 4]).
      split; [reflexivity|]. split; [reflexivity|]. split; [left; split; reflexivity|].
      split; [reflexivity|]. split; [reflexivity|].
      repeat constructor; vm_compute; discriminate.
    + exists (mkColumn c_b (DataTypeNullable DataTypeString) "b"), c_b.
      split; [reflexivity|]. split; [reflexivity|]. split; [right; reflexivity|].
      split; [reflexivity|]. split; [reflexivity|].
      repeat constructor; vm_compute; discriminate.
  - simpl. lia.
  - reflexivity.
Defined.

(** ** The inner loop of [substring] in closed form *)

Lemma char_slots_lt str_size w k :
  1 <= w → k < char_slots str_size w ↔ k * w < str_size.
Proof.
  intros Hw. unfold char_slots.
  pose proof (Z.div_mod (str_size + w - 1) w ltac:(lia)) as Hdiv.
  pose proof (Z.mod_pos_bound (str_size + w - 1) w ltac:(lia)) as Hmod.
  split; intros H; nia.
Qed.

Lemma char_slots_nonneg str_size w : 1 <= w → 0 <= str_size → 0 <= char_slots str_size w.
Proof. intros Hw Hs. unfold char_slots. apply Z.div_pos; lia. Qed.

Lemma char_slots_le str_size w : 1 <= w → 0 <= str_size → char_slots str_size w <= str_size.
Proof.
  intros Hw Hs.
  destruct (decide (char_slots str_size w <= str_size)) as [|Hgt]; [done|].
  assert (str_size < char_slots str_size w) as Hlt by lia.
  apply char_slots_lt in Hlt; [nia|done].
Qed.

Lemma length_grid w m : length (grid w m) = m.
Proof. unfold grid. by rewrite length_fmap, length_seq. Qed.

Lemma lengthZ_grid w m : lengthZ (grid w m) = Z.of_nat m.
Proof. unfold lengthZ. by rewrite length_grid. Qed.

Lemma grid_S w m : grid w (Datatypes.S m) = grid w m ++ [Z.of_nat m * w].
Proof. unfold grid. by rewrite seq_S, fmap_app. Qed.

Lemma getZ_grid w m x : 0 <= x < Z.of_nat m → getZ (grid w m) x = Ok (x * w).
Proof.
  intros Hx. unfold getZ. rewrite lengthZ_grid, bool_decide_true by done.
  apply get_Ok. unfold grid. rewrite list_lookup_fmap, lookup_seq_lt by lia.
  simpl. by rewrite Z2Nat.id by lia.
Qed.

Lemma scan_eq fuel chars raw_str i str_size start_i len_i j index :
  FunctionSubstring.scan fuel chars raw_str i str_size start_i len_i j index
  = if j <? to_size_t str_size then
      match fuel with
      | O => Undefined
      | Datatypes.S fuel' =>
          byte ← read_padded chars (raw_str + Z.of_nat i);
          if (0 <? start_i)
             && (to_size_t (to_int32 (start_i + len_i)) <? lengthZ (index ++ [j]))
          then Ok (index ++ [j])
          else FunctionSubstring.scan fuel' chars raw_str i str_size start_i len_i
                 (to_size_t (j + get_utf8_byte_length byte)) (index ++ [j])
      end
    else Ok index.
Proof. by destruct fuel. Qed.

(** The inner loop from its round [k] on: the index holds the offsets of
    the characters of width [w] met so far, and the loop ends with
    [scan_count] of them. *)
Lemma scan_grid_from chars raw_str i str_size start_i len_i byte fuel : ∀ k : nat,
  0 < str_size < 2 ^ 31 →
  read_padded chars (raw_str + Z.of_nat i) = Ok byte →
  (Z.to_nat (str_size - Z.of_nat k * get_utf8_byte_length byte) <= fuel)%nat →
  Z.of_nat k <= char_slots str_size (get_utf8_byte_length byte) →
  (0 < start_i → Z.of_nat k <= to_size_t (to_int32 (start_i + len_i))) →
  FunctionSubstring.scan fuel chars raw_str i str_size start_i len_i
    (Z.of_nat k * get_utf8_byte_length byte) (grid (get_utf8_byte_length byte) k)
  = Ok (grid (get_utf8_byte_length byte)
          (Z.to_nat (scan_count str_size (get_utf8_byte_length byte) start_i len_i))).
Proof.
  pose proof (get_utf8_byte_length_bounds byte) as Hw.
  set (w := get_utf8_byte_length byte) in *.
  induction fuel as [|fuel IH]; intros k Hsize Hbyte Hfuel Hk Hlimit;
    rewrite scan_eq, (to_size_t_small str_size) by lia;
    pose proof (char_slots_lt str_size w (Z.of_nat k) ltac:(lia)) as Hslot;
    destruct (Z.of_nat k * w <? str_size) eqn:Hlt;
    try apply Z.ltb_lt in Hlt; try apply Z.ltb_ge in Hlt; try lia.
  - f_equal. f_equal. unfold scan_count.
    destruct (Z.ltb_spec 0 start_i) as [Hpos|Hpos]; simpl; [|lia].
    rewrite (proj2 (Z.ltb_ge _ _)) by lia. lia.
  - rewrite Hbyte, ret_bind. fold w. rewrite <- grid_S, lengthZ_grid.
    destruct (Z.ltb_spec 0 start_i) as [Hpos|Hpos]; simpl.
    + destruct (Z.ltb_spec (to_size_t (to_int32 (start_i + len_i)))
                  (Z.of_nat (Datatypes.S k))) as [Hbreak|Hgo].
      * f_equal. f_equal. unfold scan_count.
        rewrite (proj2 (Z.ltb_lt 0 start_i)) by done. simpl.
        rewrite (proj2 (Z.ltb_lt _ _)) by lia. lia.
      * rewrite to_size_t_small by lia.
        replace (Z.of_nat k * w + w) with (Z.of_nat (Datatypes.S k) * w) by lia.
        apply IH; try done; lia.
    + rewrite to_size_t_small by lia.
      replace (Z.of_nat k * w + w) with (Z.of_nat (Datatypes.S k) * w) by lia.
      apply IH; try done; lia.
  - f_equal. f_equal. unfold scan_count.
    destruct (Z.ltb_spec 0 start_i) as [Hpos|Hpos]; simpl; [|lia].
    rewrite (proj2 (Z.ltb_ge _ _)) by lia. lia.
Qed.

(** The inner loop as [vector] runs it. *)
Lemma scan_grid chars raw_str i str_size start_i len_i byte :
  0 < str_size < 2 ^ 31 →
  read_padded chars (raw_str + Z.of_nat i) = Ok byte →
  FunctionSubstring.scan (Z.to_nat str_size) chars raw_str i str_size start_i len_i 0 []
  = Ok (grid (get_utf8_byte_length byte)
          (Z.to_nat (scan_count str_size (get_utf8_byte_length byte) start_i len_i))).
Proof.
  intros Hsize Hbyte. pose proof (get_utf8_byte_length_bounds byte) as Hw.
  apply (scan_grid_from chars raw_str i str_size start_i len_i byte (Z.to_nat str_size) 0);
    try done; try lia.
  - apply char_slots_nonneg; lia.
  - intros _. unfold to_size_t. simpl. apply Z.mod_pos_bound. lia.
Qed.

Lemma scan_count_bounds str_size w start_i len_i :
  1 <= w → 0 < str_size →
  1 <= scan_count str_size w start_i len_i <= char_slots str_size w.
Proof.
  intros Hw Hsize. unfold scan_count.
  assert (0 < char_slots str_size w) as Hslots by (apply char_slots_lt; lia).
  assert (0 <= to_size_t (to_int32 (start_i + len_i)))
    by (unfold to_size_t; apply Z.mod_pos_bound; lia).
  destruct (0 <? start_i); simpl; [|lia].
  destruct (Z.ltb_spec (to_size_t (to_int32 (start_i + len_i))) (char_slots str_size w)); lia.
Qed.

(** ** The resolver of [substring] on the index of the inner loop *)

Lemma to_int32_to_size_t z : to_int32 (to_size_t z) = to_int32 z.
Proof.
  unfold to_int32, to_size_t.
  pose proof (Z.div_mod z (2 ^ 64) ltac:(lia)) as H.
  assert ((z + 2 ^ 31) `mod` 2 ^ 32 = (z `mod` 2 ^ 64 + 2 ^ 31) `mod` 2 ^ 32) as ->; [|done].
  replace (z + 2 ^ 31) with (z `mod` 2 ^ 64 + 2 ^ 31 + (2 ^ 32 * (z `div` 2 ^ 64)) * 2 ^ 32)
    by lia.
  by rewrite Z_mod_plus_full.
Qed.

Lemma to_size_t_add_l a b c : to_size_t (a + to_size_t b + c) = to_size_t (a + b + c).
Proof.
  unfold to_size_t. replace (a + b `mod` 2 ^ 64 + c) with (b `mod` 2 ^ 64 + (a + c)) by lia.
  rewrite Zplus_mod_idemp_l. f_equal. lia.
Qed.

Lemma to_size_t_negative z : - 2 ^ 64 <= z < 0 → to_size_t z = z + 2 ^ 64.
Proof.
  intros Hz. unfold to_size_t. rewrite <- (Z_mod_plus_full z 1 (2 ^ 64)).
  rewrite Z.mod_small; lia.
Qed.

Lemma to_int32_wraps z : 2 ^ 31 <= z < 2 ^ 32 → to_int32 z = z - 2 ^ 32.
Proof.
  intros Hz. unfold to_int32. rewrite <- (Z_mod_plus_full (z + 2 ^ 31) (-1) (2 ^ 32)).
  rewrite Z.mod_small; lia.
Qed.

(** A part of a row is read from the row. *)
Lemma slice_sub chars p (s : list Z) a b :
  slice chars p (lengthZ s) = Ok s → 0 <= a → 0 <= b → a + b <= lengthZ s →
  slice chars (p + a) b = Ok (take (Z.to_nat b) (drop (Z.to_nat a) s)).
Proof.
  intros (Hp & _ & Hle & Hs)%slice_Ok Ha Hb Hab. apply slice_Ok.
  repeat split; try lia.
  remember (Z.to_nat (lengthZ s)) as n eqn:Hn. rewrite Hs.
  rewrite skipn_firstn_comm, take_take, drop_drop.
  f_equal; [lia | f_equal; lia].
Qed.

(** The resolver on the index of the characters of width [w], for a
    position [fp] that is resolved inside the index: the span of [len]
    characters from character [fp], cut at the end of the row. *)
Lemma vector_row_span_grid chars p (s : list Z) w m start_i len_i fp i
    null_map res_chars res_offsets :
  slice chars p (lengthZ s) = Ok s → lengthZ s < 2 ^ 31 → 1 <= w <= 6 →
  (Z.of_nat m - 1) * w < lengthZ s →
  - 2 ^ 31 <= start_i < 2 ^ 31 → 0 < len_i < 2 ^ 31 →
  fp = (if start_i <? 0 then Z.of_nat m + start_i + 1 else start_i) →
  1 <= fp <= Z.of_nat m →
  (Z.of_nat m < fp + len_i → lengthZ s <= (fp + len_i - 1) * w) →
  FunctionSubstring.vector_row_span chars p (lengthZ s) start_i len_i (grid w m) i
    (null_map, res_chars, res_offsets)
  = ('(res_chars, res_offsets) ←
       StringOP.push_value_string (span w s (fp - 1) len_i) i res_chars res_offsets;
     Ok (null_map, res_chars, res_offsets)).
Proof.
  intros Hs Hsize Hw Hin Hstart Hlen Hfp Hrange Hrest.
  assert ((fp - 1) * w < lengthZ s) as Hbp by nia.
  assert (0 <= (fp - 1) * w) as Hbp0 by nia.
  assert (Z.of_nat m <= lengthZ s) as Hm by nia.
  unfold FunctionSubstring.vector_row_span. cbv zeta. rewrite lengthZ_grid.
  assert ((if start_i <? 0
           then to_int32 (to_size_t (Z.of_nat m + to_size_t start_i + 1))
           else start_i) = fp) as ->.
  { rewrite Hfp. destruct (start_i <? 0) eqn:Hneg; [|done].
    apply Z.ltb_lt in Hneg. rewrite to_size_t_add_l, to_int32_to_size_t.
    apply to_int32_small. lia. }
  rewrite (to_size_t_small fp) by lia.
  rewrite (proj2 (Z.ltb_ge (Z.of_nat m) fp)) by lia.
  rewrite (to_int32_small (fp - 1)), (to_size_t_small (fp - 1)) by lia.
  rewrite (getZ_grid w m (fp - 1)) by lia. rewrite ret_bind.
  rewrite (to_size_t_small (lengthZ s)) by lia.
  rewrite (to_size_t_small (lengthZ s - (fp - 1) * w)) by lia.
  rewrite (to_int32_small (lengthZ s - (fp - 1) * w)) by lia.
  rewrite (proj2 (Z.leb_le ((fp - 1) * w) (lengthZ s))) by lia.
  destruct (decide (fp + len_i <= Z.of_nat m)) as [Hfit|Hcut].
  - rewrite (to_int32_small (fp + len_i)) by lia.
    rewrite (to_size_t_small (fp + len_i)) by lia.
    rewrite (proj2 (Z.leb_le (fp + len_i) (Z.of_nat m))) by lia.
    rewrite (to_int32_small (fp + len_i - 1)), (to_size_t_small (fp + len_i - 1)) by lia.
    rewrite (getZ_grid w m (fp + len_i - 1)) by lia. rewrite !ret_bind.
    replace ((fp + len_i - 1) * w - (fp - 1) * w) with (len_i * w) by lia.
    assert (0 < len_i * w) as Hpos by nia.
    assert ((fp - 1) * w + len_i * w <= lengthZ s) as Hend by nia.
    rewrite (to_size_t_small (len_i * w)) by lia.
    rewrite (to_int32_small (len_i * w)) by lia.
    rewrite (proj2 (Z.ltb_lt 0 (len_i * w))) by lia. cbn [andb].
    rewrite (to_size_t_small (len_i * w)) by lia.
    by rewrite (slice_sub chars p s ((fp - 1) * w) (len_i * w)) by (done || lia).
  - assert ((to_size_t (to_int32 (fp + len_i)) <=? Z.of_nat m) = false) as ->.
    { apply Z.leb_gt. destruct (decide (fp + len_i < 2 ^ 31)) as [Hsmall|Hbig].
      - rewrite to_int32_small, to_size_t_small by lia. lia.
      - rewrite to_int32_wraps, to_size_t_negative by lia. lia. }
    rewrite ret_bind.
    rewrite (proj2 (Z.ltb_lt 0 (lengthZ s - (fp - 1) * w))) by lia. cbn [andb].
    rewrite (to_size_t_small (lengthZ s - (fp - 1) * w)) by lia.
    rewrite (slice_sub chars p s ((fp - 1) * w) (lengthZ s - (fp - 1) * w)) by (done || lia).
    unfold span.
    assert (lengthZ s - (fp - 1) * w <= len_i * w) as Hcover
      by (specialize (Hrest ltac:(lia)); nia).
    assert (length (drop (Z.to_nat ((fp - 1) * w)) s)
            = Z.to_nat (lengthZ s - (fp - 1) * w)) as Hl
      by (rewrite length_drop; unfold lengthZ; lia).
    by rewrite !take_ge by (rewrite Hl; lia).
Qed.

(** The resolver when the position is behind the last entry of the
    index, or, counted from the end, more than one character before the
    first one. *)
Lemma vector_row_span_null chars raw_str str_size start_i len_i index i
    null_map res_chars res_offsets :
  - 2 ^ 31 <= start_i < 2 ^ 31 → lengthZ index < 2 ^ 31 →
  (if start_i <? 0 then lengthZ index + start_i + 1 < 0 else lengthZ index < start_i) →
  FunctionSubstring.vector_row_span chars raw_str str_size start_i len_i index i
    (null_map, res_chars, res_offsets)
  = StringOP.push_null_string i res_chars res_offsets null_map.
Proof.
  intros Hstart Hindex Hpast. pose proof (lengthZ_nonneg index) as H0.
  unfold FunctionSubstring.vector_row_span. cbv zeta.
  destruct (start_i <? 0) eqn:Hneg.
  - apply Z.ltb_lt in Hneg. rewrite to_size_t_add_l, to_int32_to_size_t.
    rewrite (to_int32_small (lengthZ index + start_i + 1)) by lia.
    rewrite to_size_t_negative by lia.
    by rewrite (proj2 (Z.ltb_lt _ _)) by lia.
  - apply Z.ltb_ge in Hneg. rewrite to_size_t_small by lia.
    by rewrite (proj2 (Z.ltb_lt _ _)) by lia.
Qed.

(** The resolver for the position that is, counted from the end, one
    character before the first one: [fixed_pos] is [0] and the entry
    [index[fixed_pos - 1]] is read in front of the index. *)
Lemma vector_row_span_before_first chars raw_str str_size start_i len_i index i
    null_map res_chars res_offsets :
  - 2 ^ 31 <= start_i < 0 → lengthZ index + start_i + 1 = 0 →
  FunctionSubstring.vector_row_span chars raw_str str_size start_i len_i index i
    (null_map, res_chars, res_offsets)
  = Undefined.
Proof.
  intros Hstart Hzero. pose proof (lengthZ_nonneg index) as H0.
  unfold FunctionSubstring.vector_row_span. cbv zeta.
  rewrite (proj2 (Z.ltb_lt start_i 0)) by lia.
  rewrite to_size_t_add_l, to_int32_to_size_t, Hzero.
  change (to_size_t (to_int32 0)) with 0.
  rewrite (proj2 (Z.ltb_ge (lengthZ index) 0)) by lia.
  change (to_size_t (to_int32 (to_int32 0 - 1))) with (2 ^ 64 - 1).
  assert (getZ index (2 ^ 64 - 1) = Undefined) as ->; [|done].
  unfold getZ. by rewrite bool_decide_false by lia.
Qed.

(** The head of the round of a row that passes both exits: the inner
    loop runs and indexes characters of the width of the byte
    [raw_str[i]], and the resolver works on this index. *)
Lemma vector_row_scan chars offsets start len i (s : list Z) pos l p byte
    null_map res_chars res_offsets :
  string_at chars offsets i = Ok s → s ≠ [] → lengthZ s <= INT32_MAX →
  start !! i = Some pos → len !! i = Some l →
  pos <= lengthZ s → pos ≠ 0 → 0 < l →
  prev_offset offsets i = Ok p → read_padded chars (p + Z.of_nat i) = Ok byte →
  slice chars p (lengthZ s) = Ok s ∧
  FunctionSubstring.vector_row chars offsets start len i (null_map, res_chars, res_offsets)
  = FunctionSubstring.vector_row_span chars p (lengthZ s) pos l
      (grid (get_utf8_byte_length byte)
         (Z.to_nat (scan_count (lengthZ s) (get_utf8_byte_length byte) pos l)))
      i (null_map, res_chars, res_offsets).
Proof.
  intros (o & p' & Ho & Hp' & Hs)%string_at_Ok Hne Hmax Hstart Hlen Hle Hnz Hl Hp Hbyte.
  rewrite Hp in Hp'. injection Hp' as <-.
  pose proof (slice_length _ _ _ _ Hs) as Hsize.
  assert (0 < lengthZ s) as Hpos.
  { destruct s; [done|]. unfold lengthZ. simpl. lia. }
  unfold INT32_MAX in Hmax. rewrite <- Hsize in Hs. split; [done|].
  unfold FunctionSubstring.vector_row.
  apply get_Ok in Hstart. apply get_Ok in Hlen.
  rewrite Ho, ret_bind, Hp, ret_bind, Hstart, ret_bind. rewrite <- Hsize.
  rewrite (to_int32_small (lengthZ s)) by lia.
  rewrite (proj2 (Z.ltb_ge _ _)) by lia.
  rewrite Hlen, ret_bind.
  rewrite (proj2 (Z.leb_gt l 0)), (proj2 (Z.eqb_neq (lengthZ s) 0)),
    (proj2 (Z.eqb_neq pos 0)) by lia.
  cbn [orb].
  by rewrite (scan_grid chars p i (lengthZ s) pos l byte), ret_bind by (done || lia).
Qed.

(** ** The rows of [substring] *)

(** What the round of a row pushed is the row of the output. *)
Lemma vector_output_value chars offsets start len null_map out i v :
  (i < length offsets)%nat →
  (∀ nm rc ro,
     FunctionSubstring.vector_row chars offsets start len i (nm, rc, ro)
     = ('(rc, ro) ← StringOP.push_value_string v i rc ro; Ok (nm, rc, ro))) →
  FunctionSubstring.vector chars offsets start len null_map [] [] = Ok out →
  row_is (chars_of out) (offsets_of out) i v ∧ null_of out !! i = null_map !! i.
Proof.
  intros Hi Hrow Hrun.
  destruct (vector_row_of_output _ _ _ _ _ _ _ Hrun Hi)
    as ([[nm rc] ro] & st' & payload & Hb & Hc & Hnm & Hnm' & Hr).
  rewrite Hrow in Hb. inv_all. apply app_payload_inv in Hc as <-.
  split; [done|]. by rewrite Hnm', <- Hnm.
Qed.

Lemma vector_output_null chars offsets start len null_map out i :
  (i < length offsets)%nat →
  (∀ nm rc ro,
     FunctionSubstring.vector_row chars offsets start len i (nm, rc, ro)
     = StringOP.push_null_string i rc ro nm) →
  FunctionSubstring.vector chars offsets start len null_map [] [] = Ok out →
  null_of out !! i = Some 1 ∧ row_is (chars_of out) (offsets_of out) i [].
Proof.
  intros Hi Hrow Hrun.
  destruct (vector_row_of_output _ _ _ _ _ _ _ Hrun Hi)
    as ([[nm rc] ro] & st' & payload & Hb & Hc & Hnm & Hnm' & Hr).
  rewrite Hrow in Hb. apply push_null_string_Ok in Hb as (Hlt1 & Hlt2 & ->).
  apply app_payload_inv in Hc as <-. split; [|done].
  rewrite Hnm'. unfold null_of. simpl. by apply list_lookup_insert_eq.
Qed.

Lemma string_at_row chars offsets i (s : list Z) :
  string_at chars offsets i = Ok s → (i < length offsets)%nat.
Proof. intros (o & p & Ho%get_Ok & _)%string_at_Ok. by eapply lookup_lt_Some. Qed.

Lemma lengthZ_pos (s : list Z) : s ≠ [] → 0 < lengthZ s.
Proof. destruct s; [done|]. unfold lengthZ. simpl. lia. Qed.

(** For a positive position the inner loop indexes every character, or
    stops behind the character that ends the span. *)
Lemma scan_count_positive str_size w pos l :
  1 <= w → 0 < str_size < 2 ^ 31 → 0 < pos < 2 ^ 31 → 0 < l < 2 ^ 31 →
  scan_count str_size w pos l = char_slots str_size w ∨
  scan_count str_size w pos l = pos + l + 1 ∧ pos + l < char_slots str_size w.
Proof.
  intros Hw Hsize Hpos Hl. unfold scan_count.
  pose proof (char_slots_le str_size w ltac:(lia) ltac:(lia)) as Hslots.
  rewrite (proj2 (Z.ltb_lt 0 pos)) by lia. cbn [andb].
  destruct (decide (pos + l < 2 ^ 31)) as [Hsmall|Hbig].
  - rewrite to_int32_small, to_size_t_small by lia.
    destruct (Z.ltb_spec (pos + l) (char_slots str_size w)); [by right | by left].
  - rewrite to_int32_wraps, to_size_t_negative by lia.
    rewrite (proj2 (Z.ltb_ge _ _)) by lia. by left.
Qed.

(** The round of a row for a positive position. *)
Lemma vector_row_positive chars offsets start len i (s : list Z) pos l p byte
    null_map res_chars res_offsets :
  string_at chars offsets i = Ok s → lengthZ s <= INT32_MAX →
  start !! i = Some pos → len !! i = Some l →
  0 < pos <= INT32_MAX → 0 < l <= INT32_MAX →
  prev_offset offsets i = Ok p → read_padded chars (p + Z.of_nat i) = Ok byte →
  FunctionSubstring.vector_row chars offsets start len i (null_map, res_chars, res_offsets)
  = if char_slots (lengthZ s) (get_utf8_byte_length byte) <? pos
    then StringOP.push_null_string i res_chars res_offsets null_map
    else
      '(res_chars, res_offsets) ←
        StringOP.push_value_string (span (get_utf8_byte_length byte) s (pos - 1) l)
          i res_chars res_offsets;
      Ok (null_map, res_chars, res_offsets).
Proof.
  intros Hs Hmax Hstart Hlen Hpos Hl Hp Hbyte.
  pose proof (get_utf8_byte_length_bounds byte) as Hw.
  set (w := get_utf8_byte_length byte) in *.
  pose proof (lengthZ_nonneg s) as Hs0. unfold INT32_MAX in *.
  pose proof (char_slots_le (lengthZ s) w ltac:(lia) ltac:(lia)) as Hslots.
  destruct (decide (lengthZ s < pos)) as [Hpast|Hin].
  { rewrite (proj2 (Z.ltb_lt _ _)) by lia.
    apply (vector_row_start_past_end _ _ _ _ _ (lengthZ s) pos); [|done|done].
    apply (string_at_size chars); [done | unfold INT32_MAX; lia]. }
  assert (s ≠ []) as Hne by (intros ->; unfold lengthZ in Hin; simpl in Hin; lia).
  destruct (vector_row_scan chars offsets start len i s pos l p byte
              null_map res_chars res_offsets) as [Hslice ->];
    try done; try (unfold INT32_MAX; lia). fold w.
  pose proof (scan_count_bounds (lengthZ s) w pos l ltac:(lia) ltac:(lia)) as Hm.
  pose proof (scan_count_positive (lengthZ s) w pos l) as Hcases.
  set (m := scan_count (lengthZ s) w pos l) in *.
  assert (Z.of_nat (Z.to_nat m) = m) as Hnat by lia.
  pose proof (char_slots_lt (lengthZ s) w (m - 1) ltac:(lia)) as Hlast.
  destruct (Z.ltb_spec (char_slots (lengthZ s) w) pos) as [Hnull|Hval].
  - apply vector_row_span_null; [lia | rewrite lengthZ_grid; lia |].
    rewrite (proj2 (Z.ltb_ge pos 0)), lengthZ_grid by lia.
    destruct Hcases as [Hall | [_ Hbreak]]; lia.
  - pose proof (char_slots_lt (lengthZ s) w (pos + l - 1) ltac:(lia)) as Hend.
    apply vector_row_span_grid; try done; try lia.
    by rewrite (proj2 (Z.ltb_ge pos 0)) by lia.
Qed.

(** X4.  [substring(s, pos, len)] with [pos > 0] and [len > 0], on a row
    whose round decodes a byte of width [w]: the row is cut into
    characters of [w] bytes; the result is NULL when [pos] is behind the
    last of them, and else the [len] characters from character [pos] on,
    cut at the end of the row. *)
Theorem substring_positive_start chars offsets start len i (s : list Z) pos l p byte :
  string_at chars offsets i = Ok s → lengthZ s <= INT32_MAX →
  start !! i = Some pos → len !! i = Some l →
  0 < pos <= INT32_MAX → 0 < l <= INT32_MAX →
  prev_offset offsets i = Ok p → getZ chars (p + Z.of_nat i) = Ok byte →
  (∀ null_map res_chars res_offsets,
     FunctionSubstring.vector_row chars offsets start len i
       (null_map, res_chars, res_offsets)
     = if char_slots (lengthZ s) (get_utf8_byte_length byte) <? pos
       then StringOP.push_null_string i res_chars res_offsets null_map
       else
         '(res_chars, res_offsets) ←
           StringOP.push_value_string (span (get_utf8_byte_length byte) s (pos - 1) l)
             i res_chars res_offsets;
         Ok (null_map, res_chars, res_offsets)) ∧
  (∀ null_map out,
     FunctionSubstring.vector chars offsets start len null_map [] [] = Ok out →
     if char_slots (lengthZ s) (get_utf8_byte_length byte) <? pos
     then null_of out !! i = Some 1 ∧ row_is (chars_of out) (offsets_of out) i []
     else row_is (chars_of out) (offsets_of out) i
            (span (get_utf8_byte_length byte) s (pos - 1) l) ∧
          null_of out !! i = null_map !! i).
Proof.
  intros Hs Hmax Hstart Hlen Hpos Hl Hp Hbyte. apply read_padded_getZ in Hbyte.
  pose proof (λ nm rc ro,
    vector_row_positive chars offsets start len i s pos l p byte nm rc ro
      Hs Hmax Hstart Hlen Hpos Hl Hp Hbyte) as Hrow.
  split; [done|]. intros null_map out Hrun.
  pose proof (string_at_row _ _ _ _ Hs) as Hi.
  destruct (char_slots (lengthZ s) (get_utf8_byte_length byte) <? pos).
  - by apply (vector_output_null _ _ _ _ _ _ _ Hi Hrow Hrun).
  - by apply (vector_output_value _ _ _ _ _ _ _ _ Hi Hrow Hrun).
Qed.

(** [substring(s, 1, l)] is the whole row for every length [l] that
    covers the row in characters of the width [w] that the round decodes:
    the number of bytes of the row, and also the number of characters of
    a row whose characters have the width [w]. *)
Lemma substring_whole_by_characters chars offsets start len i (s : list Z) l p byte
    null_map res_chars res_offsets :
  string_at chars offsets i = Ok s → s ≠ [] → lengthZ s <= INT32_MAX →
  start !! i = Some 1 → len !! i = Some l → 0 < l <= INT32_MAX →
  prev_offset offsets i = Ok p → read_padded chars (p + Z.of_nat i) = Ok byte →
  lengthZ s <= l * get_utf8_byte_length byte →
  FunctionSubstring.vector_row chars offsets start len i (null_map, res_chars, res_offsets)
  = ('(res_chars, res_offsets) ← StringOP.push_value_string s i res_chars res_offsets;
     Ok (null_map, res_chars, res_offsets)).
Proof.
  intros Hs Hne Hmax Hstart Hlen Hl Hp Hbyte Hcover.
  pose proof (get_utf8_byte_length_bounds byte) as Hw.
  pose proof (lengthZ_pos s Hne) as Hs0.
  rewrite (vector_row_positive _ _ _ _ _ s 1 l p byte)
    by (done || unfold INT32_MAX in *; lia).
  assert (0 < char_slots (lengthZ s) (get_utf8_byte_length byte)) as Hslots
    by (apply char_slots_lt; lia).
  rewrite (proj2 (Z.ltb_ge _ _)) by lia.
  unfold span. replace (Z.to_nat ((1 - 1) * get_utf8_byte_length byte)) with 0%nat by lia.
  rewrite drop_0, take_ge; [done|]. unfold lengthZ in *. lia.
Qed.

(** For a position that is not positive the inner loop indexes every
    character. *)
Lemma scan_count_negative str_size w pos l :
  pos <= 0 → scan_count str_size w pos l = char_slots str_size w.
Proof. intros Hpos. unfold scan_count. by rewrite (proj2 (Z.ltb_ge 0 pos)) by lia. Qed.

(** The round of a row for a negative position. *)
Lemma vector_row_negative chars offsets start len i (s : list Z) pos l p byte
    null_map res_chars res_offsets :
  string_at chars offsets i = Ok s → s ≠ [] → lengthZ s <= INT32_MAX →
  start !! i = Some pos → len !! i = Some l →
  - 2 ^ 31 <= pos < 0 → 0 < l <= INT32_MAX →
  prev_offset offsets i = Ok p → read_padded chars (p + Z.of_nat i) = Ok byte →
  char_slots (lengthZ s) (get_utf8_byte_length byte) + pos ≠ -1 →
  FunctionSubstring.vector_row chars offsets start len i (null_map, res_chars, res_offsets)
  = if char_slots (lengthZ s) (get_utf8_byte_length byte) + pos <? 0
    then StringOP.push_null_string i res_chars res_offsets null_map
    else
      '(res_chars, res_offsets) ←
        StringOP.push_value_string
          (span (get_utf8_byte_length byte) s
             (char_slots (lengthZ s) (get_utf8_byte_length byte) + pos) l)
          i res_chars res_offsets;
      Ok (null_map, res_chars, res_offsets).
Proof.
  intros Hs Hne Hmax Hstart Hlen Hpos Hl Hp Hbyte Hedge.
  pose proof (get_utf8_byte_length_bounds byte) as Hw.
  set (w := get_utf8_byte_length byte) in *.
  pose proof (lengthZ_pos s Hne) as Hs0. unfold INT32_MAX in *.
  pose proof (char_slots_le (lengthZ s) w ltac:(lia) ltac:(lia)) as Hslots.
  set (first := char_slots (lengthZ s) w + pos) in *.
  destruct (vector_row_scan chars offsets start len i s pos l p byte
              null_map res_chars res_offsets) as [Hslice ->];
    try done; try (unfold INT32_MAX; lia). fold w.
  pose proof (scan_count_bounds (lengthZ s) w pos l ltac:(lia) ltac:(lia)) as Hm.
  rewrite scan_count_negative in * by lia.
  set (m := char_slots (lengthZ s) w) in *.
  assert (Z.of_nat (Z.to_nat m) = m) as Hnat by lia.
  pose proof (char_slots_lt (lengthZ s) w (m - 1) ltac:(lia)) as Hlast.
  destruct (Z.ltb_spec first 0) as [Hnull|Hval].
  - apply vector_row_span_null; [lia | rewrite lengthZ_grid; lia |].
    rewrite (proj2 (Z.ltb_lt pos 0)), lengthZ_grid by lia. lia.
  - pose proof (char_slots_lt (lengthZ s) w (first + l) ltac:(lia)) as Hend.
    replace first with (first + 1 - 1) at 1 by lia.
    apply vector_row_span_grid; try done; try lia.
    rewrite (proj2 (Z.ltb_lt pos 0)) by lia. lia.
Qed.

(** X5.  [substring(s, pos, len)] with [pos < 0] and [len > 0], on a row
    that is not empty and whose round decodes a byte of width [w]: the
    position is counted from the end of the row, in characters of [w]
    bytes; the result is NULL when the position is two characters or more
    before the first one, and else the [len] characters from that
    character on, cut at the end of the row.  (The position that is one
    character before the first one is left out, see the next theorem.) *)
Theorem substring_negative_start chars offsets start len i (s : list Z) pos l p byte :
  string_at chars offsets i = Ok s → s ≠ [] → lengthZ s <= INT32_MAX →
  start !! i = Some pos → len !! i = Some l →
  - 2 ^ 31 <= pos < 0 → 0 < l <= INT32_MAX →
  prev_offset offsets i = Ok p → getZ chars (p + Z.of_nat i) = Ok byte →
  char_slots (lengthZ s) (get_utf8_byte_length byte) + pos ≠ -1 →
  (∀ null_map res_chars res_offsets,
     FunctionSubstring.vector_row chars offsets start len i
       (null_map, res_chars, res_offsets)
     = if char_slots (lengthZ s) (get_utf8_byte_length byte) + pos <? 0
       then StringOP.push_null_string i res_chars res_offsets null_map
       else
         '(res_chars, res_offsets) ←
           StringOP.push_value_string
             (span (get_utf8_byte_length byte) s
                (char_slots (lengthZ s) (get_utf8_byte_length byte) + pos) l)
             i res_chars res_offsets;
         Ok (null_map, res_chars, res_offsets)) ∧
  (∀ null_map out,
     FunctionSubstring.vector chars offsets start len null_map [] [] = Ok out →
     if char_slots (lengthZ s) (get_utf8_byte_length byte) + pos <? 0
     then null_of out !! i = Some 1 ∧ row_is (chars_of out) (offsets_of out) i []
     else row_is (chars_of out) (offsets_of out) i
            (span (get_utf8_byte_length byte) s
               (char_slots (lengthZ s) (get_utf8_byte_length byte) + pos) l) ∧
          null_of out !! i = null_map !! i).
Proof.
  intros Hs Hne Hmax Hstart Hlen Hpos Hl Hp Hbyte Hedge. apply read_padded_getZ in Hbyte.
  pose proof (λ nm rc ro,
    vector_row_negative chars offsets start len i s pos l p byte nm rc ro
      Hs Hne Hmax Hstart Hlen Hpos Hl Hp Hbyte Hedge) as Hrow.
  split; [done|]. intros null_map out Hrun.
  pose proof (string_at_row _ _ _ _ Hs) as Hi.
  destruct (char_slots (lengthZ s) (get_utf8_byte_length byte) + pos <? 0).
  - by apply (vector_output_null _ _ _ _ _ _ _ Hi Hrow Hrun).
  - by apply (vector_output_value _ _ _ _ _ _ _ _ Hi Hrow Hrun).
Qed.

(** The round of a row for the negative position that is one character
    before the first one. *)
Lemma vector_row_before_first chars offsets start len i (s : list Z) pos l p byte
    null_map res_chars res_offsets :
  string_at chars offsets i = Ok s → s ≠ [] → lengthZ s <= INT32_MAX →
  start !! i = Some pos → len !! i = Some l → 0 < l →
  prev_offset offsets i = Ok p → read_padded chars (p + Z.of_nat i) = Ok byte →
  pos = - (char_slots (lengthZ s) (get_utf8_byte_length byte) + 1) →
  FunctionSubstring.vector_row chars offsets start len i (null_map, res_chars, res_offsets)
  = Undefined.
Proof.
  intros Hs Hne Hmax Hstart Hlen Hl Hp Hbyte Hpos.
  pose proof (get_utf8_byte_length_bounds byte) as Hw.
  set (w := get_utf8_byte_length byte) in *.
  pose proof (lengthZ_pos s Hne) as Hs0. unfold INT32_MAX in *.
  pose proof (char_slots_le (lengthZ s) w ltac:(lia) ltac:(lia)) as Hslots.
  pose proof (scan_count_bounds (lengthZ s) w pos l ltac:(lia) ltac:(lia)) as Hm.
  destruct (vector_row_scan chars offsets start len i s pos l p byte
              null_map res_chars res_offsets) as [Hslice ->];
    try done; try (unfold INT32_MAX; lia). fold w.
  rewrite scan_count_negative in * by lia.
  apply vector_row_span_before_first; [lia | rewrite lengthZ_grid; lia].
Qed.

(** X6.  [substring(s, pos, len)] with [len > 0] and the negative [pos]
    that is one character before the first character of the row ([-4] for
    a row of three characters): [fixed_pos] is [0] and the round reads
    [index[fixed_pos - 1]], the entry in front of the first entry of
    [index].  The read is outside of the vector, which is undefined
    behaviour: the round of the row is [Undefined], whatever the state of
    the output it starts from.  (What a build then puts into the row is
    not said.) *)
Theorem substring_before_first_character chars offsets start len i (s : list Z)
    pos l p byte null_map res_chars res_offsets :
  string_at chars offsets i = Ok s → s ≠ [] → lengthZ s <= INT32_MAX →
  start !! i = Some pos → len !! i = Some l → 0 < l →
  prev_offset offsets i = Ok p → getZ chars (p + Z.of_nat i) = Ok byte →
  pos = - (char_slots (lengthZ s) (get_utf8_byte_length byte) + 1) →
  FunctionSubstring.vector_row chars offsets start len i (null_map, res_chars, res_offsets)
  = Undefined.
Proof.
  intros Hs Hne Hmax Hstart Hlen Hl Hp Hbyte Hpos. apply read_padded_getZ in Hbyte.
  by apply (vector_row_before_first chars offsets start len i s pos l p byte).
Qed.

(** ** The column a loop of pushes builds *)

Section push_loop_rows.
Context {S : Type} (charsS offsS : S → list Z) (body : nat → S → result S).

Hypothesis body_pushes : ∀ i s s', body i s = Ok s' →
  (i < length (offsS s))%nat ∧
  ∃ payload, charsS s' = charsS s ++ payload ++ [0] ∧
             offsS s' = <[i := lengthZ (charsS s')]> (offsS s).

(** A loop that pushes one row per round, over [n] offsets and from no
    bytes, ends with the encoding of [n] rows. *)
Lemma push_loop_rows n s0 s' :
  for_range 0 n body s0 = Ok s' → charsS s0 = [] → length (offsS s0) = n →
  ∃ rows, length rows = n ∧ charsS s' = bytes_of rows ∧ offsS s' = ends rows.
Proof.
  intros Hrun Hs0 Hn.
  apply (for_range_invariant
           (fun k s => length (offsS s) = n ∧
              ∃ rows, length rows = k ∧ charsS s = bytes_of rows ∧
                      take k (offsS s) = ends rows)) in Hrun.
  - destruct Hrun as (Hlen & rows & Hrows & Hc & Ho). exists rows.
    rewrite Nat.add_0_l in *. by rewrite take_ge in Ho by lia.
  - intros k t t' Hk (Hlen & rows & Hrows & Hc & Ho) Hb.
    apply body_pushes in Hb as (Hlt & payload & Hc' & Ho').
    split; [by rewrite Ho', length_insert|].
    exists (rows ++ [payload]). split; [rewrite length_app; simpl; lia|].
    split; [by rewrite Hc', Hc, bytes_of_snoc|].
    rewrite Ho'. rewrite (take_S_r _ _ (lengthZ (charsS t'))); last first.
    { apply list_lookup_insert_eq. lia. }
    rewrite take_insert_ge, Ho, ends_snoc by lia.
    by rewrite Hc', Hc, bytes_of_snoc.
  - split; [done|]. exists []. by rewrite Hs0.
Qed.
End push_loop_rows.

(** ** The output of [substring] is made of pieces of its input *)

Lemma pushed_null_payload i rc ro nm (st' : FunctionSubstring.out) (payload : list Z) :
  StringOP.push_null_string i rc ro nm = Ok st' →
  chars_of st' = rc ++ payload ++ [0] → payload = [].
Proof.
  intros (_ & _ & ->)%push_null_string_Ok Hc. unfold chars_of in Hc. simpl in Hc.
  by apply (app_payload_inv rc [] payload) in Hc.
Qed.

Lemma pushed_empty_payload i rc ro nm (st' : FunctionSubstring.out) (payload : list Z) :
  ('(rc', ro') ← StringOP.push_empty_string i rc ro; Ok (nm, rc', ro')) = Ok st' →
  chars_of st' = rc ++ payload ++ [0] → payload = [].
Proof.
  intros Hb Hc. inv_all. unfold chars_of in Hc. simpl in Hc.
  by apply (app_payload_inv rc [] payload) in Hc.
Qed.

Lemma pushed_value_payload v i rc ro nm (st' : FunctionSubstring.out) (payload : list Z) :
  ('(rc', ro') ← StringOP.push_value_string v i rc ro; Ok (nm, rc', ro')) = Ok st' →
  chars_of st' = rc ++ payload ++ [0] → payload = v.
Proof.
  intros Hb Hc. inv_all. unfold chars_of in Hc. simpl in Hc.
  by apply (app_payload_inv rc v payload) in Hc.
Qed.

(** A round that passes both exits runs the inner loop. *)
Lemma vector_row_enters_scan chars offsets start len i (s : list Z) pos l p
    null_map res_chars res_offsets :
  string_at chars offsets i = Ok s → s ≠ [] → lengthZ s <= INT32_MAX →
  start !! i = Some pos → len !! i = Some l →
  pos <= lengthZ s → pos ≠ 0 → 0 < l →
  prev_offset offsets i = Ok p →
  FunctionSubstring.vector_row chars offsets start len i (null_map, res_chars, res_offsets)
  = (index ← FunctionSubstring.scan (Z.to_nat (lengthZ s)) chars p i (lengthZ s) pos l 0 [];
     FunctionSubstring.vector_row_span chars p (lengthZ s) pos l index i
       (null_map, res_chars, res_offsets)).
Proof.
  intros (o & p' & Ho & Hp' & Hs)%string_at_Ok Hne Hmax Hstart Hlen Hle Hnz Hl Hp.
  rewrite Hp in Hp'. injection Hp' as <-.
  pose proof (slice_length _ _ _ _ Hs) as Hsize.
  pose proof (lengthZ_pos s Hne) as Hpos. unfold INT32_MAX in Hmax.
  unfold FunctionSubstring.vector_row.
  apply get_Ok in Hstart. apply get_Ok in Hlen.
  rewrite Ho, ret_bind, Hp, ret_bind, Hstart, ret_bind. rewrite <- Hsize.
  rewrite (to_int32_small (lengthZ s)) by lia.
  rewrite (proj2 (Z.ltb_ge _ _)) by lia.
  rewrite Hlen, ret_bind.
  by rewrite (proj2 (Z.leb_gt l 0)), (proj2 (Z.eqb_neq (lengthZ s) 0)),
    (proj2 (Z.eqb_neq pos 0)) by lia.
Qed.

(** The inner loop reads the byte [raw_str[i]] in its first round. *)
Lemma scan_reads chars raw_str i str_size start_i len_i index :
  0 < str_size < 2 ^ 31 →
  FunctionSubstring.scan (Z.to_nat str_size) chars raw_str i str_size start_i len_i 0 []
  = Ok index →
  ∃ byte, read_padded chars (raw_str + Z.of_nat i) = Ok byte.
Proof.
  intros Hsize Hscan. rewrite scan_eq, to_size_t_small in Hscan by lia.
  rewrite (proj2 (Z.ltb_lt 0 str_size)) in Hscan by lia.
  destruct (Z.to_nat str_size) as [|fuel]; [done|].
  apply bind_Ok in Hscan as (byte & Hbyte & _). by exists byte.
Qed.

(** What the round of row [i] pushes is a piece of row [i] of the input. *)
Lemma vector_row_piece (rows : list (list Z)) start len i (s : list Z)
    (st st' : FunctionSubstring.out) (payload : list Z) :
  rows !! i = Some s → lengthZ s <= INT32_MAX →
  Forall is_int32 start → Forall is_int32 len →
  FunctionSubstring.vector_row (bytes_of rows) (ends rows) start len i st = Ok st' →
  chars_of st' = chars_of st ++ payload ++ [0] →
  ∃ a b, payload = take b (drop a s).
Proof.
  intros Hrow Hmax Hstart Hlen Hb Hc. destruct st as [[nm rc] ro].
  unfold chars_of in Hc. simpl in Hc.
  pose proof (encode_string_at _ _ _ Hrow) as Hs.
  destruct (encode_row _ _ _ Hrow) as (Ho & Hp & _).
  set (p := lengthZ (bytes_of (take i rows))) in *.
  pose proof (string_at_size _ _ _ _ Hs Hmax) as Hsize.
  pose proof (lengthZ_nonneg s) as Hs0.
  assert (∀ v : list Z, v = [] → ∃ a b, v = take b (drop a s)) as Hnil.
  { intros v ->. by exists 0%nat, 0%nat. }
  destruct (start !! i) as [pos|] eqn:Hpos; last first.
  { unfold FunctionSubstring.vector_row in Hb.
    rewrite Ho, ret_bind, Hp, ret_bind in Hb.
    assert (get start i = Undefined) as Hg by (unfold get; by rewrite Hpos).
    by rewrite Hg in Hb. }
  pose proof (proj1 (Forall_lookup _ _) Hstart _ _ Hpos) as Hpos32.
  destruct (decide (lengthZ s < pos)) as [Hpast|Hin].
  { rewrite (vector_row_start_past_end _ _ _ _ _ _ _ _ _ _ Hsize Hpos Hpast) in Hb.
    apply Hnil. by eapply pushed_null_payload. }
  destruct (len !! i) as [l|] eqn:Hl; last first.
  { unfold FunctionSubstring.vector_row in Hb.
    rewrite Ho, ret_bind, Hp, ret_bind in Hb.
    rewrite (proj2 (get_Ok _ _ _) Hpos), ret_bind in Hb.
    assert (get len i = Undefined) as Hg by (unfold get; by rewrite Hl).
    rewrite Hg in Hb. destruct (_ <? pos); [|done].
    apply Hnil. by eapply pushed_null_payload. }
  pose proof (proj1 (Forall_lookup _ _) Hlen _ _ Hl) as Hl32.
  unfold is_int32 in *.
  destruct (decide (l <= 0 ∨ lengthZ s = 0 ∨ pos = 0)) as [Hempty|Hfull].
  { rewrite (vector_row_empty _ _ _ _ _ _ _ _ _ _ _ Hsize Hpos Hl) in Hb by (done || lia).
    apply Hnil. by eapply pushed_empty_payload. }
  assert (s ≠ []) as Hne by (intros ->; unfold lengthZ in Hfull; simpl in Hfull; lia).
  assert (∃ byte, read_padded (bytes_of rows) (p + Z.of_nat i) = Ok byte) as [byte Hbyte].
  { rewrite (vector_row_enters_scan _ _ _ _ _ s pos l p) in Hb by (done || lia).
    apply bind_Ok in Hb as (index & Hscan & _).
    apply scan_reads in Hscan; [done | unfold INT32_MAX in *; lia]. }
  destruct (decide (0 < pos)) as [Hpositive|Hnegative].
  - rewrite (vector_row_positive _ _ _ _ _ s pos l p byte) in Hb by (done || lia).
    destruct (_ <? pos).
    + apply Hnil. by eapply pushed_null_payload.
    + eexists _, _. by eapply pushed_value_payload.
  - destruct (decide (pos = - (char_slots (lengthZ s) (get_utf8_byte_length byte) + 1)))
      as [Hedge|Hedge].
    { by rewrite (vector_row_before_first _ _ _ _ _ s pos l p byte) in Hb by (done || lia). }
    rewrite (vector_row_negative _ _ _ _ _ s pos l p byte) in Hb by (done || lia).
    destruct (_ <? 0).
    + apply Hnil. by eapply pushed_null_payload.
    + eexists _, _. by eapply pushed_value_payload.
Qed.

Lemma vector_row_pushes chars offsets start len i (st st' : FunctionSubstring.out) :
  FunctionSubstring.vector_row chars offsets start len i st = Ok st' →
  (i < length (offsets_of st))%nat ∧
  ∃ payload, chars_of st' = chars_of st ++ payload ++ [0] ∧
             offsets_of st' = <[i := lengthZ (chars_of st')]> (offsets_of st).
Proof.
  intros (Hlt & payload & Hc & Ho & _)%vector_row_pushed. split; [done|]. by exists payload.
Qed.

(** X7.  Whenever [substring] returns a column for a string column of
    rows that an [int] can measure and columns of [Int32], the output is a
    well-formed string column with one row per row of the input, every row
    of the output is a contiguous piece of the same row of the input (no
    byte of another row, of a terminator or of outside the column is
    copied), and the null map keeps its size and the flag of every row,
    except for rows that are made NULL, which are empty. *)
Theorem substring_rows_are_pieces (rows : list (list Z)) start len null_map
    (out : FunctionSubstring.out) :
  Forall (fun s : list Z => lengthZ s <= INT32_MAX) rows →
  Forall is_int32 start → Forall is_int32 len →
  FunctionSubstring.vector (bytes_of rows) (ends rows) start len null_map [] [] = Ok out →
  ∃ out_rows,
    chars_of out = bytes_of out_rows ∧ offsets_of out = ends out_rows ∧
    length out_rows = length rows ∧ length (null_of out) = length null_map ∧
    ∀ i s, rows !! i = Some s →
      ∃ r a b, out_rows !! i = Some r ∧ r = take b (drop a s) ∧
        (null_of out !! i = null_map !! i ∨ null_of out !! i = Some 1 ∧ r = []).
Proof.
  intros Hmax Hstart Hlen Hrun. pose proof Hrun as Hloop.
  unfold FunctionSubstring.vector in Hloop. rewrite length_ends in Hloop.
  destruct (push_loop_rows chars_of offsets_of _
              (vector_row_pushes (bytes_of rows) (ends rows) start len) _ _ _ Hloop)
    as (out_rows & Hrows & Hchars & Hoffs); [done | | ].
  { unfold offsets_of, resize. simpl.
    rewrite take_nil, length_app, length_replicate. simpl. lia. }
  exists out_rows. repeat split; try done.
  - apply (for_range_invariant (fun _ t => length (null_of t) = length null_map))
      in Hloop; [done| |done].
    intros k t t' _ Ht Hb.
    apply vector_row_pushed in Hb as (_ & payload & _ & _ & Hnull).
    destruct Hnull as [-> | (_ & -> & _)]; [done|]. by rewrite length_insert.
  - intros i s Hs.
    assert (i < length (ends rows))%nat as Hi
      by (rewrite length_ends; by eapply lookup_lt_Some).
    destruct (vector_row_of_output _ _ _ _ _ _ _ Hrun Hi)
      as (st & st' & payload & Hb & Hc & Hnm & Hnm' & Hrow).
    destruct (lookup_lt_is_Some_2 out_rows i) as [r Hr];
      [rewrite Hrows; by eapply lookup_lt_Some|].
    assert (payload = r) as ->.
    { apply row_is_string_at in Hrow. rewrite Hchars, Hoffs in Hrow.
      rewrite (encode_string_at _ _ _ Hr) in Hrow. by injection Hrow. }
    destruct (vector_row_piece rows start len i s st st' r) as (a & b & Hpiece);
      try done.
    { by apply (proj1 (Forall_lookup _ _) Hmax _ _ Hs). }
    exists r, a, b. split; [done|]. split; [done|].
    pose proof Hb as Hpushed.
    apply vector_row_pushed in Hpushed as (_ & payload' & Hc' & _ & Hnull).
    rewrite Hc in Hc'. apply app_payload_inv in Hc' as <-.
    destruct Hnull as [Hsame | (Hlt & Hset & ->)].
    + left. by rewrite Hnm', Hsame.
    + right. split; [|done]. rewrite Hnm', Hset. by apply list_lookup_insert_eq.
Qed.

(** ** Rows of characters of one width *)

Lemma length_mjoin_uniform (wn : nat) (cs : list (list Z)) :
  Forall (fun c : list Z => length c = wn) cs → length (mjoin cs) = (length cs * wn)%nat.
Proof.
  induction 1 as [|c cs Hc _ IH]; [done|]. simpl. rewrite length_app, IH, Hc. lia.
Qed.

Lemma drop_mjoin_uniform (wn : nat) (cs : list (list Z)) (a : nat) :
  Forall (fun c : list Z => length c = wn) cs →
  drop (a * wn) (mjoin cs) = mjoin (drop a cs).
Proof.
  intros Hcs. revert a. induction Hcs as [|c cs Hc _ IH]; intros a.
  - simpl. by rewrite !drop_nil.
  - destruct a as [|a]; [done|]. simpl.
    rewrite skipn_app, Hc, drop_ge by lia. simpl.
    replace (wn + a * wn - wn)%nat with (a * wn)%nat by lia. apply IH.
Qed.

Lemma take_mjoin_uniform (wn : nat) (cs : list (list Z)) (b : nat) :
  Forall (fun c : list Z => length c = wn) cs →
  take (b * wn) (mjoin cs) = mjoin (take b cs).
Proof.
  intros Hcs. revert b. induction Hcs as [|c cs Hc _ IH]; intros b.
  - simpl. by rewrite !take_nil.
  - destruct b as [|b]; [done|]. simpl.
    rewrite firstn_app, Hc, take_ge by lia.
    replace (wn + b * wn - wn)%nat with (b * wn)%nat by lia. by rewrite IH.
Qed.

Lemma char_slots_exact k w : 1 <= w → char_slots (k * w) w = k.
Proof.
  intros Hw. unfold char_slots. symmetry.
  apply (Z.div_unique_pos _ _ _ (w - 1)); lia.
Qed.

(** The span of [len] characters from character [a] of a row of
    characters of width [w]. *)
Lemma span_uniform w (cs : list (list Z)) a l :
  1 <= w → 0 <= a → 0 <= l →
  Forall (fun c : list Z => lengthZ c = w) cs →
  span w (mjoin cs) a l = mjoin (take (Z.to_nat l) (drop (Z.to_nat a) cs)).
Proof.
  intros Hw Ha Hl Hcs. unfold span.
  assert (Forall (fun c : list Z => length c = Z.to_nat w) cs) as Hcs'.
  { eapply Forall_impl; [done|]. intros c Hc. simpl in Hc. unfold lengthZ in Hc. lia. }
  replace (Z.to_nat (a * w)) with (Z.to_nat a * Z.to_nat w)%nat by nia.
  replace (Z.to_nat (l * w)) with (Z.to_nat l * Z.to_nat w)%nat by nia.
  rewrite drop_mjoin_uniform by done.
  apply take_mjoin_uniform. by apply Forall_drop.
Qed.

(** X8.  When every character of the row has the width that the round of
    the row decodes (from the byte [raw_str[i]]), [substring(s, pos, len)]
    with [pos > 0] and [len > 0] is the substring by characters: NULL when
    [pos] is greater than the number of characters, and else the
    characters [pos], ..., [pos + len - 1] of the row, as far as the row
    has them. *)
Theorem substring_uniform_width chars offsets start len i (cs : list (list Z))
    pos l p byte :
  string_at chars offsets i = Ok (mjoin cs) → lengthZ (mjoin cs) <= INT32_MAX →
  Forall (fun c : list Z => lengthZ c = get_utf8_byte_length byte) cs →
  start !! i = Some pos → len !! i = Some l →
  0 < pos <= INT32_MAX → 0 < l <= INT32_MAX →
  prev_offset offsets i = Ok p → getZ chars (p + Z.of_nat i) = Ok byte →
  (∀ null_map res_chars res_offsets,
     FunctionSubstring.vector_row chars offsets start len i
       (null_map, res_chars, res_offsets)
     = if lengthZ cs <? pos
       then StringOP.push_null_string i res_chars res_offsets null_map
       else
         '(res_chars, res_offsets) ←
           StringOP.push_value_string
             (mjoin (take (Z.to_nat l) (drop (Z.to_nat (pos - 1)) cs)))
             i res_chars res_offsets;
         Ok (null_map, res_chars, res_offsets)) ∧
  (∀ null_map out,
     FunctionSubstring.vector chars offsets start len null_map [] [] = Ok out →
     if lengthZ cs <? pos
     then null_of out !! i = Some 1 ∧ row_is (chars_of out) (offsets_of out) i []
     else row_is (chars_of out) (offsets_of out) i
            (mjoin (take (Z.to_nat l) (drop (Z.to_nat (pos - 1)) cs))) ∧
          null_of out !! i = null_map !! i).
Proof.
  intros Hs Hmax Hcs Hstart Hlen Hpos Hl Hp Hbyte. apply read_padded_getZ in Hbyte.
  pose proof (get_utf8_byte_length_bounds byte) as Hw.
  assert (lengthZ (mjoin cs) = lengthZ cs * get_utf8_byte_length byte) as Hsize.
  { unfold lengthZ.
    rewrite (length_mjoin_uniform (Z.to_nat (get_utf8_byte_length byte))); [lia|].
    eapply Forall_impl; [done|]. intros c Hc. simpl in Hc. unfold lengthZ in Hc. lia. }
  assert (∀ null_map res_chars res_offsets,
     FunctionSubstring.vector_row chars offsets start len i
       (null_map, res_chars, res_offsets)
     = if lengthZ cs <? pos
       then StringOP.push_null_string i res_chars res_offsets null_map
       else
         '(res_chars, res_offsets) ←
           StringOP.push_value_string
             (mjoin (take (Z.to_nat l) (drop (Z.to_nat (pos - 1)) cs)))
             i res_chars res_offsets;
         Ok (null_map, res_chars, res_offsets)) as Hrow.
  { intros null_map res_chars res_offsets.
    rewrite (vector_row_positive _ _ _ _ _ (mjoin cs) pos l p byte) by done.
    rewrite Hsize, char_slots_exact by lia.
    by rewrite span_uniform by (done || lia). }
  split; [done|]. intros null_map out Hrun.
  pose proof (string_at_row _ _ _ _ Hs) as Hi.
  destruct (lengthZ cs <? pos).
  - by apply (vector_output_null _ _ _ _ _ _ _ Hi Hrow Hrun).
  - by apply (vector_output_value _ _ _ _ _ _ _ _ Hi Hrow Hrun).
Qed.

(** ** The null map of [substring_execute] *)

Lemma update_null_map_Ok dst src r :
  update_null_map dst src = Ok r ↔
  (length dst <= length src)%nat ∧ r = zip_with Z.lor dst src.
Proof.
  unfold update_null_map. case_bool_decide; split.
  - intros H'. inversion H'. done.
  - intros [_ ->]. done.
  - intros H'. inversion H'.
  - intros [? _]. done.
Qed.

Lemma update_null_map_lookup dst src r j f :
  update_null_map dst src = Ok r → dst !! j = Some f →
  ∃ g, src !! j = Some g ∧ r !! j = Some (Z.lor f g).
Proof.
  intros [Hlen ->]%update_null_map_Ok Hf.
  destruct (lookup_lt_is_Some_2 src j) as [g Hg].
  { apply lookup_lt_Some in Hf. lia. }
  exists g. split; [done|]. by rewrite lookup_zip_with, Hf, Hg.
Qed.

(** A round of the loop over the arguments keeps the size of the null map
    and the flags that are set. *)
Lemma substring_normalize_keeps block arguments k acs nm acs' nm' :
  FunctionSubstring.normalize_argument block arguments k (acs, nm) = Ok (acs', nm') →
  length nm' = length nm ∧
  ∀ j f, nm !! j = Some f → f ≠ 0 → ∃ f', nm' !! j = Some f' ∧ f' ≠ 0.
Proof.
  unfold FunctionSubstring.normalize_argument, BlockOps.getByPosition. intros H.
  inv_ok. destruct a1; inv_ok; try (split; [done|]; by eauto).
  match goal with H : update_null_map _ _ = Ok _ |- _ => rename H into Hupd end.
  split.
  - apply update_null_map_Ok in Hupd as [Hlen ->]. rewrite length_zip_with. lia.
  - intros j f Hf Hnz. destruct (update_null_map_lookup _ _ _ _ _ Hupd Hf) as (g & _ & Hr).
    eexists. split; [done|]. rewrite Z.lor_eq_0_iff. tauto.
Qed.

(** The round of a nullable argument sets the flags that the argument
    has set. *)
Lemma substring_normalize_sets block arguments k a e nested null_map acs nm acs' nm' j flag :
  arguments !! k = Some a → block !! a = Some e →
  convertToFullColumnIfConst (column e) = Ok (ColumnNullable nested null_map) →
  FunctionSubstring.normalize_argument block arguments k (acs, nm) = Ok (acs', nm') →
  null_map !! j = Some flag → flag ≠ 0 → (j < length nm)%nat →
  ∃ f', nm' !! j = Some f' ∧ f' ≠ 0.
Proof.
  intros Ha He Hc H Hflag Hnz Hj.
  unfold FunctionSubstring.normalize_argument, BlockOps.getByPosition in H.
  apply get_Ok in Ha. apply get_Ok in He.
  rewrite Ha, ret_bind, He, ret_bind, Hc, ret_bind in H. inv_ok.
  match goal with H : update_null_map _ _ = Ok _ |- _ => rename H into Hupd end.
  destruct (lookup_lt_is_Some_2 nm j Hj) as [f Hf].
  destruct (update_null_map_lookup _ _ _ _ _ Hupd Hf) as (g & Hg & Hr).
  rewrite Hflag in Hg. injection Hg as <-.
  eexists. split; [done|]. rewrite Z.lor_eq_0_iff. tauto.
Qed.

(** [vector] never clears a flag of the null map. *)
Lemma vector_keeps_nulls chars offsets start len null_map out j f :
  FunctionSubstring.vector chars offsets start len null_map [] [] = Ok out →
  null_map !! j = Some f → f ≠ 0 →
  ∃ f', null_of out !! j = Some f' ∧ f' ≠ 0.
Proof.
  unfold FunctionSubstring.vector. intros Hrun Hf Hnz.
  apply (for_range_invariant (fun _ t => ∃ f', null_of t !! j = Some f' ∧ f' ≠ 0))
    in Hrun; [done| |by exists f].
  intros k t t' _ (f' & Hf' & Hnz') Hb.
  apply vector_row_pushed in Hb as (_ & payload & _ & _ & Hnull).
  destruct Hnull as [-> | (Hlt & -> & _)]; [by exists f'|].
  destruct (decide (j = k)) as [->|Hne].
  - exists 1. by rewrite list_lookup_insert_eq.
  - exists f'. by rewrite list_lookup_insert_ne.
Qed.

(** X9.  NULL in, NULL out.  A call of [substring_execute] (the body of
    [substring], and of [left] and [right] behind their argument columns)
    that returns leaves every column of the block alone but the result
    column, which becomes a nullable string column with the type and name
    it had; and every row in which one of the three argument columns
    (constant or not) has its null flag set has its null flag set in the
    result. *)
Theorem substring_null_in_null_out dcheck_is_on block a0 a1 a2 result_pos n block' e_res
    k a e nested null_map i flag :
  FunctionSubstring.substring_execute dcheck_is_on block [a0; a1; a2] result_pos n
  = Ok block' →
  block !! result_pos = Some e_res →
  [a0; a1; a2] !! k = Some a → block !! a = Some e →
  convertToFullColumnIfConst (column e) = Ok (ColumnNullable nested null_map) →
  null_map !! i = Some flag → flag ≠ 0 → (i < n)%nat →
  ∃ res_chars res_offsets res_null f,
    block' = <[result_pos :=
                mkColumn (ColumnNullable (ColumnString res_chars res_offsets) res_null)
                  (type e_res) (name e_res)]> block ∧
    res_null !! i = Some f ∧ f ≠ 0.
Proof.
  intros Hrun Hres Hk Ha Hc Hflag Hnz Hi.
  unfold FunctionSubstring.substring_execute in Hrun.
  apply bind_Ok in Hrun as (_ & _ & Hrun).
  apply bind_Ok in Hrun as ([acs nm0] & Hnorm & Hrun).
  apply bind_Ok in Hrun as ([chars offsets] & _ & Hrun).
  apply bind_Ok in Hrun as (start & _ & Hrun).
  apply bind_Ok in Hrun as (len & _ & Hrun).
  apply bind_Ok in Hrun as ([[nm1 rc] ro] & Hvec & Hset).
  rewrite (set_column_Ok _ _ _ _ Hres) in Hset. injection Hset as <-.
  assert (k < 3)%nat as Hk3 by (apply lookup_lt_Some in Hk; simpl in Hk; lia).
  assert (∃ f0, nm0 !! i = Some f0 ∧ f0 ≠ 0) as (f0 & Hf0 & Hnz0).
  { destruct (for_range_prefix _ _ _ _ _ k Hnorm) as ([acs_k nm_k] & Hpre & Hrest); [lia|].
    apply (for_range_invariant (fun _ t => length t.2 = n)) in Hpre;
      [| |simpl; apply length_replicate].
    2: { intros j [acs1 nm1'] [acs2 nm2'] _ Hlen Hstep. simpl in *.
         apply substring_normalize_keeps in Hstep as [Hkeep _]. lia. }
    simpl in Hpre.
    destruct (3 - k)%nat as [|m] eqn:Hm; [lia|]. rewrite for_range_S in Hrest.
    apply bind_Ok in Hrest as ([acs_k1 nm_k1] & Hstep & Hrest).
    apply (substring_normalize_sets _ _ _ _ _ _ _ _ _ _ _ i flag Hk Ha Hc) in Hstep;
      [|done|done|lia].
    apply (for_range_invariant (fun _ t => ∃ f', t.2 !! i = Some f' ∧ f' ≠ 0)) in Hrest;
      [done| |done].
    intros j [acs1 nm1'] [acs2 nm2'] _ (f' & Hf' & Hnz') Hstep'. simpl in *.
    apply substring_normalize_keeps in Hstep' as [_ Hkeep]. by eapply Hkeep. }
  destruct (vector_keeps_nulls _ _ _ _ _ _ _ _ Hvec Hf0 Hnz0) as (f & Hf & Hnzf).
  by exists rc, ro, nm1, f.
Qed.

(** ** When [substring] returns *)

Lemma for_range_returns {S} (I : nat → S → Prop) (body : nat → S → result S) a n s :
  (∀ k t, (a <= k < a + n)%nat → I k t → ∃ t', body k t = Ok t' ∧ I (Datatypes.S k) t') →
  I a s → ∃ s', for_range a n body s = Ok s'.
Proof.
  revert a s. induction n as [|n IH]; intros a s Hstep Ha; [by exists s|].
  destruct (Hstep a s) as (t' & Hb & Ht'); [lia|done|].
  rewrite for_range_S, Hb, ret_bind. apply IH; [|done].
  intros k t Hk. apply Hstep. lia.
Qed.

(** The round of a row that resolves returns, and keeps the sizes of the
    null map and of the offsets. *)
Lemma vector_row_returns (rows : list (list Z)) start len i (s : list Z) pos l nm rc ro :
  rows !! i = Some s → lengthZ s <= INT32_MAX →
  start !! i = Some pos → len !! i = Some l → is_int32 pos → is_int32 l →
  (i < length nm)%nat → (i < length ro)%nat →
  substring_resolves rows i s pos l →
  ∃ st', FunctionSubstring.vector_row (bytes_of rows) (ends rows) start len i (nm, rc, ro)
         = Ok st' ∧
         length (null_of st') = length nm ∧ length (offsets_of st') = length ro.
Proof.
  intros Hrow Hmax Hpos Hl Hpos32 Hl32 Hnm Hro Hres.
  pose proof (encode_string_at _ _ _ Hrow) as Hs.
  destruct (encode_row _ _ _ Hrow) as (Ho & Hp & _).
  pose proof (string_at_size _ _ _ _ Hs Hmax) as Hsize.
  pose proof (lengthZ_nonneg s) as Hs0. unfold is_int32 in *.
  assert (∀ m : result FunctionSubstring.out,
    FunctionSubstring.vector_row (bytes_of rows) (ends rows) start len i (nm, rc, ro) = m →
    (∃ st', m = Ok st') →
    ∃ st', FunctionSubstring.vector_row (bytes_of rows) (ends rows) start len i (nm, rc, ro)
           = Ok st' ∧
           length (null_of st') = length nm ∧ length (offsets_of st') = length ro) as Hdone.
  { intros m Hm [st' ->]. exists st'. split; [done|].
    apply vector_row_pushed in Hm as (_ & payload & _ & Ho' & Hnull).
    unfold offsets_of, null_of in *. simpl in *. rewrite Ho', length_insert.
    split; [|done]. destruct Hnull as [-> | (_ & -> & _)]; [done|]. by rewrite length_insert. }
  assert (∃ st', StringOP.push_null_string i rc ro nm = Ok st') as Hnull.
  { eexists. by apply push_null_string_Ok. }
  assert (∀ v, ∃ st' : FunctionSubstring.out,
    ('(rc', ro') ← StringOP.push_value_string v i rc ro; Ok (nm, rc', ro')) = Ok st')
    as Hvalue.
  { intros v. eexists.
    by rewrite (proj2 (push_value_string_Ok v i rc ro _ _) (conj Hro (conj eq_refl eq_refl))). }
  destruct (decide (lengthZ s < pos)) as [Hpast|Hin].
  { eapply Hdone; [by eapply vector_row_start_past_end|done]. }
  destruct (decide (l <= 0 ∨ lengthZ s = 0 ∨ pos = 0)) as [Hempty|Hfull].
  { eapply Hdone; [eapply vector_row_empty; try done; lia|].
    eexists.
    by rewrite (proj2 (push_empty_string_Ok i rc ro _ _) (conj Hro (conj eq_refl eq_refl))). }
  assert (s ≠ []) as Hne by (intros ->; unfold lengthZ in Hfull; simpl in Hfull; lia).
  destruct Hres as [?|[?|[?|[?|(byte & Hbyte & Hedge)]]]]; try lia; try done.
  destruct (decide (0 < pos)) as [Hpositive|Hnegative].
  - eapply Hdone; [by eapply (vector_row_positive _ _ _ _ _ s pos l); try done; lia|].
    destruct (_ <? pos); [done|apply Hvalue].
  - eapply Hdone; [by eapply (vector_row_negative _ _ _ _ _ s pos l); try done; lia|].
    destruct (_ <? 0); [done|apply Hvalue].
Qed.

(** X10.  [substring] returns.  For a well-formed string column of rows
    that an [int] can measure, columns of [Int32] for the position and the
    length and a null map, all with a row for every row of the string
    column, [vector] returns a column whenever every row resolves: the row
    leaves by one of the two exits, or its position is not the one that
    makes the round read [index[-1]].  Where the byte [raw_str[i]] that
    the round decodes lies, inside the bytes of the column or behind
    them, makes no difference. *)
Theorem substring_returns (rows : list (list Z)) start len null_map :
  Forall (fun s : list Z => lengthZ s <= INT32_MAX) rows →
  Forall is_int32 start → Forall is_int32 len →
  (length rows <= length start)%nat → (length rows <= length len)%nat →
  (length rows <= length null_map)%nat →
  (∀ i s pos l, rows !! i = Some s → start !! i = Some pos → len !! i = Some l →
     substring_resolves rows i s pos l) →
  ∃ out, FunctionSubstring.vector (bytes_of rows) (ends rows) start len null_map [] []
         = Ok out.
Proof.
  intros Hmax Hstart Hlen Hls Hll Hln Hres.
  unfold FunctionSubstring.vector. rewrite length_ends.
  apply (for_range_returns
           (fun _ t => length (null_of t) = length null_map ∧
                       length (offsets_of t) = length rows)).
  - intros k [[nm rc] ro] Hk [Hnm Hro]. unfold null_of, offsets_of in Hnm, Hro.
    simpl in Hnm, Hro.
    destruct (lookup_lt_is_Some_2 rows k) as [s Hs]; [lia|].
    destruct (lookup_lt_is_Some_2 start k) as [pos Hpos]; [lia|].
    destruct (lookup_lt_is_Some_2 len k) as [l Hl]; [lia|].
    destruct (vector_row_returns rows start len k s pos l nm rc ro)
      as (st' & Hb & Hnm' & Hro'); try done; try lia.
    + by apply (proj1 (Forall_lookup _ _) Hmax _ _ Hs).
    + by apply (proj1 (Forall_lookup _ _) Hstart _ _ Hpos).
    + by apply (proj1 (Forall_lookup _ _) Hlen _ _ Hl).
    + by eapply Hres.
    + exists st'. split; [done|]. split; lia.
  - split; [done|]. unfold offsets_of, resize. simpl.
    rewrite take_nil, length_app, length_replicate. simpl. lia.
Qed.

(** ** [left] and [right] row by row *)

(** [substring_execute] on a string column and two columns of [Int32]
    that are neither constant nor nullable: [vector] on their arrays, with
    a null map of zeros. *)
Lemma substring_columns_vector dcheck_is_on chars offsets start len n :
  substring_columns dcheck_is_on (ColumnString chars offsets) (ColumnInt32 start)
    (ColumnInt32 len) n
  = ('(nm, rc, ro) ←
       FunctionSubstring.vector chars offsets start len (replicate n 0) [] [];
     Ok (ColumnNullable (ColumnString rc ro) nm)).
Proof.
  unfold substring_columns, FunctionSubstring.substring_execute.
  change (bool_decide (length [0%nat; 1%nat; 2%nat] = 3%nat)) with true.
  rewrite DCHECK_true, ret_bind.
  assert (for_range 0 3
            (FunctionSubstring.normalize_argument
               [mkColumn (ColumnString chars offsets) DataTypeString "str";
                mkColumn (ColumnInt32 start) DataTypeInt32 "pos";
                mkColumn (ColumnInt32 len) DataTypeInt32 "len";
                mkColumn (ColumnUInt8 []) (DataTypeNullable DataTypeString) "result"]
               [0; 1; 2]%nat)
            (replicate 3 None, replicate n 0)
          = Ok ([Some (ColumnString chars offsets); Some (ColumnInt32 start);
                 Some (ColumnInt32 len)], replicate n 0)) as -> by reflexivity.
  rewrite ret_bind.
  change (FunctionSubstring.arg_ColumnString _ 0) with (Ok (chars, offsets)).
  rewrite ret_bind.
  change (FunctionSubstring.arg_ColumnInt32 _ 1) with (Ok start). rewrite ret_bind.
  change (FunctionSubstring.arg_ColumnInt32 _ 2) with (Ok len). rewrite ret_bind.
  destruct (FunctionSubstring.vector _ _ _ _ _ _ _) as [[[nm rc] ro]| | |]; try done.
Qed.

(** [left] on columns that are neither constant nor nullable runs
    [vector] with the position [1] in every row. *)
Lemma left_runs_vector dcheck_is_on block a0 a1 result_pos n e0 e1 e_res
    chars offsets len_data :
  block !! a0 = Some e0 → block !! a1 = Some e1 → block !! result_pos = Some e_res →
  column e0 = ColumnString chars offsets → column e1 = ColumnInt32 len_data →
  result_column (FunctionLeft.executeImpl dcheck_is_on block [a0; a1] result_pos n)
    result_pos
  = ('(nm, rc, ro) ←
       FunctionSubstring.vector chars offsets (replicate n 1) len_data (replicate n 0) [] [];
     Ok (ColumnNullable (ColumnString rc ro) nm)).
Proof.
  intros H0 H1 Hres Hc0 Hc1.
  rewrite (left_is_substring _ _ _ _ _ _ _ _ _ H0 H1 Hres). unfold left_as_substring.
  rewrite (substring_columns_pos_full _ _ _ (ColumnInt32 (replicate n 1))) by done.
  rewrite Hc0, Hc1. apply substring_columns_vector.
Qed.

Lemma vector_column_Ok chars offsets start len null_map nm rc ro :
  ('(nm, rc, ro) ← FunctionSubstring.vector chars offsets start len null_map [] [];
   Ok (ColumnNullable (ColumnString rc ro) nm))
  = Ok (ColumnNullable (ColumnString rc ro) nm) →
  FunctionSubstring.vector chars offsets start len null_map [] [] = Ok (nm, rc, ro).
Proof.
  intros H. apply bind_Ok in H as ([[nm' rc'] ro'] & Hrun & H). by injection H as -> -> ->.
Qed.

(** X11.  [left(s, n)] row by row, for a string column and a column of
    [Int32] that are neither constant nor nullable: in the column that
    [left] writes, the row of an empty string is NULL; the row of a string
    that is not empty is the empty string for [n <= 0] and else the first
    [n] characters, of the width [w] that the round of the row decodes,
    that is the first [n * w] bytes of the string, and it is not NULL. *)
Theorem left_rows dcheck_is_on block a0 a1 result_pos n e0 e1 e_res chars offsets len_data
    i (s : list Z) l nm rc ro :
  block !! a0 = Some e0 → block !! a1 = Some e1 → block !! result_pos = Some e_res →
  column e0 = ColumnString chars offsets → column e1 = ColumnInt32 len_data →
  result_column (FunctionLeft.executeImpl dcheck_is_on block [a0; a1] result_pos n)
    result_pos
  = Ok (ColumnNullable (ColumnString rc ro) nm) →
  (i < n)%nat → string_at chars offsets i = Ok s → lengthZ s <= INT32_MAX →
  len_data !! i = Some l → is_int32 l →
  (s = [] → nm !! i = Some 1 ∧ row_is rc ro i []) ∧
  (s ≠ [] → l <= 0 → row_is rc ro i [] ∧ nm !! i = Some 0) ∧
  (s ≠ [] → 0 < l →
   ∀ p byte, prev_offset offsets i = Ok p → getZ chars (p + Z.of_nat i) = Ok byte →
     row_is rc ro i (take (Z.to_nat (l * get_utf8_byte_length byte)) s) ∧
     nm !! i = Some 0).
Proof.
  intros H0 H1 Hres Hc0 Hc1 Hrun Hi Hs Hmax Hl Hl32.
  rewrite (left_runs_vector _ _ _ _ _ _ _ _ _ chars offsets len_data H0 H1 Hres Hc0 Hc1)
    in Hrun.
  apply vector_column_Ok in Hrun.
  pose proof (string_at_row _ _ _ _ Hs) as Hrow.
  assert (replicate n 1 !! i = Some 1) as Hstart by (by apply lookup_replicate_2).
  assert (replicate n 0 !! i = Some 0) as Hzero by (by apply lookup_replicate_2).
  pose proof (string_at_size _ _ _ _ Hs Hmax) as Hsize.
  unfold is_int32 in Hl32.
  split; [|split].
  - intros ->.
    apply (vector_output_null _ _ _ _ _ _ _ Hrow) in Hrun; [done|].
    intros nm' rc' ro'.
    apply (vector_row_start_past_end _ _ _ _ _ 0 1); [done|done|lia].
  - intros Hne Hle. pose proof (lengthZ_pos s Hne) as Hpos.
    apply (vector_output_value _ _ _ _ _ _ _ [] Hrow) in Hrun.
    + unfold null_of in Hrun. simpl in Hrun. by rewrite Hzero in Hrun.
    + intros nm' rc' ro'.
      rewrite (vector_row_empty _ _ _ _ _ _ _ _ _ _ _ Hsize Hstart Hl) by (lia || auto).
      unfold StringOP.push_value_string, StringOP.push_empty_string.
      by rewrite app_nil_r.
  - intros Hne Hpos p byte Hp Hbyte. apply read_padded_getZ in Hbyte.
    pose proof (lengthZ_pos s Hne) as Hs0.
    pose proof (get_utf8_byte_length_bounds byte) as Hw.
    apply (vector_output_value _ _ _ _ _ _ _
             (take (Z.to_nat (l * get_utf8_byte_length byte)) s) Hrow) in Hrun.
    + unfold null_of in Hrun. simpl in Hrun. by rewrite Hzero in Hrun.
    + intros nm' rc' ro'.
      rewrite (vector_row_positive _ _ _ _ _ s 1 l p byte)
        by (done || unfold INT32_MAX in *; lia).
      assert (0 < char_slots (lengthZ s) (get_utf8_byte_length byte)) as Hslots
        by (apply char_slots_lt; lia).
      rewrite (proj2 (Z.ltb_ge _ _)) by lia.
      unfold span. by replace (Z.to_nat ((1 - 1) * get_utf8_byte_length byte)) with 0%nat by lia.
Qed.

(** The column that [right] writes, computed from the column of the
    first argument and the two nested columns only. *)
Lemma right_result_from_columns dcheck_is_on block a0 a1 result_pos n e0 e_res c0 c1 :
  block !! a0 = Some e0 → block !! result_pos = Some e_res →
  FunctionRight.getNestedColumnIfNull block a0 = Ok c0 →
  FunctionRight.getNestedColumnIfNull block a1 = Ok c1 →
  result_column (FunctionRight.executeImpl dcheck_is_on block [a0; a1] result_pos n)
    result_pos
  = ('(_, str_offset) ← assert_cast_ColumnString c0;
     pos_data ← assert_cast_ColumnInt32 c1;
     strlen_data ← for_range 0 n (FunctionRight.strlen_row str_offset) (replicate n 0);
     index_data ← for_range 0 n (FunctionRight.index_row pos_data strlen_data)
                    (replicate n 0);
     substring_columns dcheck_is_on (column e0) (ColumnInt32 index_data)
       (ColumnInt32 strlen_data) n).
Proof.
  intros H0 Hres Hc0 Hc1. unfold FunctionRight.executeImpl.
  change (get [a0; a1] 0) with (Ok a0). rewrite ret_bind, Hc0, ret_bind.
  destruct (assert_cast_ColumnString c0) as [[chars str_offset]| | |]; try done.
  rewrite !ret_bind. change (get [a0; a1] 1) with (Ok a1). rewrite ret_bind, Hc1, ret_bind.
  destruct (assert_cast_ColumnInt32 c1) as [pos_data| | |]; try done.
  rewrite !ret_bind.
  destruct (for_range 0 n (FunctionRight.strlen_row str_offset) _) as [strlen_data| | |];
    try done.
  rewrite !ret_bind.
  destruct (for_range 0 n (FunctionRight.index_row pos_data strlen_data) _)
    as [index_data| | |]; try done.
  rewrite !ret_bind. unfold BlockOps.insert, BlockOps.columns.
  apply (substring_execute_columns _ _ _ _ _ _ _ e0
           (mkColumn (ColumnInt32 index_data) DataTypeInt32 "index")
           (mkColumn (ColumnInt32 strlen_data) DataTypeInt32 "strlen") e_res).
  - apply lookup_app_l_Some. by apply lookup_app_l_Some.
  - apply lookup_app_l_Some. by apply list_lookup_middle.
  - apply list_lookup_middle. rewrite length_app. simpl. lia.
  - apply lookup_app_l_Some. by apply lookup_app_l_Some.
Qed.

(** The loop over the counts returns only when every count can be
    negated. *)
Lemma index_loop_negates pos_data strlen_data n : ∀ a l l',
  for_range a n (FunctionRight.index_row pos_data strlen_data) l = Ok l' →
  ∀ i, (a <= i < a + n)%nat → pos_data !! i ≠ Some (- 2 ^ 31).
Proof.
  induction n as [|n IH]; intros a l l' Hrun i Hi; [lia|].
  rewrite for_range_S in Hrun. apply bind_Ok in Hrun as (l1 & Hb & Hrun).
  destruct (decide (i = a)) as [->|Hne]; [|apply (IH _ _ _ Hrun); lia].
  unfold FunctionRight.index_row in Hb.
  apply bind_Ok in Hb as (pos_i & Hpos%get_Ok & Hb).
  apply bind_Ok in Hb as (strlen_i & _ & Hb).
  apply bind_Ok in Hb as (neg_pos & Hneg%neg_int32_min & _).
  rewrite Hpos. by intros [= ->].
Qed.

(** [right] returns a column only when every count of the batch can be
    negated. *)
Lemma right_negates_counts dcheck_is_on block a0 a1 result_pos n e0 e1 e_res
    chars offsets pos_data c :
  block !! a0 = Some e0 → block !! a1 = Some e1 → block !! result_pos = Some e_res →
  column e0 = ColumnString chars offsets → column e1 = ColumnInt32 pos_data →
  result_column (FunctionRight.executeImpl dcheck_is_on block [a0; a1] result_pos n)
    result_pos
  = Ok c →
  ∀ i, (i < n)%nat → pos_data !! i ≠ Some (- 2 ^ 31).
Proof.
  intros H0 H1 Hres Hc0 Hc1 Hrun i Hi.
  rewrite (right_result_from_columns _ _ _ _ _ _ e0 e_res (ColumnString chars offsets)
             (ColumnInt32 pos_data) H0 Hres) in Hrun.
  - simpl in Hrun.
    apply bind_Ok in Hrun as (strlen_data & _ & Hrun).
    apply bind_Ok in Hrun as (index_data & Hloop & _).
    apply (index_loop_negates _ _ _ _ _ _ Hloop). lia.
  - unfold FunctionRight.getNestedColumnIfNull, BlockOps.getByPosition.
    by rewrite (proj2 (get_Ok _ _ _) H0), ret_bind, Hc0.
  - unfold FunctionRight.getNestedColumnIfNull, BlockOps.getByPosition.
    by rewrite (proj2 (get_Ok _ _ _) H1), ret_bind, Hc1.
Qed.

(** [right] on columns that are neither constant nor nullable runs
    [vector] on the positions and lengths it computes. *)
Lemma right_runs_vector dcheck_is_on block a0 a1 result_pos n e0 e1 e_res
    chars offsets pos_data :
  block !! a0 = Some e0 → block !! a1 = Some e1 → block !! result_pos = Some e_res →
  column e0 = ColumnString chars offsets → column e1 = ColumnInt32 pos_data →
  (n <= length pos_data)%nat →
  (∀ i, (i < n)%nat → ∃ s, string_at chars offsets i = Ok s ∧ lengthZ s <= INT32_MAX) →
  (∀ i, (i < n)%nat → pos_data !! i ≠ Some (- 2 ^ 31)) →
  result_column (FunctionRight.executeImpl dcheck_is_on block [a0; a1] result_pos n)
    result_pos
  = ('(nm, rc, ro) ←
       FunctionSubstring.vector chars offsets
         (right_index chars offsets pos_data <$> seq 0 n)
         (right_strlen chars offsets <$> seq 0 n) (replicate n 0) [] [];
     Ok (ColumnNullable (ColumnString rc ro) nm)).
Proof.
  intros H0 H1 Hres Hc0 Hc1 Hn Hrows Hmin.
  rewrite (right_is_substring _ _ _ _ _ _ _ _ _ chars offsets pos_data H0 H1 Hres);
    try done.
  - unfold right_as_substring. rewrite Hc0. apply substring_columns_vector.
  - unfold FunctionRight.getNestedColumnIfNull, BlockOps.getByPosition.
    by rewrite (proj2 (get_Ok _ _ _) H0), ret_bind, Hc0.
  - by rewrite Hc1.
Qed.

Lemma right_arguments_lookup chars offsets pos_data n i (s : list Z) k :
  (i < n)%nat → string_at chars offsets i = Ok s → pos_data !! i = Some k →
  (right_index chars offsets pos_data <$> seq 0 n) !! i
  = Some (Z.max (to_int32 (- k)) (to_int32 (- lengthZ s))) ∧
  (right_strlen chars offsets <$> seq 0 n) !! i = Some (lengthZ s).
Proof.
  intros Hi Hs Hk. rewrite !list_lookup_fmap, lookup_seq_lt by done. simpl.
  unfold right_index, right_strlen, row_or_empty. by rewrite Hs, Hk.
Qed.

Lemma span_to_end w (s : list Z) a :
  1 <= w → 0 <= a → span w s a (lengthZ s) = drop (Z.to_nat (a * w)) s.
Proof.
  intros Hw Ha. unfold span. apply take_ge. rewrite length_drop. unfold lengthZ. nia.
Qed.

(** X12.  [right(s, n)] row by row for [n > 0], for a string column and a
    column of [Int32] that are neither constant nor nullable: in the
    column that [right] writes, the row of a string [s] that is not empty
    is computed from [substring(s, -min(n, size), size)] with [size] the
    byte length: the row is cut into characters of the decoded width [w],
    [min(n, size)] of them are counted back from the end, and the row is
    NULL when that is two or more characters before the first one, and else
    the rest of [s] from that character on.  For [w = 1] this is the last
    [min(n, size)] bytes of [s]. *)
Theorem right_rows dcheck_is_on block a0 a1 result_pos n e0 e1 e_res chars offsets pos_data
    i (s : list Z) k p byte nm rc ro :
  block !! a0 = Some e0 → block !! a1 = Some e1 → block !! result_pos = Some e_res →
  column e0 = ColumnString chars offsets → column e1 = ColumnInt32 pos_data →
  (n <= length pos_data)%nat →
  (∀ j, (j < n)%nat → ∃ s, string_at chars offsets j = Ok s ∧ lengthZ s <= INT32_MAX) →
  result_column (FunctionRight.executeImpl dcheck_is_on block [a0; a1] result_pos n)
    result_pos
  = Ok (ColumnNullable (ColumnString rc ro) nm) →
  (i < n)%nat → string_at chars offsets i = Ok s → s ≠ [] →
  pos_data !! i = Some k → 0 < k <= INT32_MAX →
  prev_offset offsets i = Ok p → getZ chars (p + Z.of_nat i) = Ok byte →
  if char_slots (lengthZ s) (get_utf8_byte_length byte) - Z.min k (lengthZ s) <? 0
  then nm !! i = Some 1 ∧ row_is rc ro i []
  else
    row_is rc ro i
      (drop (Z.to_nat ((char_slots (lengthZ s) (get_utf8_byte_length byte)
                        - Z.min k (lengthZ s)) * get_utf8_byte_length byte)) s) ∧
    nm !! i = Some 0.
Proof.
  intros H0 H1 Hres Hc0 Hc1 Hn Hrows Hrun Hi Hs Hne Hk Hk32 Hp Hbyte.
  apply read_padded_getZ in Hbyte.
  pose proof (right_negates_counts _ _ _ _ _ _ _ _ _ _ _ _ _ H0 H1 Hres Hc0 Hc1 Hrun) as Hmin.
  rewrite (right_runs_vector _ _ _ _ _ _ _ _ _ chars offsets pos_data H0 H1 Hres Hc0 Hc1
             Hn Hrows Hmin) in Hrun.
  apply vector_column_Ok in Hrun.
  destruct (Hrows i Hi) as (s' & Hs' & Hmax). rewrite Hs in Hs'. injection Hs' as <-.
  pose proof (string_at_row _ _ _ _ Hs) as Hrow.
  pose proof (lengthZ_pos s Hne) as Hs0.
  pose proof (get_utf8_byte_length_bounds byte) as Hw.
  set (w := get_utf8_byte_length byte) in *.
  destruct (right_arguments_lookup chars offsets pos_data n i s k Hi Hs Hk)
    as [Hstart Hlen].
  unfold INT32_MAX in *.
  rewrite (to_int32_small (- k)), (to_int32_small (- lengthZ s)) in Hstart by lia.
  replace (Z.max (- k) (- lengthZ s)) with (- Z.min k (lengthZ s)) in Hstart by lia.
  assert (replicate n 0 !! i = Some 0) as Hzero by (by apply lookup_replicate_2).
  set (pos := - Z.min k (lengthZ s)) in *.
  replace (char_slots (lengthZ s) w - Z.min k (lengthZ s))
    with (char_slots (lengthZ s) w + pos) by (unfold pos; lia).
  assert (char_slots (lengthZ s) w + pos ≠ -1) as Hedge.
  { intros Hedge.
    destruct (vector_row_of_output _ _ _ _ _ _ _ Hrun Hrow)
      as ([[nm' rc'] ro'] & st' & payload & Hb & _).
    rewrite (vector_row_before_first _ _ _ _ _ s pos (lengthZ s) p byte) in Hb;
      try done; try (unfold INT32_MAX; lia). fold w. lia. }
  assert (∀ nm' rc' ro',
    FunctionSubstring.vector_row chars offsets
      (right_index chars offsets pos_data <$> seq 0 n)
      (right_strlen chars offsets <$> seq 0 n) i (nm', rc', ro')
    = if char_slots (lengthZ s) w + pos <? 0
      then StringOP.push_null_string i rc' ro' nm'
      else
        '(rc', ro') ←
          StringOP.push_value_string
            (drop (Z.to_nat ((char_slots (lengthZ s) w + pos) * w)) s) i rc' ro';
        Ok (nm', rc', ro')) as Hround.
  { intros nm' rc' ro'.
    rewrite (vector_row_negative _ _ _ _ _ s pos (lengthZ s) p byte)
      by (done || unfold INT32_MAX, pos; lia). fold w.
    destruct (Z.ltb_spec (char_slots (lengthZ s) w + pos) 0); [done|].
    by rewrite span_to_end by lia. }
  destruct (char_slots (lengthZ s) w + pos <? 0).
  - by apply (vector_output_null _ _ _ _ _ _ _ Hrow Hround) in Hrun.
  - apply (vector_output_value _ _ _ _ _ _ _ _ Hrow Hround) in Hrun.
    unfold null_of in Hrun. simpl in Hrun. by rewrite Hzero in Hrun.
Qed.

(** X13.  [right(s, n)] row by row for [n <= 0], for a string column and
    a column of [Int32] that are neither constant nor nullable.  For
    [n = 0] the row is the empty string.  For [n < 0] the position
    [max(-n, -size)] is the positive [-n], and the row is
    [substring(s, -n, size)]: NULL when the row has less than [-n]
    characters of the decoded width [w], and else the row from its
    character [-n] on (not the empty string). *)
Theorem right_nonpositive_count dcheck_is_on block a0 a1 result_pos n e0 e1 e_res
    chars offsets pos_data i (s : list Z) k nm rc ro :
  block !! a0 = Some e0 → block !! a1 = Some e1 → block !! result_pos = Some e_res →
  column e0 = ColumnString chars offsets → column e1 = ColumnInt32 pos_data →
  (n <= length pos_data)%nat →
  (∀ j, (j < n)%nat → ∃ s, string_at chars offsets j = Ok s ∧ lengthZ s <= INT32_MAX) →
  result_column (FunctionRight.executeImpl dcheck_is_on block [a0; a1] result_pos n)
    result_pos
  = Ok (ColumnNullable (ColumnString rc ro) nm) →
  (i < n)%nat → string_at chars offsets i = Ok s →
  pos_data !! i = Some k → - 2 ^ 31 < k <= 0 →
  (k = 0 → row_is rc ro i [] ∧ nm !! i = Some 0) ∧
  (k < 0 → s ≠ [] →
   ∀ p byte, prev_offset offsets i = Ok p → getZ chars (p + Z.of_nat i) = Ok byte →
     if char_slots (lengthZ s) (get_utf8_byte_length byte) <? - k
     then nm !! i = Some 1 ∧ row_is rc ro i []
     else row_is rc ro i (drop (Z.to_nat ((- k - 1) * get_utf8_byte_length byte)) s) ∧
          nm !! i = Some 0).
Proof.
  intros H0 H1 Hres Hc0 Hc1 Hn Hrows Hrun Hi Hs Hk Hk32.
  pose proof (right_negates_counts _ _ _ _ _ _ _ _ _ _ _ _ _ H0 H1 Hres Hc0 Hc1 Hrun) as Hmin.
  rewrite (right_runs_vector _ _ _ _ _ _ _ _ _ chars offsets pos_data H0 H1 Hres Hc0 Hc1
             Hn Hrows Hmin) in Hrun.
  apply vector_column_Ok in Hrun.
  destruct (Hrows i Hi) as (s' & Hs' & Hmax). rewrite Hs in Hs'. injection Hs' as <-.
  pose proof (string_at_row _ _ _ _ Hs) as Hrow.
  pose proof (lengthZ_nonneg s) as Hs0.
  pose proof (string_at_size _ _ _ _ Hs Hmax) as Hsize.
  destruct (right_arguments_lookup chars offsets pos_data n i s k Hi Hs Hk)
    as [Hstart Hlen].
  unfold INT32_MAX in *.
  rewrite (to_int32_small (- k)), (to_int32_small (- lengthZ s)) in Hstart by lia.
  replace (Z.max (- k) (- lengthZ s)) with (- k) in Hstart by lia.
  assert (replicate n 0 !! i = Some 0) as Hzero by (by apply lookup_replicate_2).
  split.
  - intros ->.
    apply (vector_output_value _ _ _ _ _ _ _ [] Hrow) in Hrun.
    + unfold null_of in Hrun. simpl in Hrun. by rewrite Hzero in Hrun.
    + intros nm' rc' ro'.
      rewrite (vector_row_empty _ _ _ _ _ _ _ _ _ _ _ Hsize Hstart Hlen) by (lia || auto).
      unfold StringOP.push_value_string, StringOP.push_empty_string.
      by rewrite app_nil_r.
  - intros Hneg Hne p byte Hp Hbyte. apply read_padded_getZ in Hbyte.
    pose proof (lengthZ_pos s Hne) as Hpos.
    pose proof (get_utf8_byte_length_bounds byte) as Hw.
    assert (∀ nm' rc' ro',
      FunctionSubstring.vector_row chars offsets
        (right_index chars offsets pos_data <$> seq 0 n)
        (right_strlen chars offsets <$> seq 0 n) i (nm', rc', ro')
      = if char_slots (lengthZ s) (get_utf8_byte_length byte) <? - k
        then StringOP.push_null_string i rc' ro' nm'
        else
          '(rc', ro') ←
            StringOP.push_value_string
              (drop (Z.to_nat ((- k - 1) * get_utf8_byte_length byte)) s) i rc' ro';
          Ok (nm', rc', ro')) as Hround.
    { intros nm' rc' ro'.
      rewrite (vector_row_positive _ _ _ _ _ s (- k) (lengthZ s) p byte)
        by (done || unfold INT32_MAX; lia).
      destruct (_ <? - k); [done|]. by rewrite span_to_end by lia. }
    destruct (_ <? - k).
    + by apply (vector_output_null _ _ _ _ _ _ _ Hrow Hround) in Hrun.
    + apply (vector_output_value _ _ _ _ _ _ _ _ Hrow Hround) in Hrun.
      unfold null_of in Hrun. simpl in Hrun. by rewrite Hzero in Hrun.
Qed.

(** ** What [right] reads of its arguments *)


(** X14.  [right] does not look at the null map of its second argument:
    for a nullable column [n] of [Int32], the column that [right(s, n)]
    writes is the one it writes for the values of [n] without the null
    map, whatever the null map holds; a row in which [n] is NULL is
    computed from the value that is stored under the NULL, and is not made
    NULL. *)
Theorem right_ignores_null_count dcheck_is_on block a0 a1 result_pos n e0 e1 e_res
    pos_data null_map :
  block !! a0 = Some e0 → block !! a1 = Some e1 → block !! result_pos = Some e_res →
  a0 ≠ a1 → column e1 = ColumnNullable (ColumnInt32 pos_data) null_map →
  result_column (FunctionRight.executeImpl dcheck_is_on block [a0; a1] result_pos n)
    result_pos
  = result_column
      (FunctionRight.executeImpl dcheck_is_on
         (<[a1 := mkColumn (ColumnInt32 pos_data) (type e1) (name e1)]> block)
         [a0; a1] result_pos n)
      result_pos.
Proof.
  intros H0 H1 Hres Hne Hc1.
  set (block' := <[a1 := mkColumn (ColumnInt32 pos_data) (type e1) (name e1)]> block).
  assert (∃ e_res', block' !! result_pos = Some e_res') as [e_res' Hres'].
  { apply lookup_lt_is_Some. unfold block'. rewrite length_insert.
    by eapply lookup_lt_Some. }
  assert (block' !! a0 = Some e0) as H0'
    by (unfold block'; by rewrite list_lookup_insert_ne).
  assert (block' !! a1 = Some (mkColumn (ColumnInt32 pos_data) (type e1) (name e1))) as H1'.
  { apply list_lookup_insert_eq. by eapply lookup_lt_Some. }
  assert (FunctionRight.getNestedColumnIfNull block' a0
          = FunctionRight.getNestedColumnIfNull block a0) as Hsame.
  { unfold FunctionRight.getNestedColumnIfNull, BlockOps.getByPosition.
    by rewrite (proj2 (get_Ok _ _ _) H0), (proj2 (get_Ok _ _ _) H0'). }
  assert (FunctionRight.getNestedColumnIfNull block a1 = Ok (ColumnInt32 pos_data)) as Hn.
  { unfold FunctionRight.getNestedColumnIfNull, BlockOps.getByPosition.
    by rewrite (proj2 (get_Ok _ _ _) H1), ret_bind, Hc1. }
  assert (FunctionRight.getNestedColumnIfNull block' a1 = Ok (ColumnInt32 pos_data)) as Hn'.
  { unfold FunctionRight.getNestedColumnIfNull, BlockOps.getByPosition.
    by rewrite (proj2 (get_Ok _ _ _) H1'), ret_bind. }
  destruct (FunctionRight.getNestedColumnIfNull block a0) as [c0| | |] eqn:Hc0.
  - by rewrite (right_result_from_columns _ _ _ _ _ _ e0 e_res c0 _ H0 Hres Hc0 Hn),
      (right_result_from_columns _ _ _ _ _ _ e0 e_res' c0 _ H0' Hres' Hsame Hn').
  - unfold FunctionRight.executeImpl.
    change (get [a0; a1] 0) with (Ok a0). by rewrite !ret_bind, Hc0, Hsame.
  - unfold FunctionRight.executeImpl.
    change (get [a0; a1] 0) with (Ok a0). by rewrite !ret_bind, Hc0, Hsame.
  - unfold FunctionRight.executeImpl.
    change (get [a0; a1] 0) with (Ok a0). by rewrite !ret_bind, Hc0, Hsame.
Qed.

(** ** What the calls leave in the block *)

(** [substring_execute] changes the column of the result position, and
    nothing else of the block. *)
Lemma substring_execute_frame dcheck_is_on block arguments result_pos n block' e_res :
  FunctionSubstring.substring_execute dcheck_is_on block arguments result_pos n = Ok block' →
  block !! result_pos = Some e_res →
  ∃ col, block' = <[result_pos := mkColumn col (type e_res) (name e_res)]> block.
Proof.
  intros Hrun Hres. unfold FunctionSubstring.substring_execute in Hrun.
  apply bind_Ok in Hrun as (_ & _ & Hrun).
  apply bind_Ok in Hrun as ([acs nm0] & _ & Hrun).
  apply bind_Ok in Hrun as ([chars offsets] & _ & Hrun).
  apply bind_Ok in Hrun as (start & _ & Hrun).
  apply bind_Ok in Hrun as (len & _ & Hrun).
  apply bind_Ok in Hrun as ([[nm1 rc] ro] & _ & Hset).
  rewrite (set_column_Ok _ _ _ _ Hres) in Hset. injection Hset as <-. by eexists.
Qed.

Lemma for_range_set_length (body : nat → list Z → result (list Z)) a n l l' :
  (∀ k t t', body k t = Ok t' → length t' = length t) →
  for_range a n body l = Ok l' → length l' = length l.
Proof.
  intros Hbody Hrun.
  apply (for_range_invariant (fun _ t => length t = length l)) in Hrun; [done| |done].
  intros k t t' _ Ht Hb. apply Hbody in Hb. lia.
Qed.

(** X15.  [left] and [right] leave their helper columns in the block of
    the caller.  A call of [left] that returns has appended one column,
    ["const 1"], of [n] ones, behind the columns of the block; a call of
    [right] that returns has appended two columns, ["index"] and
    ["strlen"], of [n] values each.  Each of the two holds whether or not
    the other function returns on the block.  Of the columns the block
    had, only the result column is changed, and it keeps its type and its
    name. *)
Theorem left_right_grow_block dcheck_is_on block a0 a1 result_pos n e_res :
  block !! result_pos = Some e_res →
  (∀ block_l,
     FunctionLeft.executeImpl dcheck_is_on block [a0; a1] result_pos n = Ok block_l →
     ∃ col,
       block_l = <[result_pos := mkColumn col (type e_res) (name e_res)]> block
                 ++ [mkColumn (ColumnInt32 (replicate n 1)) DataTypeInt32 "const 1"]) ∧
  (∀ block_r,
     FunctionRight.executeImpl dcheck_is_on block [a0; a1] result_pos n = Ok block_r →
     ∃ col index_data strlen_data,
       length index_data = n ∧ length strlen_data = n ∧
       block_r = <[result_pos := mkColumn col (type e_res) (name e_res)]> block
                 ++ [mkColumn (ColumnInt32 index_data) DataTypeInt32 "index";
                     mkColumn (ColumnInt32 strlen_data) DataTypeInt32 "strlen"]).
Proof.
  intros Hres. pose proof (lookup_lt_Some _ _ _ Hres) as Hlt.
  split; [intros block_l Hleft | intros block_r Hright].
  - unfold FunctionLeft.executeImpl in Hleft.
    change (convertToFullColumnIfConst (createColumnConst n 1))
      with (Ok (ColumnInt32 (replicate n 1))) in Hleft.
    rewrite ret_bind in Hleft.
    apply bind_Ok in Hleft as (x0 & _ & Hleft). apply bind_Ok in Hleft as (x1 & _ & Hleft).
    unfold BlockOps.insert in Hleft.
    apply (substring_execute_frame _ _ _ _ _ _ e_res) in Hleft as [col ->];
      [|by apply lookup_app_l_Some].
    exists col. by rewrite insert_app_l.
  - unfold FunctionRight.executeImpl in Hright.
    apply bind_Ok in Hright as (x0 & _ & Hright).
    apply bind_Ok in Hright as (str_col & _ & Hright).
    apply bind_Ok in Hright as ([chars str_offset] & _ & Hright).
    apply bind_Ok in Hright as (x1 & _ & Hright).
    apply bind_Ok in Hright as (pos_col & _ & Hright).
    apply bind_Ok in Hright as (pos_data & _ & Hright).
    apply bind_Ok in Hright as (strlen_data & Hstrlen & Hright).
    apply bind_Ok in Hright as (index_data & Hindex & Hright).
    unfold BlockOps.insert in Hright.
    apply (substring_execute_frame _ _ _ _ _ _ e_res) in Hright as [col ->];
      [|apply lookup_app_l_Some; by apply lookup_app_l_Some].
    exists col, index_data, strlen_data.
    apply for_range_set_length in Hstrlen; last first.
    { intros k t t' Hb. unfold FunctionRight.strlen_row in Hb. inv_ok.
      by rewrite length_insert. }
    apply for_range_set_length in Hindex; last first.
    { intros k t t' Hb. unfold FunctionRight.index_row in Hb. inv_ok.
      by rewrite length_insert. }
    rewrite length_replicate in Hstrlen, Hindex.
    split; [done|]. split; [done|].
    rewrite <- app_assoc. simpl. by rewrite insert_app_l.
Qed.

(** ** [concat_ws] with more than three arguments *)

Lemma plain_bind {A B} (m : result A) (f : A → result B) :
  plain m → (∀ a, plain (f a)) → plain (m ≫= f).
Proof. destruct m; simpl; auto; done. Qed.

Lemma plain_for_range {S} (body : nat → S → result S) a n s :
  (∀ k t, plain (body k t)) → plain (for_range a n body s).
Proof.
  intros Hbody. revert a s. induction n as [|n IH]; intros a s; [done|].
  rewrite for_range_S. apply plain_bind; [apply Hbody | intros t; apply IH].
Qed.

Lemma plain_get {A} (l : list A) i : plain (get l i).
Proof. unfold get. by destruct (l !! i). Qed.

Lemma plain_set_at {A} (l : list A) i x : plain (set_at l i x).
Proof. unfold set_at. by case_bool_decide. Qed.

Lemma plain_slice chars ptr size : plain (slice chars ptr size).
Proof. unfold slice. by case_bool_decide. Qed.

Lemma plain_replicate_first_row data s : plain (replicate_first_row data s).
Proof.
  induction data as [chars offsets|data|data|nested IH null_map|data IH s']; simpl;
    try done.
  - apply plain_bind; [apply plain_get|]. intros end_0.
    apply plain_bind; [apply plain_slice|]. done.
  - apply plain_bind; [apply plain_get|]. done.
  - apply plain_bind; [apply plain_get|]. done.
  - apply plain_bind; [apply IH|]. intros nested'.
    apply plain_bind; [apply plain_get|]. done.
Qed.

Lemma plain_convertToFullColumnIfConst c : plain (convertToFullColumnIfConst c).
Proof. destruct c; simpl; try done. apply plain_replicate_first_row. Qed.

Lemma plain_concat_ws_normalize block arguments const_null_map i st :
  plain (FunctionStringConcatWs.normalize_argument block arguments const_null_map i st).
Proof.
  destruct st as [[[acs ol] cl] nl]. unfold FunctionStringConcatWs.normalize_argument.
  apply plain_bind; [apply plain_get|]. intros a.
  apply plain_bind; [apply plain_get|]. intros e.
  apply plain_bind; [apply plain_convertToFullColumnIfConst|]. intros c.
  apply plain_bind; [apply plain_set_at|]. intros acs'.
  apply plain_bind.
  { destruct c; try (apply plain_bind; [apply plain_set_at|]; done).
    apply plain_bind; [apply plain_set_at|]. intros acs''.
    apply plain_bind; [apply plain_set_at|]. done. }
  intros [acs'' nl'].
  apply plain_bind; [apply plain_get|]. intros p.
  apply plain_bind; [by destruct p|]. intros col.
  apply plain_bind; [by destruct col|]. intros [chars offsets].
  apply plain_bind; [apply plain_set_at|]. intros ol'.
  apply plain_bind; [apply plain_set_at|]. done.
Qed.

(** The loop over the arguments does not get past the fourth argument. *)
Lemma concat_ws_normalize_overflows block arguments const_null_map ol cl nl st' :
  (3 < length arguments)%nat →
  for_range 0 (length arguments)
    (FunctionStringConcatWs.normalize_argument block arguments const_null_map)
    (replicate 3 None, ol, cl, nl) ≠ Ok st'.
Proof.
  intros Hlen Hloop.
  destruct (for_range_prefix _ _ _ _ _ 3 Hloop) as (st3 & Hpre & Hrest); [lia|].
  apply (for_range_invariant (fun _ t => length t.1.1.1 = 3%nat)) in Hpre; [|..].
  - destruct (length arguments - 3)%nat as [|m] eqn:Hm; [lia|]. simpl in Hrest.
    apply bind_Ok in Hrest as (st4 & Hstep & _).
    apply concat_ws_normalize_length in Hstep as [Hlt _]. lia.
  - intros k t t' _ Ht Hstep. apply concat_ws_normalize_length in Hstep as [_ ->]. done.
  - done.
Qed.

(** X16.  Every call of [concat_ws] with more than three arguments (a
    separator and three strings or more) writes outside of an array,
    whatever the block holds: the loop over the arguments writes
    [argument_columns[3]], and [argument_columns] is declared with three
    elements.  The write is undefined behaviour, and the call is
    [Undefined].  (What a build returns after the write is not said.) *)
Theorem concat_ws_over_three_arguments dcheck_is_on block arguments result_pos n :
  (3 < length arguments)%nat →
  FunctionStringConcatWs.executeImpl dcheck_is_on block arguments result_pos n = Undefined.
Proof.
  intros Hlen. unfold FunctionStringConcatWs.executeImpl.
  rewrite (bool_decide_true (2 <= length arguments)%nat) by lia.
  rewrite DCHECK_true, ret_bind.
  pose proof (plain_for_range
                (FunctionStringConcatWs.normalize_argument block arguments (replicate n 0))
                0 (length arguments)
                (replicate 3 None, replicate (length arguments) [],
                 replicate (length arguments) [], replicate (length arguments) [])
                (plain_concat_ws_normalize block arguments (replicate n 0))) as Hplain.
  pose proof (concat_ws_normalize_overflows block arguments (replicate n 0)
                (replicate (length arguments) []) (replicate (length arguments) [])
                (replicate (length arguments) [])) as Hover.
  destruct (for_range 0 (length arguments) _ _) as [st'| | |]; try done.
  by destruct (Hover st' Hlen).
Qed.

Lemma concat_ws_over_three_arguments_witness :
  let col (b : Z) := mkColumn (ColumnString [b; 0] [2]) DataTypeString "arg" in
  FunctionStringConcatWs.executeImpl false
    [col 44; col 97; col 98; col 99; mkColumn (ColumnUInt8 []) DataTypeString "result"]
    [0; 1; 2; 3]%nat 4 1
  = Undefined.
Proof.
  intros col.
  apply (concat_ws_over_three_arguments false
           [col 44; col 97; col 98; col 99; mkColumn (ColumnUInt8 []) DataTypeString "result"]
           [0; 1; 2; 3]%nat 4 1).
  simpl. lia.
Defined.

(** ** The index of the inner loop of [substring] *)

(** X17.  The inner loop of [vector], run on a row of [str_size > 0]
    bytes whose decoded byte [raw_str[i]] can be read: it ends within
    [str_size] rounds, and the index it builds holds the offsets [0], [w],
    [2 w], ... of characters of the one width [w] of that byte, all of them
    inside the row; it holds one offset per character of width [w] of the
    row, unless the position is positive and the [break] ends the loop
    with [start + len + 1] offsets. *)
Theorem substring_index_closed_form chars raw_str i str_size start_i len_i byte :
  0 < str_size < 2 ^ 31 →
  getZ chars (raw_str + Z.of_nat i) = Ok byte →
  FunctionSubstring.scan (Z.to_nat str_size) chars raw_str i str_size start_i len_i 0 []
  = Ok (grid (get_utf8_byte_length byte)
          (Z.to_nat (scan_count str_size (get_utf8_byte_length byte) start_i len_i))) ∧
  1 <= scan_count str_size (get_utf8_byte_length byte) start_i len_i
    <= char_slots str_size (get_utf8_byte_length byte) ∧
  char_slots str_size (get_utf8_byte_length byte) <= str_size ∧
  (∀ (k : nat) e,
     grid (get_utf8_byte_length byte)
       (Z.to_nat (scan_count str_size (get_utf8_byte_length byte) start_i len_i)) !! k
     = Some e →
     e = Z.of_nat k * get_utf8_byte_length byte ∧ 0 <= e < str_size) ∧
  (0 < start_i → 0 <= start_i + len_i < 2 ^ 31 →
   scan_count str_size (get_utf8_byte_length byte) start_i len_i <= start_i + len_i + 1).
Proof.
  intros Hsize Hbyte. apply read_padded_getZ in Hbyte.
  pose proof (get_utf8_byte_length_bounds byte) as Hw.
  set (w := get_utf8_byte_length byte) in *.
  pose proof (scan_count_bounds str_size w start_i len_i ltac:(lia) ltac:(lia)) as Hm.
  pose proof (char_slots_le str_size w ltac:(lia) ltac:(lia)) as Hslots.
  split; [by apply scan_grid|]. split; [done|]. split; [done|]. split.
  - intros k e Hk. unfold grid in Hk. rewrite list_lookup_fmap in Hk.
    destruct (seq 0 _ !! k) as [k'|] eqn:Hseq; [|done].
    apply lookup_seq in Hseq as [-> Hlt]. simpl in Hk. injection Hk as <-.
    split; [done|].
    pose proof (char_slots_lt str_size w (Z.of_nat k) ltac:(lia)) as Hlt'. nia.
  - intros Hpos Hsum. unfold scan_count.
    rewrite to_int32_small, to_size_t_small by lia.
    destruct ((0 <? start_i) && (start_i + len_i <? char_slots str_size w)) eqn:Hc; [lia|].
    apply andb_false_iff in Hc as [Hc|Hc]; [apply Z.ltb_ge in Hc; lia|].
    apply Z.ltb_ge in Hc. lia.
Qed.

(** ** The layout that [StringOP] builds *)

(** X18.  Round trip of the column layout.  Pushing the strings of
    [rows] one per round with [push_value_string], from an empty column
    with an offset for every row, builds the column in which every string
    is followed by one terminator and the offsets are the cumulative ends;
    and reading row [i] of that column, from [offsets[i - 1]] up to the
    terminator in front of [offsets[i]], gives back the string that was
    pushed. *)
Theorem push_value_string_round_trip (rows : list (list Z)) :
  for_range 0 (length rows)
    (fun i (st : list Z * list Z) =>
       StringOP.push_value_string (default [] (rows !! i)) i st.1 st.2)
    ([], resize [] (length rows))
  = Ok (bytes_of rows, ends rows) ∧
  ∀ i s, rows !! i = Some s →
    string_at (bytes_of rows) (ends rows) i = Ok s ∧
    getZ (bytes_of rows) (lengthZ (bytes_of (take i rows)) + lengthZ s) = Ok 0.
Proof.
  split.
  - rewrite (push_values_loop _ (fun i => default [] (rows !! i))) by done.
    by rewrite fmap_seq_lookups.
  - intros i s Hs. split; [by apply encode_string_at|].
    rewrite <- (take_drop (Datatypes.S i) rows) at 1.
    rewrite bytes_of_app, (bytes_of_take_S _ _ _ Hs).
    pose proof (lengthZ_nonneg (bytes_of (take i rows))).
    pose proof (lengthZ_nonneg s).
    unfold getZ. rewrite !lengthZ_app.
    pose proof (lengthZ_nonneg (bytes_of (drop (Datatypes.S i) rows))).
    change (lengthZ [0]) with 1.
    rewrite bool_decide_true by lia.
    apply get_Ok. rewrite <- !app_assoc.
    rewrite (app_assoc _ s).
    replace (Z.to_nat (lengthZ (bytes_of (take i rows)) + lengthZ s))
      with (length (bytes_of (take i rows) ++ s))
      by (rewrite length_app; unfold lengthZ; lia).
    by apply (list_lookup_middle _ (bytes_of (drop (Datatypes.S i) rows)) 0).
Qed.

(** ** [get_utf8_byte_length] and the lead bytes of UTF-8 *)

(** X19.  [get_utf8_byte_length] on a byte: the width is between 1 and 6
    (so that the inner loop of [substring] always advances); it is 1 for an
    ASCII byte [0xxxxxxx] and also for a continuation byte [10xxxxxx], and
    2, 3, 4, 5 and 6 for the lead bytes [110xxxxx], [1110xxxx],
    [11110xxx], [111110xx] and [1111110x] of UTF-8 and its old five- and
    six-byte forms; the bytes FE and FF count as 6. *)
Theorem get_utf8_byte_length_lead_bytes byte :
  0 <= byte < 256 →
  1 <= get_utf8_byte_length byte <= 6 ∧
  (Z.shiftr byte 7 = 0 → get_utf8_byte_length byte = 1) ∧
  (Z.shiftr byte 6 = 2 → get_utf8_byte_length byte = 1) ∧
  (Z.shiftr byte 5 = 6 → get_utf8_byte_length byte = 2) ∧
  (Z.shiftr byte 4 = 14 → get_utf8_byte_length byte = 3) ∧
  (Z.shiftr byte 3 = 30 → get_utf8_byte_length byte = 4) ∧
  (Z.shiftr byte 2 = 62 → get_utf8_byte_length byte = 5) ∧
  (Z.shiftr byte 2 = 63 → get_utf8_byte_length byte = 6).
Proof.
  intros Hbyte. rewrite !Z.shiftr_div_pow2 by lia.
  split; [apply get_utf8_byte_length_bounds|].
  unfold get_utf8_byte_length.
  repeat split; intros H;
    repeat match goal with
    | |- context [?a <=? ?b] => destruct (Z.leb_spec a b)
    end; try done; exfalso; revert H;
    change (2 ^ 7) with 128; change (2 ^ 6) with 64; change (2 ^ 5) with 32;
    change (2 ^ 4) with 16; change (2 ^ 3) with 8; change (2 ^ 2) with 4;
    intros H; Z.to_euclidean_division_equations; lia.
Qed.

Lemma get_utf8_byte_length_lead_bytes_witness :
  1 <= get_utf8_byte_length 228 <= 6 ∧
  (Z.shiftr 228 7 = 0 → get_utf8_byte_length 228 = 1) ∧
  (Z.shiftr 228 6 = 2 → get_utf8_byte_length 228 = 1) ∧
  (Z.shiftr 228 5 = 6 → get_utf8_byte_length 228 = 2) ∧
  (Z.shiftr 228 4 = 14 → get_utf8_byte_length 228 = 3) ∧
  (Z.shiftr 228 3 = 30 → get_utf8_byte_length 228 = 4) ∧
  (Z.shiftr 228 2 = 62 → get_utf8_byte_length 228 = 5) ∧
  (Z.shiftr 228 2 = 63 → get_utf8_byte_length 228 = 6).
Proof. apply (get_utf8_byte_length_lead_bytes 228). lia. Defined.

(** ** Constant columns as arguments of [substring] *)

Lemma convertToFullColumnIfConst_full c c' :
  convertToFullColumnIfConst c = Ok c' → convertToFullColumnIfConst c' = Ok c'.
Proof.
  destruct c as [| | | |data s]; simpl; try (by intros [= <-]).
  destruct data; simpl; intros H; inv_ok; done.
Qed.

(** X20.  [substring_execute] reads its three argument columns through
    [convertToFullColumnIfConst] only: the column it writes is the one it
    writes for the full columns of its arguments, so that a constant
    argument (string, position or length) behaves as the column that holds
    its value in every row. *)
Theorem substring_constant_arguments dcheck_is_on block a0 a1 a2 result_pos n
    e0 e1 e2 e_res c0 c1 c2 :
  block !! a0 = Some e0 → block !! a1 = Some e1 → block !! a2 = Some e2 →
  block !! result_pos = Some e_res →
  convertToFullColumnIfConst (column e0) = Ok c0 →
  convertToFullColumnIfConst (column e1) = Ok c1 →
  convertToFullColumnIfConst (column e2) = Ok c2 →
  result_column
    (FunctionSubstring.substring_execute dcheck_is_on block [a0; a1; a2] result_pos n)
    result_pos
  = substring_columns dcheck_is_on c0 c1 c2 n.
Proof.
  intros H0 H1 H2 Hres Hc0 Hc1 Hc2.
  rewrite (substring_execute_columns _ _ _ _ _ _ _ e0 e1 e2 e_res) by done.
  pose proof (convertToFullColumnIfConst_full _ _ Hc0) as Hf0.
  pose proof (convertToFullColumnIfConst_full _ _ Hc1) as Hf1.
  pose proof (convertToFullColumnIfConst_full _ _ Hc2) as Hf2.
  unfold substring_columns, FunctionSubstring.substring_execute.
  rewrite !result_column_bind. rewrite !DCHECK_true, !ret_bind.
  match goal with
  | |- for_range 0 3 ?b ?st ≫= _ = for_range 0 3 ?b' _ ≫= _ =>
      rewrite (for_range_ext b b' 0 3 st)
  end.
  - rewrite ?result_column_bind.
    destruct (for_range 0 3 _ _) as [[acs nm]| | |]; try done. rewrite !ret_bind.
    rewrite ?result_column_bind.
    destruct (FunctionSubstring.arg_ColumnString acs 0) as [[chars offsets]| | |]; try done.
    rewrite !ret_bind. rewrite ?result_column_bind.
    destruct (FunctionSubstring.arg_ColumnInt32 acs 1) as [start| | |]; try done.
    rewrite !ret_bind. rewrite ?result_column_bind.
    destruct (FunctionSubstring.arg_ColumnInt32 acs 2) as [len'| | |]; try done.
    rewrite !ret_bind. rewrite ?result_column_bind.
    destruct (FunctionSubstring.vector _ _ _ _ _ _ _) as [[[nm' rc] ro]| | |]; done.
  - intros k [acs nm] Hk. unfold FunctionSubstring.normalize_argument.
    destruct k as [|[|[|k]]]; [| | |lia]; simpl.
    + by rewrite Hc0, Hf0.
    + by rewrite Hc1, Hf1.
    + by rewrite Hc2, Hf2.
Qed.

End properties.

(** * The theorems at concrete inputs

    The theorems about [substring], [left] and [right] hold for every
    content of the memory behind the columns; they are applied here to
    concrete columns, with zeros behind them. *)

#[local] Existing Instance zero_padding.

Lemma substring_start_past_end_is_null_witness :
  (∀ null_map res_chars res_offsets,
     FunctionSubstring.vector_row [97; 0; 97; 98; 0] [2; 5] [2; 2] [7; 1] 0
       (null_map, res_chars, res_offsets)
     = StringOP.push_null_string 0 res_chars res_offsets null_map) ∧
  (∀ null_map out,
     FunctionSubstring.vector [97; 0; 97; 98; 0] [2; 5] [2; 2] [7; 1] null_map [] [] = Ok out →
     null_of out !! 0%nat = Some 1 ∧ row_is (chars_of out) (offsets_of out) 0 []).
Proof.
  apply (substring_start_past_end_is_null [97; 0; 97; 98; 0] [2; 5] [2; 2] [7; 1] 0 1 2);
    [vm_compute; reflexivity | reflexivity | lia].
Defined.

Lemma substring_empty_result_witness :
  (∀ null_map res_chars res_offsets,
     FunctionSubstring.vector_row [97; 0; 97; 98; 0] [2; 5] [0; 2] [7; -1] 1
       (null_map, res_chars, res_offsets)
     = ('(res_chars, res_offsets) ← StringOP.push_empty_string 1 res_chars res_offsets;
        Ok (null_map, res_chars, res_offsets))) ∧
  (∀ null_map out,
     FunctionSubstring.vector [97; 0; 97; 98; 0] [2; 5] [0; 2] [7; -1] null_map [] [] = Ok out →
     row_is (chars_of out) (offsets_of out) 1 [] ∧
     null_of out !! 1%nat = null_map !! 1%nat).
Proof.
  apply (substring_empty_result [97; 0; 97; 98; 0] [2; 5] [0; 2] [7; -1] 1 2 2 (-1));
    [vm_compute; reflexivity | reflexivity | reflexivity | lia | lia].
Defined.

Lemma substring_whole_string_witness :
  let chars := [97; 0; 97; 0; 98; 0] in
  (∀ null_map res_chars res_offsets,
     FunctionSubstring.vector_row chars [2; 4; 6] [1; 1; 1] [1; 1; 1] 2
       (null_map, res_chars, res_offsets)
     = ('(res_chars, res_offsets) ← StringOP.push_value_string [98] 2 res_chars res_offsets;
        Ok (null_map, res_chars, res_offsets))) ∧
  (∀ null_map out,
     FunctionSubstring.vector chars [2; 4; 6] [1; 1; 1] [1; 1; 1] null_map [] [] = Ok out →
     row_is (chars_of out) (offsets_of out) 2 [98] ∧
     string_at (chars_of out) (offsets_of out) 2 = Ok [98] ∧
     null_of out !! 2%nat = null_map !! 2%nat).
Proof.
  intros chars.
  apply (substring_whole_string chars [2; 4; 6] [1; 1; 1] [1; 1; 1] 2 [98]);
    [vm_compute; reflexivity | discriminate | vm_compute; discriminate
    | reflexivity | reflexivity].
Defined.

(** C4 as stated fails on the empty string [e]: [length(e) = 0 < 1], so
    that [substring(e, 1, 0)] leaves through the first exit and is NULL. *)
Lemma substring_whole_string_empty_is_null :
  string_at [0] [1] 0 = Ok [] ∧
  ∃ out, FunctionSubstring.vector [0] [1] [1] [0] [0] [] [] = Ok out ∧
         null_of out !! 0%nat = Some 1.
Proof. split; [reflexivity|]. eexists. split; reflexivity. Qed.

Lemma left_right_are_substring_witness :
  let s := ColumnString [97; 98; 99; 0; 0; 228; 184; 173; 0] [4; 5; 9] in
  let n_col := ColumnInt32 [2; 1; 3] in
  let e0 := mkColumn s DataTypeString "s" in
  let e1 := mkColumn n_col DataTypeInt32 "n" in
  let e_res := mkColumn (ColumnUInt8 []) (DataTypeNullable DataTypeString) "result" in
  result_column (FunctionLeft.executeImpl true [e0; e1; e_res] [0; 1]%nat 2 3) 2
  = left_as_substring true s n_col 3 ∧
  result_column (FunctionRight.executeImpl true [e0; e1; e_res] [0; 1]%nat 2 3) 2
  = right_as_substring lengthZ true s [97; 98; 99; 0; 0; 228; 184; 173; 0] [4; 5; 9]
      [2; 1; 3] 3.
Proof.
  intros s n_col e0 e1 e_res.
  apply (left_right_are_substring true [e0; e1; e_res] 0 1 2 3 e0 e1 e_res
           [97; 98; 99; 0; 0; 228; 184; 173; 0] [4; 5; 9] [2; 1; 3]);
    [reflexivity | reflexivity | reflexivity | reflexivity | reflexivity | simpl; lia | |].
  - intros i Hi. destruct i as [|[|[|i]]]; [| | |lia];
      (eexists; split; [reflexivity | vm_compute; discriminate]).
  - intros i Hi. destruct i as [|[|[|i]]]; [| | |lia]; discriminate.
Defined.

Lemma substring_positive_start_witness :
  let s := [228; 184; 173; 229; 155; 189] in
  (∀ null_map res_chars res_offsets,
     FunctionSubstring.vector_row (s ++ [0]) [7] [2] [1] 0
       (null_map, res_chars, res_offsets)
     = if char_slots (lengthZ s) (get_utf8_byte_length 228) <? 2
       then StringOP.push_null_string 0 res_chars res_offsets null_map
       else
         '(res_chars, res_offsets) ←
           StringOP.push_value_string (span (get_utf8_byte_length 228) s (2 - 1) 1)
             0 res_chars res_offsets;
         Ok (null_map, res_chars, res_offsets)) ∧
  (∀ null_map out,
     FunctionSubstring.vector (s ++ [0]) [7] [2] [1] null_map [] [] = Ok out →
     if char_slots (lengthZ s) (get_utf8_byte_length 228) <? 2
     then null_of out !! 0%nat = Some 1 ∧ row_is (chars_of out) (offsets_of out) 0 []
     else row_is (chars_of out) (offsets_of out) 0
            (span (get_utf8_byte_length 228) s (2 - 1) 1) ∧
          null_of out !! 0%nat = null_map !! 0%nat).
Proof.
  intros s.
  apply (substring_positive_start (s ++ [0]) [7] [2] [1] 0 s 2 1 0 228);
    [reflexivity | vm_compute; discriminate | reflexivity | reflexivity
    | split; [lia | vm_compute; discriminate]
    | split; [lia | vm_compute; discriminate]
    | reflexivity | reflexivity].
Defined.

Lemma substring_negative_start_witness :
  let s := [97; 98; 99; 100] in
  (∀ null_map res_chars res_offsets,
     FunctionSubstring.vector_row (s ++ [0]) [5] [-3] [2] 0
       (null_map, res_chars, res_offsets)
     = if char_slots (lengthZ s) (get_utf8_byte_length 97) + -3 <? 0
       then StringOP.push_null_string 0 res_chars res_offsets null_map
       else
         '(res_chars, res_offsets) ←
           StringOP.push_value_string
             (span (get_utf8_byte_length 97) s
                (char_slots (lengthZ s) (get_utf8_byte_length 97) + -3) 2)
             0 res_chars res_offsets;
         Ok (null_map, res_chars, res_offsets)) ∧
  (∀ null_map out,
     FunctionSubstring.vector (s ++ [0]) [5] [-3] [2] null_map [] [] = Ok out →
     if char_slots (lengthZ s) (get_utf8_byte_length 97) + -3 <? 0
     then null_of out !! 0%nat = Some 1 ∧ row_is (chars_of out) (offsets_of out) 0 []
     else row_is (chars_of out) (offsets_of out) 0
            (span (get_utf8_byte_length 97) s
               (char_slots (lengthZ s) (get_utf8_byte_length 97) + -3) 2) ∧
          null_of out !! 0%nat = null_map !! 0%nat).
Proof.
  intros s.
  apply (substring_negative_start (s ++ [0]) [5] [-3] [2] 0 s (-3) 2 0 97);
    [reflexivity | discriminate | vm_compute; discriminate | reflexivity | reflexivity
    | lia
    | split; [lia | vm_compute; discriminate]
    | reflexivity | reflexivity | vm_compute; discriminate].
Defined.

Lemma substring_before_first_character_witness :
  FunctionSubstring.vector_row [97; 98; 99; 0] [4] [-4] [1] 0 ([0], [], [0]) = Undefined.
Proof.
  apply (substring_before_first_character [97; 98; 99; 0] [4] [-4] [1] 0 [97; 98; 99]
           (-4) 1 0 97 [0] [] [0]);
    [reflexivity | discriminate | vm_compute; discriminate | reflexivity | reflexivity
    | lia | reflexivity | reflexivity | reflexivity].
Defined.

Lemma substring_rows_are_pieces_witness :
  let rows := [[97; 98; 99]; [100; 101]] in
  let out : FunctionSubstring.out := ([0; 0], [98; 99; 0; 101; 0], [3; 5]) in
  ∃ out_rows,
    chars_of out = bytes_of out_rows ∧ offsets_of out = ends out_rows ∧
    length out_rows = length rows ∧ length (null_of out) = length [0; 0] ∧
    ∀ i s, rows !! i = Some s →
      ∃ r a b, out_rows !! i = Some r ∧ r = take b (drop a s) ∧
        (null_of out !! i = [0; 0] !! i ∨ null_of out !! i = Some 1 ∧ r = []).
Proof.
  intros rows out.
  apply (substring_rows_are_pieces rows [2; -1] [5; 1] [0; 0] out).
  - repeat constructor; vm_compute; discriminate.
  - repeat constructor; vm_compute; discriminate.
  - repeat constructor; vm_compute; discriminate.
  - reflexivity.
Defined.

Lemma substring_uniform_width_witness :
  let cs := [[228; 184; 173]; [229; 155; 189]; [228; 186; 186]] in
  (∀ null_map res_chars res_offsets,
     FunctionSubstring.vector_row (mjoin cs ++ [0]) [10] [2] [5] 0
       (null_map, res_chars, res_offsets)
     = if lengthZ cs <? 2
       then StringOP.push_null_string 0 res_chars res_offsets null_map
       else
         '(res_chars, res_offsets) ←
           StringOP.push_value_string
             (mjoin (take (Z.to_nat 5) (drop (Z.to_nat (2 - 1)) cs)))
             0 res_chars res_offsets;
         Ok (null_map, res_chars, res_offsets)) ∧
  (∀ null_map out,
     FunctionSubstring.vector (mjoin cs ++ [0]) [10] [2] [5] null_map [] [] = Ok out →
     if lengthZ cs <? 2
     then null_of out !! 0%nat = Some 1 ∧ row_is (chars_of out) (offsets_of out) 0 []
     else row_is (chars_of out) (offsets_of out) 0
            (mjoin (take (Z.to_nat 5) (drop (Z.to_nat (2 - 1)) cs))) ∧
          null_of out !! 0%nat = null_map !! 0%nat).
Proof.
  intros cs.
  apply (substring_uniform_width (mjoin cs ++ [0]) [10] [2] [5] 0 cs 2 5 0 228);
    [reflexivity | vm_compute; discriminate
    | repeat constructor
    | reflexivity | reflexivity
    | split; [lia | vm_compute; discriminate]
    | split; [lia | vm_compute; discriminate]
    | reflexivity | reflexivity].
Defined.

Lemma substring_returns_witness :
  let rows := [[97]; [97]; [98]] in
  ∃ out, FunctionSubstring.vector (bytes_of rows) (ends rows) [1; 1; 1] [1; 1; 1] [0; 0; 0]
           [] []
         = Ok out.
Proof.
  intros rows.
  apply (substring_returns rows [1; 1; 1] [1; 1; 1] [0; 0; 0]).
  - repeat constructor; vm_compute; discriminate.
  - repeat constructor; vm_compute; discriminate.
  - repeat constructor; vm_compute; discriminate.
  - simpl. lia.
  - simpl. lia.
  - simpl. lia.
  - intros i s pos l Hs Hpos Hl. do 4 right.
    destruct i as [|[|[|i]]]; [| | |done]; injection Hs as <-; injection Hpos as <-;
      (eexists; split; [reflexivity | vm_compute; discriminate]).
Defined.

Lemma right_ignores_null_count_witness :
  let e0 := mkColumn (ColumnString [97; 98; 0] [3]) DataTypeString "s" in
  let e1 := mkColumn (ColumnNullable (ColumnInt32 [1]) [1])
              (DataTypeNullable DataTypeInt32) "n" in
  let e_res := mkColumn (ColumnUInt8 []) (DataTypeNullable DataTypeString) "result" in
  result_column (FunctionRight.executeImpl true [e0; e1; e_res] [0; 1]%nat 2 1) 2
  = result_column
      (FunctionRight.executeImpl true
         (<[1%nat := mkColumn (ColumnInt32 [1]) (type e1) (name e1)]> [e0; e1; e_res])
         [0; 1]%nat 2 1)
      2.
Proof.
  intros e0 e1 e_res.
  apply (right_ignores_null_count true [e0; e1; e_res] 0 1 2 1 e0 e1 e_res [1] [1]);
    [reflexivity | reflexivity | reflexivity | lia | reflexivity].
Defined.

Lemma substring_index_closed_form_witness :
  FunctionSubstring.scan (Z.to_nat 6) [228; 184; 173; 229; 155; 189; 0] 0 0 6 1 1 0 []
  = Ok (grid (get_utf8_byte_length 228)
          (Z.to_nat (scan_count 6 (get_utf8_byte_length 228) 1 1))) ∧
  1 <= scan_count 6 (get_utf8_byte_length 228) 1 1
    <= char_slots 6 (get_utf8_byte_length 228) ∧
  char_slots 6 (get_utf8_byte_length 228) <= 6 ∧
  (∀ (k : nat) e,
     grid (get_utf8_byte_length 228)
       (Z.to_nat (scan_count 6 (get_utf8_byte_length 228) 1 1)) !! k
     = Some e →
     e = Z.of_nat k * get_utf8_byte_length 228 ∧ 0 <= e < 6) ∧
  (0 < 1 → 0 <= 1 + 1 < 2 ^ 31 →
   scan_count 6 (get_utf8_byte_length 228) 1 1 <= 1 + 1 + 1).
Proof.
  apply (substring_index_closed_form [228; 184; 173; 229; 155; 189; 0] 0 0 6 1 1 228);
    [lia | reflexivity].
Defined.

Lemma substring_constant_arguments_witness :
  let e0 := mkColumn (ColumnConst (ColumnString [97; 98; 99; 0] [4]) 2) DataTypeString "s" in
  let e1 := mkColumn (ColumnConst (ColumnInt32 [2]) 2) DataTypeInt32 "pos" in
  let e2 := mkColumn (ColumnInt32 [1; 2]) DataTypeInt32 "len" in
  let e_res := mkColumn (ColumnUInt8 []) (DataTypeNullable DataTypeString) "result" in
  result_column
    (FunctionSubstring.substring_execute true [e0; e1; e2; e_res] [0; 1; 2]%nat 3 2) 3
  = substring_columns true (ColumnString [97; 98; 99; 0; 97; 98; 99; 0] [4; 8])
      (ColumnInt32 [2; 2]) (ColumnInt32 [1; 2]) 2.
Proof.
  intros e0 e1 e2 e_res.
  apply (substring_constant_arguments true [e0; e1; e2; e_res] 0 1 2 3 2 e0 e1 e2 e_res);
    reflexivity.
Defined.

Lemma substring_null_in_null_out_witness :
  let e_s := mkColumn (ColumnString [97; 98; 0; 99; 0] [3; 5]) DataTypeString "s" in
  let e_pos := mkColumn (ColumnConst (ColumnInt32 [1]) 2) DataTypeInt32 "pos" in
  let e_len := mkColumn (ColumnNullable (ColumnInt32 [1; 1]) [0; 1])
                 (DataTypeNullable DataTypeInt32) "len" in
  let e_res := mkColumn (ColumnUInt8 []) (DataTypeNullable DataTypeString) "result" in
  let block := [e_s; e_pos; e_len; e_res] in
  ∃ res_chars res_offsets res_null f,
    [e_s; e_pos; e_len;
     mkColumn (ColumnNullable (ColumnString [97; 0; 99; 0] [2; 4]) [0; 1])
       (DataTypeNullable DataTypeString) "result"]
    = <[3%nat :=
         mkColumn (ColumnNullable (ColumnString res_chars res_offsets) res_null)
           (type e_res) (name e_res)]> block ∧
    res_null !! 1%nat = Some f ∧ f ≠ 0.
Proof.
  intros e_s e_pos e_len e_res block.
  apply (substring_null_in_null_out true block 0 1 2 3 2
           [e_s; e_pos; e_len;
            mkColumn (ColumnNullable (ColumnString [97; 0; 99; 0] [2; 4]) [0; 1])
              (DataTypeNullable DataTypeString) "result"]
           e_res 2 2 e_len (ColumnInt32 [1; 1]) [0; 1] 1 1);
    [reflexivity | reflexivity | reflexivity | reflexivity | reflexivity | reflexivity
    | discriminate | lia].
Defined.

Lemma left_rows_witness :
  let e0 := mkColumn (ColumnString [228; 184; 173; 229; 155; 189; 0; 0] [7; 8])
              DataTypeString "s" in
  let e1 := mkColumn (ColumnInt32 [1; 1]) DataTypeInt32 "n" in
  let e_res := mkColumn (ColumnUInt8 []) (DataTypeNullable DataTypeString) "result" in
  let s := [228; 184; 173; 229; 155; 189] in
  (s = [] → [0; 1] !! 0%nat = Some 1 ∧ row_is [228; 184; 173; 0; 0] [4; 5] 0 []) ∧
  (s ≠ [] → 1 <= 0 → row_is [228; 184; 173; 0; 0] [4; 5] 0 [] ∧ [0; 1] !! 0%nat = Some 0) ∧
  (s ≠ [] → 0 < 1 →
   ∀ p byte, prev_offset [7; 8] 0 = Ok p →
     getZ [228; 184; 173; 229; 155; 189; 0; 0] (p + Z.of_nat 0) = Ok byte →
     row_is [228; 184; 173; 0; 0] [4; 5] 0 (take (Z.to_nat (1 * get_utf8_byte_length byte)) s) ∧
     [0; 1] !! 0%nat = Some 0).
Proof.
  intros e0 e1 e_res s.
  apply (left_rows true [e0; e1; e_res] 0 1 2 2 e0 e1 e_res
           [228; 184; 173; 229; 155; 189; 0; 0] [7; 8] [1; 1] 0 s 1
           [0; 1] [228; 184; 173; 0; 0] [4; 5]);
    [reflexivity | reflexivity | reflexivity | reflexivity | reflexivity | reflexivity
    | lia | reflexivity | vm_compute; discriminate | reflexivity
    | split; vm_compute; discriminate].
Defined.

Lemma right_rows_witness :
  let e0 := mkColumn (ColumnString [97; 98; 99; 100; 0] [5]) DataTypeString "s" in
  let e1 := mkColumn (ColumnInt32 [3]) DataTypeInt32 "n" in
  let e_res := mkColumn (ColumnUInt8 []) (DataTypeNullable DataTypeString) "result" in
  let s := [97; 98; 99; 100] in
  if char_slots (lengthZ s) (get_utf8_byte_length 97) - Z.min 3 (lengthZ s) <? 0
  then [0] !! 0%nat = Some 1 ∧ row_is [98; 99; 100; 0] [4] 0 []
  else
    row_is [98; 99; 100; 0] [4] 0
      (drop (Z.to_nat ((char_slots (lengthZ s) (get_utf8_byte_length 97)
                        - Z.min 3 (lengthZ s)) * get_utf8_byte_length 97)) s) ∧
    [0] !! 0%nat = Some 0.
Proof.
  intros e0 e1 e_res s.
  apply (right_rows true [e0; e1; e_res] 0 1 2 1 e0 e1 e_res [97; 98; 99; 100; 0] [5] [3]
           0 s 3 0 97 [0] [98; 99; 100; 0] [4]);
    [reflexivity | reflexivity | reflexivity | reflexivity | reflexivity | simpl; lia
    | | reflexivity | lia | reflexivity | discriminate | reflexivity
    | split; [lia | vm_compute; discriminate] | reflexivity | reflexivity].
  intros j Hj. exists s. destruct j as [|j]; [|lia].
  split; [reflexivity | vm_compute; discriminate].
Defined.

Lemma right_nonpositive_count_witness :
  let e0 := mkColumn (ColumnString [97; 98; 99; 100; 0] [5]) DataTypeString "s" in
  let e1 := mkColumn (ColumnInt32 [-2]) DataTypeInt32 "n" in
  let e_res := mkColumn (ColumnUInt8 []) (DataTypeNullable DataTypeString) "result" in
  let s := [97; 98; 99; 100] in
  (-2 = 0 → row_is [98; 99; 100; 0] [4] 0 [] ∧ [0] !! 0%nat = Some 0) ∧
  (-2 < 0 → s ≠ [] →
   ∀ p byte, prev_offset [5] 0 = Ok p →
     getZ [97; 98; 99; 100; 0] (p + Z.of_nat 0) = Ok byte →
     if char_slots (lengthZ s) (get_utf8_byte_length byte) <? - -2
     then [0] !! 0%nat = Some 1 ∧ row_is [98; 99; 100; 0] [4] 0 []
     else row_is [98; 99; 100; 0] [4] 0
            (drop (Z.to_nat ((- -2 - 1) * get_utf8_byte_length byte)) s) ∧
          [0] !! 0%nat = Some 0).
Proof.
  intros e0 e1 e_res s.
  apply (right_nonpositive_count true [e0; e1; e_res] 0 1 2 1 e0 e1 e_res
           [97; 98; 99; 100; 0] [5] [-2] 0 s (-2) [0] [98; 99; 100; 0] [4]);
    [reflexivity | reflexivity | reflexivity | reflexivity | reflexivity | simpl; lia
    | | reflexivity | lia | reflexivity | reflexivity | lia].
  intros j Hj. exists s. destruct j as [|j]; [|lia].
  split; [reflexivity | vm_compute; discriminate].
Defined.

Lemma left_right_grow_block_witness :
  let e0 := mkColumn (ColumnString [97; 98; 99; 0] [4]) DataTypeString "s" in
  let e1 := mkColumn (ColumnInt32 [2]) DataTypeInt32 "n" in
  let e_res := mkColumn (ColumnUInt8 []) (DataTypeNullable DataTypeString) "result" in
  let block := [e0; e1; e_res] in
  let block_l :=
    [e0; e1;
     mkColumn (ColumnNullable (ColumnString [97; 98; 0] [3]) [0])
       (DataTypeNullable DataTypeString) "result";
     mkColumn (ColumnInt32 [1]) DataTypeInt32 "const 1"] in
  let block_r :=
    [e0; e1;
     mkColumn (ColumnNullable (ColumnString [98; 99; 0] [3]) [0])
       (DataTypeNullable DataTypeString) "result";
     mkColumn (ColumnInt32 [-2]) DataTypeInt32 "index";
     mkColumn (ColumnInt32 [3]) DataTypeInt32 "strlen"] in
  (∃ col,
     block_l = <[2%nat := mkColumn col (type e_res) (name e_res)]> block
               ++ [mkColumn (ColumnInt32 (replicate 1 1)) DataTypeInt32 "const 1"]) ∧
  (∃ col index_data strlen_data,
     length index_data = 1%nat ∧ length strlen_data = 1%nat ∧
     block_r = <[2%nat := mkColumn col (type e_res) (name e_res)]> block
               ++ [mkColumn (ColumnInt32 index_data) DataTypeInt32 "index";
                   mkColumn (ColumnInt32 strlen_data) DataTypeInt32 "strlen"]).
Proof.
  intros e0 e1 e_res block block_l block_r.
  destruct (left_right_grow_block true block 0 1 2 1 e_res eq_refl) as [Hleft Hright].
  split; [apply (Hleft block_l) | apply (Hright block_r)]; reflexivity.
Defined.
